(** * mlrun/runtimes/base.py: the run orchestration core

    A shallow embedding of [RunRuntime] (run, _run_many, _post_run,
    _results_to_iter, _build_image, build_image, store_run, _get_db_run,
    _get_cmd_args) and of the module-level [selector], [_write_kfpmeta],
    [get_kfp_outputs], [add_code_metadata] and [set_if_none], with the
    properties the specification states about them and further
    properties read off the code. *)

From Stdlib Require Import ZArith QArith String Ascii List Bool Lia.
From Stdlib Require Import DecimalString.
Import ListNotations.

Set Warnings "-register-all".

Local Open Scope string_scope.
Local Open Scope list_scope.
Local Open Scope Z_scope.

(** ** Python values *)

(** The values that flow through payload dictionaries.  A finite float
    is represented by the rational it denotes; the infinite floats and
    NaN are values of their own.  An exception object carries its
    message.  Dictionaries keep insertion order, as Python's do. *)
Inductive pyval : Type :=
| PNone
| PInt (z : Z)
| PFloat (q : Q)
| PInf (negative : bool)
| PNaN
| PStr (s : string)
| PExc (msg : string)
| PList (l : list pyval)
| PDict (d : list (string * pyval)).

Definition pydict : Type := list (string * pyval).

(** Python truthiness ([if v:]). An exception object is always true. *)
Definition truthy (v : pyval) : bool :=
  match v with
  | PNone => false
  | PInt z => negb (z =? 0)
  | PFloat q => negb (Qeq_bool q 0)
  | PInf _ => true
  | PNaN => true
  | PStr s => negb (s =? "")%string
  | PExc _ => true
  | PList l => match l with [] => false | _ :: _ => true end
  | PDict d => match d with [] => false | _ :: _ => true end
  end.

Definition is_None (v : pyval) : bool :=
  match v with PNone => true | _ => false end.

Definition is_dict (v : pyval) : bool :=
  match v with PDict _ => true | _ => false end.

(** [v == s] for a string literal [s]. *)
Definition eq_str (v : pyval) (s : string) : bool :=
  match v with PStr t => (t =? s)%string | _ => false end.

(** [a or b] *)
Definition py_or (a b : pyval) : pyval := if truthy a then a else b.

(** ** Exceptions and results *)

(** The exceptions of Python that reach this module. *)
Inductive builtin_exn : Type :=
| ValueError (msg : string)
| TypeError
| AttributeError
| KeyError (key : string)
| IndexError
| OSError (msg : string).

(** What a computation raises: the RunError of this module, or an
    exception of Python.  The code outside this module (git, json, the
    file system, the helpers of mlrun.utils) raises only the latter. *)
Inductive exn : Type :=
| RunError (msg : string)
| Builtin (e : builtin_exn).

Coercion Builtin : builtin_exn >-> exn.

Inductive result (A : Type) : Type :=
| Ok (a : A)
| Raise (e : exn).
Arguments Ok {A} a.
Arguments Raise {A} e.

Definition rbind {A B} (r : result A) (f : A -> result B) : result B :=
  match r with
  | Ok a => f a
  | Raise e => Raise e
  end.

(** The answer of code outside this module, as a result. *)
Definition from_builtin {A} (r : builtin_exn + A) : result A :=
  match r with
  | inl e => Raise e
  | inr a => Ok a
  end.

(** ** Dictionaries *)

Fixpoint dict_get (k : string) (d : pydict) : option pyval :=
  match d with
  | [] => None
  | (k', v) :: d' => if (k' =? k)%string then Some v else dict_get k d'
  end.

(** [d[k] = v]: replaces the value in place, or appends a new key. *)
Fixpoint dict_set (k : string) (v : pyval) (d : pydict) : pydict :=
  match d with
  | [] => [(k, v)]
  | (k', v') :: d' =>
      if (k' =? k)%string then (k', v) :: d' else (k', v') :: dict_set k v d'
  end.

(** Modelled from the spec: [get_in] is imported from mlrun.utils, which
    is not part of the sources.  The spec gives the payload as nested
    dictionaries ({metadata:{uid,project,iteration}, status:{state,
    outputs, error?}}) and says a task missing a field is skipped without
    a crash, so a path that leaves the dictionaries yields the default.
    A dotted path such as 'status.state' is written as its list of keys. *)
Fixpoint get_in (obj : pyval) (keys : list string) (default : pyval) : pyval :=
  match keys with
  | [] => obj
  | k :: ks =>
      match obj with
      | PDict d =>
          match dict_get k d with
          | Some v => get_in v ks default
          | None => default
          end
      | _ => default
      end
  end.

(** Modelled from the spec: [update_in] is imported from mlrun.utils,
    which is not part of the sources.  It writes [v] at the path,
    creating the dictionaries on the way; walking into a value that is
    not a dictionary raises, as attribute access on it does in Python. *)
Fixpoint update_in (obj : pyval) (keys : list string) (v : pyval)
  : result pyval :=
  match keys with
  | [] => Ok v
  | k :: ks =>
      match obj with
      | PDict d =>
          match ks with
          | [] => Ok (PDict (dict_set k v d))
          | _ :: _ =>
              let sub := match dict_get k d with
                         | Some s => s
                         | None => PDict []
                         end in
              rbind (update_in sub ks v)
                    (fun sub' => Ok (PDict (dict_set k sub' d)))
          end
      | _ => Raise AttributeError
      end
  end.

(** ** Numbers and comparison *)

Definition Qltb (x y : Q) : bool :=
  (Qnum x * Zpos (Qden y) <? Qnum y * Zpos (Qden x))%Z.

(** A number of Python: an int or a finite float by its value, an
    infinite float, or the float NaN. *)
Inductive number : Type :=
| Finite (q : Q)
| Infinite (negative : bool)
| NotANumber.

Definition number_of (v : pyval) : option number :=
  match v with
  | PInt z => Some (Finite (inject_Z z))
  | PFloat q => Some (Finite q)
  | PInf negative => Some (Infinite negative)
  | PNaN => Some NotANumber
  | _ => None
  end.

(** [isinstance(v, (int, float, complex))] *)
Definition is_number (v : pyval) : bool :=
  match number_of v with
  | Some _ => true
  | None => false
  end.

(** The value of an int or of a finite float. *)
Definition num_of (v : pyval) : option Q :=
  match v with
  | PInt z => Some (inject_Z z)
  | PFloat q => Some q
  | _ => None
  end.

(** [x < y] on numbers: exact on finite values (Python compares int and
    float by value), the infinities below and above them, and false
    whenever one side is NaN. *)
Definition number_ltb (x y : number) : bool :=
  match x, y with
  | Finite a, Finite b => Qltb a b
  | Finite _, Infinite negative => negb negative
  | Infinite negative, Finite _ => negative
  | Infinite a, Infinite b => a && negb b
  | _, _ => false
  end.

(** [a < b]: by value on numbers, lexicographic on strings, a TypeError
    otherwise.  Python compares two lists element by element.  The only
    comparison of this module is that of the selector, against a running
    best that is always a number, so that two lists are never compared
    and the answer given here for them is never used. *)
Definition py_lt (a b : pyval) : result bool :=
  match number_of a, number_of b with
  | Some x, Some y => Ok (number_ltb x y)
  | _, _ =>
      match a, b with
      | PStr s, PStr t => Ok (String.ltb s t)
      | _, _ => Raise TypeError
      end
  end.

(** [a > b] *)
Definition py_gt (a b : pyval) : result bool := py_lt b a.

(** sys.float_info.min: the smallest positive normalised double, 2^-1022. *)
Definition float_info_min : Q := Qmake 1 (2 ^ 1022)%positive.

(** sys.float_info.max: the largest finite double, (2^53 - 1) * 2^971. *)
Definition float_info_max : Q := inject_Z ((2 ^ 53 - 1) * 2 ^ 971).

(** ** What the orchestrator does to its collaborators

    The run store, the cluster, the image builder, the logger and the
    file system are outside this module; every call to one of them is
    recorded, in order. *)
Inductive event : Type :=
| LogInfo (msg : string)
| LogError (msg : string)
| DbConnect (rundb : string)
| DbStoreRun (struct uid project : pyval) (commit : bool)
| DbReadRun (uid project : pyval)
| DbUpdateRun (updates : pydict) (uid project : pyval)
| GetPodStatus (pod : string)
| BuildRuntime (with_mlrun watch : bool)
| NewContext (struct : pyval)
| WriteFile (path : string) (content : pyval)
| LogIterationResults (best : pyval) (summary : pyval) (task : pyval)
| LogArtifact (key : string) (body : pyval)
| SetState (state : pyval) (error : pyval).

(** ** selector *)

(** [idx = criteria.find('.')] and the two slices taken when [idx >= 0]. *)
Definition split_criteria (criteria : string) : string * string :=
  match index 0 "." criteria with
  | None => ("max", criteria)
  | Some idx =>
      (substring 0 idx criteria,
       substring (idx + 1) (String.length criteria - (idx + 1)) criteria)
  end.

(** The running best of the scan: [best_id, best_item, best_val]. *)
Record best : Type := mkBest {
  best_id : pyval;
  best_item : nat;
  best_val : pyval
}.

(** [state != 'error' and val is not None] *)
Definition candidate (criteria : string) (task : pyval) : bool :=
  negb (eq_str (get_in task ["status"; "state"] PNone) "error")
  && negb (is_None (get_in task ["status"; "outputs"; criteria] PNone)).

(** [(op == 'max' and val > best_val) or (op == 'min' and val < best_val)] *)
Definition improves (op : string) (val best_val : pyval) : result bool :=
  if (op =? "max")%string then py_gt val best_val
  else if (op =? "min")%string then py_lt val best_val
  else Ok false.

(** The [for task in results] loop, with its counter [i]. *)
Fixpoint selector_scan (op criteria : string) (results : list pyval)
    (i : nat) (b : best) : result best :=
  match results with
  | [] => Ok b
  | task :: rest =>
      let id := get_in task ["metadata"; "iteration"] PNone in
      let val := get_in task ["status"; "outputs"; criteria] PNone in
      if candidate criteria task then
        rbind (improves op val (best_val b))
              (fun better =>
                 selector_scan op criteria rest (S i)
                   (if better then mkBest id i val else b))
      else selector_scan op criteria rest (S i) b
  end.

(** [selector(results, criteria)]: the pair [(best_item, best_id)], with
    what it logged.  The criterion is [None], or a string. *)
Definition selector (results : list pyval) (criteria : pyval)
  : list event * result (nat * pyval) :=
  if negb (truthy criteria) then ([], Ok (0%nat, PInt 0))
  else
    match criteria with
    | PStr c =>
        let (op, criteria) := split_criteria c in
        let start :=
          if (op =? "max")%string then Some (PFloat float_info_min)
          else if (op =? "min")%string then Some (PFloat float_info_max)
          else None in
        match start with
        | None =>
            ([LogError ("unsupported selector " ++ op ++ "." ++ criteria)],
             Ok (0%nat, PInt 0))
        | Some best_val =>
            ([], rbind (selector_scan op criteria results 0
                          (mkBest (PInt 0) 0 best_val))
                       (fun b => Ok (best_item b, best_id b)))
        end
    | _ => ([], Raise AttributeError)
    end.

(** A terminal task payload with one output, for examples:
    {metadata: {iteration}, status: {state, outputs: {field: v}}}. *)
Definition task_payload (iteration : Z) (state : string)
    (outputs : pydict) : pyval :=
  PDict [("metadata", PDict [("iteration", PInt iteration)]);
         ("status", PDict [("state", PStr state);
                           ("outputs", PDict outputs)])].

(** ** Task descriptors (RunObject) *)

Record RunMetadata : Type := mkRunMetadata {
  name : pyval;
  uid : pyval;
  project : pyval;
  iteration : pyval;
  labels : pydict
}.

Record RunSpec : Type := mkRunSpec {
  parameters : pyval;
  inputs : pyval;
  handler : pyval;
  selector_criteria : pyval;
  hyperparams : pyval;
  param_file : pyval;
  secret_sources : pyval
}.

Record RunStatus : Type := mkRunStatus {
  state : pyval;
  error : pyval;
  outputs : pyval
}.

Record RunObject : Type := mkRunObject {
  metadata : RunMetadata;
  spec : RunSpec;
  status : RunStatus
}.

(** The fields of a struct as a dictionary; a field that is [None] is
    left out. *)
Definition struct_dict (fields : pydict) : pyval :=
  PDict (filter (fun kv => negb (is_None (snd kv))) fields).

(** Modelled from the spec: [RunObject.to_dict] is defined in mlrun.model,
    which is not part of the sources.  It gives the payload shape of the
    spec: {metadata: {...}, spec: {...}, status: {state, outputs, error?}}. *)
Definition to_dict (t : RunObject) : pyval :=
  PDict
    [("metadata",
      struct_dict [("name", name (metadata t)); ("uid", uid (metadata t));
                   ("project", project (metadata t));
                   ("iteration", iteration (metadata t));
                   ("labels", PDict (labels (metadata t)))]);
     ("spec",
      struct_dict [("parameters", parameters (spec t));
                   ("inputs", inputs (spec t));
                   ("handler", handler (spec t));
                   ("selector", selector_criteria (spec t));
                   ("hyperparams", hyperparams (spec t));
                   ("param_file", param_file (spec t));
                   ("secret_sources", secret_sources (spec t))]);
     ("status",
      struct_dict [("state", state (status t)); ("error", error (status t));
                   ("outputs", outputs (status t))])].

Definition set_status (t : RunObject) (st : RunStatus) : RunObject :=
  mkRunObject (metadata t) (spec t) st.

(** ** The runtime object ([self])

    An unset string attribute ([None] or '') is the empty string. *)

Record FunctionSpec : Type := mkFunctionSpec {
  spec_command : string;
  spec_args : list string;
  spec_image : string;
  spec_mode : string;
  spec_rundb : string
}.

Record ImageBuilder : Type := mkImageBuilder {
  bld_image : string;
  bld_base_image : string;
  bld_commands : list string;
  bld_source : string;
  bld_build_pod : string;
  bld_inline_code : string;
  bld_secret : string
}.

Record RunRuntime : Type := mkRunRuntime {
  kind : string;
  rt_spec : FunctionSpec;
  rt_build : ImageBuilder;
  kfp : bool;
  _db_conn : bool;
  _secrets : pyval;
  _is_built : bool
}.

Definition set_spec_args (rt : RunRuntime) (a : list string) : RunRuntime :=
  let s := rt_spec rt in
  mkRunRuntime (kind rt)
    (mkFunctionSpec (spec_command s) a (spec_image s) (spec_mode s)
       (spec_rundb s))
    (rt_build rt) (kfp rt) (_db_conn rt) (_secrets rt) (_is_built rt).

Definition set_spec_image (rt : RunRuntime) (i : string) : RunRuntime :=
  let s := rt_spec rt in
  mkRunRuntime (kind rt)
    (mkFunctionSpec (spec_command s) (spec_args s) i (spec_mode s)
       (spec_rundb s))
    (rt_build rt) (kfp rt) (_db_conn rt) (_secrets rt) (_is_built rt).

Definition set_build (rt : RunRuntime) (b : ImageBuilder) : RunRuntime :=
  mkRunRuntime (kind rt) (rt_spec rt) b (kfp rt) (_db_conn rt) (_secrets rt)
    (_is_built rt).

Definition set_build_pod (rt : RunRuntime) (p : string) : RunRuntime :=
  let b := rt_build rt in
  set_build rt
    (mkImageBuilder (bld_image b) (bld_base_image b) (bld_commands b)
       (bld_source b) p (bld_inline_code b) (bld_secret b)).

Definition set_is_built (rt : RunRuntime) (b : bool) : RunRuntime :=
  mkRunRuntime (kind rt) (rt_spec rt) (rt_build rt) (kfp rt) (_db_conn rt)
    (_secrets rt) b.

Definition set_db_conn (rt : RunRuntime) (c : bool) : RunRuntime :=
  mkRunRuntime (kind rt) (rt_spec rt) (rt_build rt) (kfp rt) c (_secrets rt)
    (_is_built rt).

Definition set_secrets (rt : RunRuntime) (s : pyval) : RunRuntime :=
  mkRunRuntime (kind rt) (rt_spec rt) (rt_build rt) (kfp rt) (_db_conn rt) s
    (_is_built rt).

(** What git answers: a value, an error that [add_code_metadata] catches
    (no git module, GitCommandError, InvalidGitRepositoryError), or an
    exception that it does not catch. *)
Inductive git_answer (A : Type) : Type :=
| GitOk (a : A)
| GitCaught
| GitRaises (e : builtin_exn).
Arguments GitOk {A} a.
Arguments GitCaught {A}.
Arguments GitRaises {A} e.

(** ** The collaborators

    What the module calls but does not define: the execution backend
    ([_run], overridden per runtime kind), the run store, the cluster,
    the builder, the task generators, the execution context, pandas, git,
    the file system, the helpers of mlrun.utils, and the system clock and
    names. *)
Record Env : Type := mkEnv {
  (** [self._run(task, execution)]: a payload, [None], or an exception;
      it reads the task, and modifies neither it nor the runtime object *)
  _run : RunObject -> result pyval;
  (** [self._db_conn.read_run(uid, project, False)], given what was done
      so far *)
  read_run : list event -> pyval -> pyval -> pyval;
  (** [str(datetime.now())] *)
  now : list event -> string;
  (** [k8s.get_pod_status(pod)] *)
  get_pod_status : list event -> string -> string;
  (** [build_runtime(self, with_mlrun, watch)]: the runtime as the
      builder leaves it, and [ready] *)
  build_runtime : RunRuntime -> bool -> bool -> RunRuntime * bool;
  (** [GridGenerator(hyperparams).generate(runspec)] *)
  grid_generate : pyval -> RunObject -> list RunObject;
  (** [ListGenerator(param_file contents).generate(runspec)] *)
  list_generate : pyval -> RunObject -> list RunObject;
  (** [execution.to_dict()], given the task and what was logged *)
  execution_to_dict : RunObject -> list event -> pyval;
  (** the pandas table of the iteration structs: summary rows and CSV *)
  iteration_table : list pyval -> pyval * pyval;
  (** [uuid.uuid4().hex] *)
  uuid4_hex : list event -> string;
  (** [getpass.getuser()] *)
  getuser : string;
  (** [Repo('./', search_parent_directories=True)] and the urls of its
      remotes *)
  git_remotes : git_answer (list string);
  (** [repo.head.commit.hexsha] *)
  git_commit : git_answer string;
  (** [KFPMETA_DIR], read from the environment when the module is loaded *)
  KFPMETA_DIR : string;
  (** [run_keys.output_artifacts], of mlrun.utils *)
  run_keys_output_artifacts : string;
  (** [with open(path, 'w') as f: json.dump(obj, f)]: the exception of
      the file system or of the serializer, if any *)
  write_json : string -> pyval -> option builtin_exn;
  (** [gen_md_table(header, rows)] and [dict_to_yaml(struct)], of
      mlrun.utils *)
  gen_md_table : pyval -> pyval -> builtin_exn + string;
  dict_to_yaml : pyval -> builtin_exn + string;
  (** [str] of a float, of a list and of a dictionary *)
  float_str : Q -> string;
  list_str : list pyval -> string;
  dict_str : pydict -> string
}.

(** The state the methods run in: the runtime object and the record of
    calls made so far. *)
Record world : Type := mkWorld {
  self : RunRuntime;
  trace : list event
}.

(** A computation returns or raises, and leaves a state either way. *)
Definition M (A : Type) : Type := world -> result A * world.

Definition ret {A} (a : A) : M A := fun w => (Ok a, w).

Definition raise {A} (e : exn) : M A := fun w => (Raise e, w).

Definition bind {A B} (m : M A) (f : A -> M B) : M B :=
  fun w =>
    match m w with
    | (Ok a, w') => f a w'
    | (Raise e, w') => (Raise e, w')
    end.

Notation "x <- m ;; k" := (bind m (fun x => k))
  (at level 61, m at next level, right associativity).
Notation "m ;;; k" := (bind m (fun _ => k))
  (at level 61, right associativity).

Definition emit (e : event) : M unit :=
  fun w => (Ok tt, mkWorld (self w) (trace w ++ [e])).

Definition emits (es : list event) : M unit :=
  fun w => (Ok tt, mkWorld (self w) (trace w ++ es)).

Definition get_self : M RunRuntime := fun w => (Ok (self w), w).

Definition get_trace : M (list event) := fun w => (Ok (trace w), w).

Definition put_self (rt : RunRuntime) : M unit :=
  fun w => (Ok tt, mkWorld rt (trace w)).

(** An assignment to an attribute of [self]. *)
Definition modify_self (f : RunRuntime -> RunRuntime) : M unit :=
  fun w => (Ok tt, mkWorld (f (self w)) (trace w)).

Definition lift {A} (r : result A) : M A := fun w => (r, w).

(** [try: body except RunError as err: handler(err)] *)
Definition try_except_RunError {A} (body : M A) (handler : pyval -> M A)
  : M A :=
  fun w =>
    match body w with
    | (Raise (RunError msg), w') => handler (PExc msg) w'
    | other => other
    end.

Definition string_of_Z (z : Z) : string :=
  NilZero.string_of_int (Z.to_int z).

(** ** Pipeline outputs *)

(** [s.endswith(suffix)] *)
Definition endswith (s suffix : string) : bool :=
  let n := String.length s in
  let m := String.length suffix in
  (m <=? n)%nat && (substring (n - m) m s =? suffix)%string.

(** [s.replace(old, new)] for a non-empty [old]: the occurrences of
    [old] are replaced from the left, and the characters of a replaced
    occurrence ([skip] of them are still to pass) start no other. *)
Fixpoint replace_from (old new s : string) (skip : nat) : string :=
  match s with
  | EmptyString => EmptyString
  | String c s' =>
      match skip with
      | S n => replace_from old new s' n
      | O =>
          if prefix old s
          then new ++ replace_from old new s' (String.length old - 1)
          else String c (replace_from old new s' 0)
      end
  end.

Definition replace (s old new : string) : string := replace_from old new s 0.

(** [d.get(k, default)] *)
Definition dict_get_default (k : string) (default : pyval) (d : pydict)
  : pyval :=
  match dict_get k d with
  | Some v => v
  | None => default
  end.

(** The loop of [get_kfp_outputs], with the outputs so far and the
    writes to /tmp attempted so far, each with the key that names the
    file and the content; a write that fails is passed over.  What it
    raises is an exception of Python. *)
Fixpoint get_kfp_outputs_loop (artifacts : list pyval) (outputs : list pyval)
    (files : list (pyval * pyval))
  : list (pyval * pyval) * (builtin_exn + list pyval) :=
  match artifacts with
  | [] => (files, inr outputs)
  | PDict output :: rest =>
      match dict_get "key" output with
      | None => (files, inl (KeyError "key"))
      | Some key =>
          let target := dict_get_default "target_path" (PStr "") output in
          let target := dict_get_default "inline" target output in
          let files := files ++ [(key, target)] in
          match target with
          | PStr target =>
              let target :=
                if prefix "v3io:///" target
                then replace target "v3io:///" "http://v3io-webapi:8081/"
                else target in
              let viewer := dict_get_default "viewer" (PStr "") output in
              let outputs :=
                if eq_str viewer "web-app" || eq_str viewer "chart" then
                  outputs ++ [PDict [("type", PStr "web-app");
                                     ("source", PStr target)]]
                else if eq_str viewer "table" then
                  let header := dict_get_default "header" PNone output in
                  if truthy header && endswith target ".csv" then
                    outputs ++ [PDict [("type", PStr "table");
                                       ("format", PStr "csv");
                                       ("header", header);
                                       ("source", PStr target)]]
                  else outputs
                else outputs in
              get_kfp_outputs_loop rest outputs files
          | _ => (files, inl AttributeError)
          end
      end
  | _ :: _ => (files, inl TypeError)
  end.

Definition get_kfp_outputs (artifacts : list pyval)
  : list (pyval * pyval) * (builtin_exn + list pyval) :=
  get_kfp_outputs_loop artifacts [] [].

(** ** Operations of Python on values *)

(** [k in v], for a string [k] *)
Definition py_contains (v : pyval) (k : string) : result bool :=
  match v with
  | PDict d => Ok (match dict_get k d with Some _ => true | None => false end)
  | PStr s => Ok (match index 0 k s with Some _ => true | None => false end)
  | PList l => Ok (existsb (fun x => eq_str x k) l)
  | _ => Raise TypeError
  end.

(** [v[k]], for a string [k] *)
Definition py_getitem (v : pyval) (k : string) : result pyval :=
  match v with
  | PDict d =>
      match dict_get k d with
      | Some x => Ok x
      | None => Raise (KeyError k)
      end
  | _ => Raise TypeError
  end.

(** [v.get(k, default)]: only a dictionary has [get] *)
Definition py_get (v : pyval) (k : string) (default : pyval) : result pyval :=
  match v with
  | PDict d => Ok (dict_get_default k default d)
  | _ => Raise AttributeError
  end.

(** [v.items()] *)
Definition py_items (v : pyval) : result pydict :=
  match v with
  | PDict d => Ok d
  | _ => Raise AttributeError
  end.

(** [for x in v]: the elements of a list, the keys of a dictionary, the
    characters of a string *)
Definition py_iter (v : pyval) : result (list pyval) :=
  match v with
  | PList l => Ok l
  | PDict d => Ok (map (fun kv => PStr (fst kv)) d)
  | PStr s => Ok (map (fun c => PStr (String c "")) (list_ascii_of_string s))
  | _ => Raise TypeError
  end.

(** [v[0]] and then [v[1:]] *)
Definition py_head_tail (v : pyval) : result (pyval * pyval) :=
  match v with
  | PList (x :: l) => Ok (x, PList l)
  | PList [] => Raise IndexError
  | PStr (String c s) => Ok (PStr (String c ""), PStr s)
  | PStr EmptyString => Raise IndexError
  | PDict _ => Raise (KeyError "0")
  | _ => Raise TypeError
  end.

(** [del d[k]] *)
Fixpoint dict_del (k : string) (d : pydict) : pydict :=
  match d with
  | [] => []
  | (k', v) :: d' =>
      if (k' =? k)%string then d' else (k', v) :: dict_del k d'
  end.

Definition newline : string := String (ascii_of_nat 10) "".

(** ** The methods of RunRuntime *)

Section Methods.

Context (E : Env).

(** [str(v)], as ['{}'.format(v)] renders it. *)
Definition py_str (v : pyval) : string :=
  match v with
  | PNone => "None"
  | PInt z => string_of_Z z
  | PFloat q => float_str E q
  | PInf negative => if negative then "-inf" else "inf"
  | PNaN => "nan"
  | PStr s => s
  | PExc msg => msg
  | PList l => list_str E l
  | PDict d => dict_str E d
  end.

(** [type(v)], as it is rendered in a message. *)
Definition type_name (v : pyval) : string :=
  match v with
  | PNone => "<class 'NoneType'>"
  | PInt _ => "<class 'int'>"
  | PFloat _ | PInf _ | PNaN => "<class 'float'>"
  | PStr _ => "<class 'str'>"
  | PExc _ => "<class 'mlrun.runtimes.base.RunError'>"
  | PList _ => "<class 'list'>"
  | PDict _ => "<class 'dict'>"
  end.

Definition _get_db_run (task : option RunObject) : M pyval :=
  rt <- get_self ;;
  match task with
  | Some task =>
      if _db_conn rt then
        let project := project (metadata task) in
        let uid := uid (metadata task) in
        let iter := iteration (metadata task) in
        let uid :=
          if truthy iter then PStr (py_str uid ++ "-" ++ py_str iter)
          else uid in
        h <- get_trace ;;
        emit (DbReadRun uid project) ;;;
        ret (read_run E h uid project)
      else ret (to_dict task)
  | None => ret PNone
  end.

Definition store_run (runobj : RunObject) (commit : bool) : M unit :=
  rt <- get_self ;;
  if _db_conn rt then
    let project := project (metadata runobj) in
    let uid := uid (metadata runobj) in
    let iter := iteration (metadata runobj) in
    let uid :=
      if truthy iter then PStr (py_str uid ++ "-" ++ py_str iter)
      else uid in
    emit (DbStoreRun (to_dict runobj) uid project commit)
  else ret tt.

(** The branch of [_post_run] that sets the state: the updates for the
    store and the payload as it is left. *)
Definition normalize (resp err : pyval) (updates : pydict)
  : result (pydict * pyval) :=
  if negb (eq_str (get_in resp ["status"; "state"] (PStr "")) "error")
     && negb (truthy err)
  then
    let updates := dict_set "status.state" (PStr "completed") updates in
    rbind (update_in resp ["status"; "state"] (PStr "completed"))
          (fun resp => Ok (updates, resp))
  else
    let updates := dict_set "status.state" (PStr "error") updates in
    rbind (update_in resp ["status"; "state"] (PStr "error"))
      (fun resp =>
         rbind (if truthy err then update_in resp ["status"; "error"] err
                else Ok resp)
           (fun resp =>
              let err := get_in resp ["status"; "error"] PNone in
              let updates :=
                if truthy err then dict_set "status.error" err updates
                else updates in
              Ok (updates, resp))).

Definition _post_run (resp : pyval) (task : option RunObject) (err : pyval)
  : M pyval :=
  resp <- (if is_None resp
           then match task with
                | Some _ => _get_db_run task
                | None => ret resp
                end
           else ret resp) ;;
  if is_None resp then ret PNone
  else if negb (is_dict resp) then
    raise (ValueError ("post_run called with type " ++ type_name resp))
  else
    h <- get_trace ;;
    let updates := [("status.last_update", PStr (now E h))] in
    ur <- lift (normalize resp err updates) ;;
    let (updates, resp) := ur : pydict * pyval in
    rt <- get_self ;;
    (if _db_conn rt then
       let project := get_in resp ["metadata"; "project"] PNone in
       let uid := get_in resp ["metadata"; "uid"] PNone in
       let iter := get_in resp ["metadata"; "iteration"] (PInt 0) in
       let uid :=
         if truthy iter then PStr (py_str uid ++ "-" ++ py_str iter)
         else uid in
       emit (DbUpdateRun updates uid project)
     else ret tt) ;;;
    ret resp.

(** One turn of the loop of [_run_many]: the response appended for
    [task]. *)
Definition run_task (task : RunObject) : M pyval :=
  try_except_RunError
    (store_run task true ;;;
     resp <- lift (_run E task) ;;
     _post_run resp (Some task) PNone)
    (fun err =>
       let task :=
         set_status task
           (mkRunStatus (PStr "error") err (outputs (status task))) in
       _post_run PNone (Some task) err).

Fixpoint _run_many_loop (tasks : list RunObject) (results : list pyval)
  : M (list pyval) :=
  match tasks with
  | [] => ret results
  | task :: rest =>
      resp <- run_task task ;;
      _run_many_loop rest (results ++ [resp])
  end.

Definition _run_many (tasks : list RunObject) : M (list pyval) :=
  _run_many_loop tasks [].

(** The loop of [_results_to_iter] over the results: the structs, the
    count of failed tasks, and the results as [_post_run] leaves them
    (it updates each payload in place). *)
Fixpoint results_loop (runspec : RunObject) (todo : list pyval)
    (iter : list pyval) (failed : nat) (done : list pyval)
  : M (list pyval * nat * list pyval) :=
  match todo with
  | [] => ret (iter, failed, done)
  | task :: rest =>
      let state := get_in task ["status"; "state"] PNone in
      let id := get_in task ["metadata"; "iteration"] PNone in
      let struct :=
        PDict [("param", get_in task ["spec"; "parameters"] (PDict []));
               ("output", get_in task ["status"; "outputs"] (PDict []));
               ("state", state);
               ("iter", id)] in
      failed <- (if eq_str state "error" then
                   let err := get_in task ["status"; "error"] (PStr "") in
                   emit (LogError ("error in task  "
                                   ++ py_str (uid (metadata runspec)) ++ ":"
                                   ++ py_str id ++ " - " ++ py_str err)) ;;;
                   ret (S failed)
                 else ret failed) ;;
      task <- _post_run task None PNone ;;
      results_loop runspec rest (iter ++ [struct]) failed (done ++ [task])
  end.

Definition _results_to_iter (results : list pyval) (runspec : RunObject)
  : M unit :=
  match results with
  | [] => emit (LogError "got an empty results list in to_iter")
  | _ :: _ =>
      r <- results_loop runspec results [] 0 [] ;;
      let '(iter, failed, results) := r : list pyval * nat * list pyval in
      let (summary, csv) := iteration_table E iter in
      let (logged, sel) := selector results (selector_criteria (spec runspec)) in
      emits logged ;;;
      sel <- lift sel ;;
      let (item, id) := sel : nat * pyval in
      let task :=
        if truthy id && negb (Nat.eqb (List.length results) 0)
        then nth item results PNone else PNone in
      emit (LogIterationResults id summary task) ;;;
      emit (LogArtifact "iteration_results.csv" csv) ;;;
      if (0 <? failed)%nat then
        emit (SetState PNone
                (PStr (string_of_Z (Z.of_nat failed)
                       ++ " tasks failed, check logs for db for details")))
      else emit (SetState (PStr "completed") PNone)
  end.

Definition nonempty (s : string) : bool := negb (s =? "")%string.

(** [_build_image]: [Some true], [Some false], or [None] where the
    method ends without a return statement. *)
Definition _build_image (watch with_mlrun execution : bool)
  : M (option bool) :=
  rt <- get_self ;;
  let pod := bld_build_pod (rt_build rt) in
  if negb (_is_built rt) && nonempty pod then
    h <- get_trace ;;
    emit (GetPodStatus pod) ;;;
    let status := get_pod_status E h pod in
    if (status =? "succeeded")%string then
      modify_self (fun rt => set_build_pod rt "") ;;;
      modify_self (fun rt => set_is_built rt true) ;;;
      emit (LogInfo "build completed successfully") ;;;
      ret (Some true)
    else if (status =? "failed")%string || (status =? "error")%string then
      raise (RunError (" build " ++ status
                       ++ ", watch the build pod logs: " ++ pod))
    else
      emit (LogInfo ("builder status is: " ++ status
                     ++ ", wait for it to complete")) ;;;
      ret (Some false)
  else
    (if match bld_commands (rt_build rt) with [] => true | _ => false end
        && (spec_mode (rt_spec rt) =? "pass")%string
        && negb (nonempty (bld_source (rt_build rt)))
     then
       if negb (nonempty (spec_image (rt_spec rt)))
          && negb (nonempty (bld_base_image (rt_build rt)))
       then raise (RunError "image or base_image must be specified")
       else
         modify_self
           (fun rt =>
              set_spec_image rt
                (if nonempty (spec_image (rt_spec rt))
                 then spec_image (rt_spec rt)
                 else bld_base_image (rt_build rt)))
     else ret tt) ;;;
    rt <- get_self ;;
    if nonempty (spec_image (rt_spec rt)) then
      modify_self (fun rt => set_is_built rt true) ;;;
      ret (Some true)
    else
      (if execution then emit (SetState (PStr "build") PNone) else ret tt) ;;;
      emit (BuildRuntime with_mlrun watch) ;;;
      let (rt', ready) := build_runtime E rt with_mlrun watch in
      put_self (set_is_built rt' ready) ;;;
      ret None.

(** [build_image]: the public entry that asks for a (new) build. *)
Definition build_image (image base_image : string) (commands : list string)
    (secret : string) (with_mlrun watch : bool) : M unit :=
  modify_self
    (fun rt =>
       let b := rt_build rt in
       set_spec_image
         (set_build rt
            (mkImageBuilder image
               (if nonempty base_image then base_image else bld_base_image b)
               (bld_commands b ++ commands) (bld_source b) (bld_build_pod b)
               (bld_inline_code b)
               (if nonempty secret then secret else bld_secret b))) "") ;;;
  _build_image watch with_mlrun false ;;;
  ret tt.

(** [set_if_none(struct, key, value)] *)
Definition set_if_none (struct : pydict) (key : string) (value : pyval)
  : pydict :=
  match dict_get key struct with
  | Some v => if truthy v then struct else dict_set key value struct
  | None => dict_set key value struct
  end.

(** [add_code_metadata(labels)]: the labels as it leaves them (it
    changes them in place), and how it ends.  The labels are left alone
    when there is no git module, no repository or no remote; an
    exception that is not caught leaves what was set before it. *)
Definition add_code_metadata (labels : pydict) : pydict * result unit :=
  match git_remotes E with
  | GitOk (url :: _) =>
      let labels := set_if_none labels "repo" (PStr url) in
      match git_commit E with
      | GitOk hexsha => (set_if_none labels "commit" (PStr hexsha), Ok tt)
      | GitCaught => (labels, Ok tt)
      | GitRaises e => (labels, Raise e)
      end
  | GitOk [] => (labels, Ok tt)
  | GitCaught => (labels, Ok tt)
  | GitRaises e => (labels, Raise e)
  end.

(** The local [show] of [run]: the result table is for display only. *)
Definition show (resp : pyval) : M pyval :=
  (if truthy resp then ret tt
   else emit (LogInfo "no returned result (job may still be in progress)")) ;;;
  ret resp.

(** [with open(path, 'w') as f: json.dump(obj, f)] *)
Definition write_file (path : string) (obj : pyval) : M unit :=
  emit (WriteFile path obj) ;;;
  lift (match write_json E path obj with
        | Some e => Raise e
        | None => Ok tt
        end).

(** [_write_kfpmeta(struct)]: the metrics and the report of a run under
    a pipeline.  The writes to /tmp of [get_kfp_outputs] are recorded as
    they are attempted. *)
Definition _write_kfpmeta (struct : pyval) : M unit :=
  has_status <- lift (py_contains struct "status") ;;
  if negb has_status then ret tt
  else
    status <- lift (py_getitem struct "status") ;;
    outputs <- lift (py_get status "outputs" (PDict [])) ;;
    items <- lift (py_items outputs) ;;
    let metrics :=
      PDict [("metrics",
              PList (map (fun kv => PDict [("name", PStr (fst kv));
                                           ("numberValue", snd kv)])
                       (filter (fun kv => is_number (snd kv)) items)))] in
    write_file (KFPMETA_DIR E ++ "mlpipeline-metrics.json") metrics ;;;
    artifacts <-
      lift (py_get status (run_keys_output_artifacts E) (PList [])) ;;
    artifacts <- lift (py_iter artifacts) ;;
    let (files, output_artifacts) := get_kfp_outputs artifacts in
    emits (map (fun f => WriteFile ("/tmp/" ++ py_str (fst f)) (snd f))
             files) ;;;
    output_artifacts <- lift (from_builtin output_artifacts) ;;
    let text := ("# Run Report" ++ newline)%string in
    has_iterations <- lift (py_contains status "iterations") ;;
    report <-
      (if has_iterations then
         iter <- lift (py_getitem status "iterations") ;;
         first_rest <- lift (py_head_tail iter) ;;
         iter_html <-
           lift (from_builtin
                   (gen_md_table E (fst first_rest) (snd first_rest))) ;;
         let text := (text ++ "## Iterations" ++ newline ++ iter_html)%string in
         let struct :=
           match struct, status with
           | PDict d, PDict st =>
               PDict (dict_set "status" (PDict (dict_del "iterations" st)) d)
           | _, _ => struct
           end in
         ret (text, struct)
       else ret (text, struct)) ;;
    let (text, struct) := report : string * pyval in
    yaml <- lift (from_builtin (dict_to_yaml E struct)) ;;
    let text :=
      (text ++ "## Metadata" ++ newline ++ "```yaml" ++ newline ++ yaml
       ++ "```" ++ newline)%string in
    let metadata :=
      PDict [("outputs",
              PList (output_artifacts
                     ++ [PDict [("type", PStr "markdown");
                                ("storage", PStr "inline");
                                ("source", PStr text)]]))] in
    write_file (KFPMETA_DIR E ++ "mlpipeline-ui-metadata.json") metadata.

(** ['--{}'.format(k), str(v)] for every parameter, in the mapping's order. *)
Definition param_args (params : pydict) : list string :=
  flat_map (fun kv => [("--" ++ fst kv)%string; py_str (snd kv)]) params.

(** [run], from a task descriptor already converted to a RunObject
    (a copy: the caller's object is not touched).  The value returned is
    the payload the returned RunObject is built from, or [None]. *)
Definition run (runspec : RunObject) (handler_ name_ project_ params inputs_ : pyval)
  : M pyval :=
  rt <- get_self ;;
  let meta := metadata runspec in
  let meta :=
    mkRunMetadata (py_or name_ (name meta)) (uid meta)
      (py_or project_ (project meta)) (iteration meta)
      (labels meta) in
  let rspec := spec runspec in
  let handler_ :=
    if truthy handler_
       && negb ((kind rt =? "handler")%string || (kind rt =? "dask")%string)
    then PStr (py_str handler_) else handler_ in
  let rspec :=
    mkRunSpec (py_or params (parameters rspec))
      (py_or inputs_ (inputs rspec))
      (py_or handler_ (handler rspec))
      (selector_criteria rspec) (hyperparams rspec) (param_file rspec)
      (secret_sources rspec) in
  (if (spec_mode (rt_spec rt) =? "noctx")%string
      || (spec_mode (rt_spec rt) =? "args")%string
   then
     match py_or (parameters rspec) (PDict []) with
     | PDict params =>
         modify_self
           (fun rt =>
              set_spec_args rt (spec_args (rt_spec rt) ++ param_args params))
     | _ => raise AttributeError
     end
   else ret tt) ;;;
  (if truthy (secret_sources rspec) then
     modify_self (fun rt => set_secrets rt (secret_sources rspec))
   else ret tt) ;;;
  h <- get_trace ;;
  let meta :=
    mkRunMetadata (name meta)
      (py_or (uid meta) (PStr (uuid4_hex E h)))
      (project meta) (iteration meta) (labels meta) in
  emit (LogInfo ("starting run " ++ py_str (name meta)
                 ++ " uid=" ++ py_str (uid meta))) ;;;
  (if nonempty (spec_rundb (rt_spec rt)) then
     emit (DbConnect (spec_rundb (rt_spec rt))) ;;;
     modify_self (fun rt => set_db_conn rt true)
   else ret tt) ;;;
  let lbls := dict_set "kind" (PStr (kind rt)) (labels meta) in
  let lbls :=
    dict_set "owner"
      (match dict_get "owner" lbls with
       | Some o => o
       | None => PStr (getuser E)
       end) lbls in
  let (lbls, coded) := add_code_metadata lbls in
  lift coded ;;;
  let meta :=
    mkRunMetadata (name meta) (uid meta) (project meta)
      (iteration meta) lbls in
  let runspec := mkRunObject meta rspec (status runspec) in
  emit (NewContext (to_dict runspec)) ;;;
  let task_generator :=
    if truthy (hyperparams rspec)
    then Some (grid_generate E (hyperparams rspec))
    else if truthy (param_file rspec)
         then Some (list_generate E (param_file rspec))
         else None in
  result <-
    match task_generator with
    | Some generate =>
        results <- _run_many (generate runspec) ;;
        _results_to_iter results runspec ;;;
        h <- get_trace ;;
        let resp := execution_to_dict E runspec h in
        (if truthy resp && kfp rt then _write_kfpmeta resp else ret tt) ;;;
        show resp
    | None =>
        try_except_RunError
          (store_run runspec true ;;;
           resp <- lift (_run E runspec) ;;
           (if truthy resp && kfp rt then _write_kfpmeta resp else ret tt) ;;;
           resp <- _post_run resp (Some runspec) PNone ;;
           show resp)
          (fun err =>
             emit (LogError ("run error - " ++ py_str err)) ;;;
             resp <- _post_run PNone (Some runspec) err ;;
             show resp)
    end ;;
  if truthy result then
    emit (LogInfo ("run executed, status="
                   ++ py_str (state (status runspec)))) ;;;
    if eq_str (state (status runspec)) "error"
    then raise (RunError (py_str (error (status runspec))))
    else ret result
  else ret PNone.

End Methods.

(** ** The command line of a task *)

Section CmdArgs.

(** [runobj.to_json()], of mlrun.model: the serialized descriptor, or the
    exception of the serializer. *)
Context (to_json : RunObject -> result string).

(** [_get_cmd_args]: the command and its arguments.  The environment it
    prepares ([extra_env]) is not part of what it returns. *)
Definition _get_cmd_args (runobj : RunObject) (with_mlrun : bool)
  : M (string * list pyval) :=
  config <- lift (to_json runobj) ;;
  rt <- get_self ;;
  let extra_env : pydict := [("MLRUN_EXEC_CONFIG", PStr config)] in
  let extra_env :=
    if nonempty (spec_rundb (rt_spec rt))
    then dict_set "MLRUN_META_DBPATH" (PStr (spec_rundb (rt_spec rt)))
           extra_env
    else extra_env in
  let args : list pyval := [] in
  let command := spec_command (rt_spec rt) in
  let '(extra_env, command, args) :=
    if nonempty (bld_inline_code (rt_build rt)) then
      let extra_env :=
        dict_set "MLRUN_EXEC_CODE" (PStr (bld_inline_code (rt_build rt)))
          extra_env in
      if with_mlrun
      then (extra_env, "mlrun", [PStr "run"; PStr "--from-env"])
      else (extra_env, command, args)
    else if with_mlrun then
      let command := "mlrun" in
      (extra_env, command, [PStr "run"; PStr "--from-env"; PStr command])
    else (extra_env, command, args) in
  let args :=
    if truthy (handler (spec runobj))
    then args ++ [PStr "--handler"; handler (spec runobj)]
    else args in
  let args :=
    match spec_args (rt_spec rt) with
    | [] => args
    | _ :: _ => args ++ map PStr (spec_args (rt_spec rt))
    end in
  ret (command, args).

End CmdArgs.

(** ** Well-formed and terminal payloads *)

(** A payload whose [status] entry, if present, is a dictionary. *)
Definition wf_payload (v : pyval) : bool :=
  match v with
  | PDict d =>
      match dict_get "status" d with
      | None => true
      | Some (PDict _) => true
      | Some _ => false
      end
  | _ => false
  end.

(** [obj] holds [v] at the path [keys]. *)
Fixpoint has_path (obj : pyval) (keys : list string) (v : pyval) : Prop :=
  match keys with
  | [] => obj = v
  | k :: ks =>
      match obj with
      | PDict d =>
          match dict_get k d with
          | Some s => has_path s ks v
          | None => False
          end
      | _ => False
      end
  end.

(** A payload in a terminal state. *)
Definition terminal (r : pyval) : Prop :=
  has_path r ["status"; "state"] (PStr "completed")
  \/ has_path r ["status"; "state"] (PStr "error").

(** The store call of [_post_run] for the payload it returns. *)
Definition post_run_update (E : Env) (updates : pydict) (resp : pyval) : event :=
  let uid_ := get_in resp ["metadata"; "uid"] PNone in
  let iter := get_in resp ["metadata"; "iteration"] (PInt 0) in
  DbUpdateRun updates
    (if truthy iter then PStr (py_str E uid_ ++ "-" ++ py_str E iter)
     else uid_)
    (get_in resp ["metadata"; "project"] PNone).

(** The key [_post_run] addresses the store with.  It is read from the
    metadata of the payload it settles, not from the task. *)
Definition payload_key (E : Env) (resp : pyval) : pyval :=
  let uid_ := get_in resp ["metadata"; "uid"] PNone in
  let iter := get_in resp ["metadata"; "iteration"] (PInt 0) in
  if truthy iter then PStr (py_str E uid_ ++ "-" ++ py_str E iter) else uid_.

(** The payload names the uid, the project and the iteration of the
    task in its metadata, as the task's own [to_dict] does. *)
Definition carries_key (resp : pyval) (t : RunObject) : Prop :=
  get_in resp ["metadata"; "uid"] PNone = uid (metadata t)
  /\ get_in resp ["metadata"; "project"] PNone = project (metadata t)
  /\ get_in resp ["metadata"; "iteration"] (PInt 0)
     = if is_None (iteration (metadata t)) then PInt 0
       else iteration (metadata t).

(** The store key as the specification words it: the uid alone when the
    iteration is absent or 0, and uid, hyphen, iteration otherwise. *)
Definition composite_uid (E : Env) (uid_ : pyval) (iter : option Z) : pyval :=
  match iter with
  | None => uid_
  | Some i =>
      if i =? 0 then uid_
      else PStr (py_str E uid_ ++ "-" ++ string_of_Z i)
  end.

(** A computation leaves the attribute [f] of [self] as it found it,
    whether it returns or raises. *)
Definition keeps {A T} (f : RunRuntime -> T) (m : M A) : Prop :=
  forall w, f (self (snd (m w))) = f (self w).

(** How many times the builder was called in a record of calls. *)
Fixpoint builder_calls (tr : list event) : nat :=
  match tr with
  | [] => 0
  | BuildRuntime _ _ :: tr' => S (builder_calls tr')
  | _ :: tr' => builder_calls tr'
  end.

(** A sequence of [_build_image] invocations on the same runtime object,
    each with its arguments [(watch, with_mlrun, execution)]; an
    invocation that raises leaves the object as it was at the raise. *)
Fixpoint build_polls (E : Env) (calls : list (bool * bool * bool))
    (w : world) : world :=
  match calls with
  | [] => w
  | (watch, with_mlrun, execution) :: rest =>
      build_polls E rest (snd (_build_image E watch with_mlrun execution w))
  end.

(** ** The order the selector scans by *)

(** The value of the output field of a task, as the scan reads it. *)
Definition output_value (criteria : string) (task : pyval) : pyval :=
  get_in task ["status"; "outputs"; criteria] PNone.

(** [x] is strictly better than [y]: greater for max, less for min. *)
Definition improves_on (op : string) (x y : Q) : Prop :=
  if (op =? "max")%string then (y < x)%Q else (x < y)%Q.

(** The value the scan starts from. *)
Definition sentinel (op : string) : Q :=
  if (op =? "max")%string then float_info_min else float_info_max.

(** The string holds no dot. *)
Fixpoint no_dot (s : string) : bool :=
  match s with
  | EmptyString => true
  | String c s' => negb (Ascii.eqb c ".") && no_dot s'
  end.

(** ** Assumptions on the collaborators, and the batch summary *)

(** The backend returns a payload (or nothing), or raises RunError. *)
Definition backend_ok (E : Env) : Prop :=
  forall t,
    match _run E t with
    | Ok r => is_None r = true \/ wf_payload r = true
    | Raise (RunError _) => True
    | Raise _ => False
    end.

(** The store answers a read with a payload. *)
Definition store_ok (E : Env) : Prop :=
  forall h uid_ project_, wf_payload (read_run E h uid_ project_) = true.

(** The task makes the backend raise RunError. *)
Definition fails (E : Env) (t : RunObject) : bool :=
  match _run E t with
  | Raise (RunError _) => true
  | _ => false
  end.

(** The payload is in state error ([state == 'error']). *)
Definition in_error (r : pyval) : bool :=
  eq_str (get_in r ["status"; "state"] PNone) "error".

Definition count_error (results : list pyval) : nat :=
  List.length (filter in_error results).

(** What the batch records for a task: the payload [run_task] returns
    for it, terminal, and in state error with the error captured when
    the backend raised RunError. *)
Definition recorded (E : Env) (t : RunObject) (r : pyval) : Prop :=
  (exists wa wb, run_task E t wa = (Ok r, wb))
  /\ terminal r
  /\ (forall msg, _run E t = Raise (RunError msg) ->
      has_path r ["status"; "state"] (PStr "error")
      /\ has_path r ["status"; "error"] (PExc msg)).

(** The call that sets the state of the batch, for [failed] failed tasks. *)
Definition aggregate_state (failed : nat) : event :=
  if (0 <? failed)%nat then
    SetState PNone
      (PStr (string_of_Z (Z.of_nat failed)
             ++ " tasks failed, check logs for db for details"))
  else SetState (PStr "completed") PNone.

(** Whether a record of calls sets a state of the batch. *)
Definition sets_state (tr : list event) : bool :=
  existsb (fun e => match e with SetState _ _ => true | _ => false end) tr.

(** A computation returns, from every state, a value satisfying [Q]. *)
Definition returns {A} (m : M A) (Q : A -> Prop) : Prop :=
  forall w, exists a w', m w = (Ok a, w') /\ Q a.

(** A computation returns from every state, having appended calls [es]
    to the record, with [P] of the value and [es]. *)
Definition appends {A} (m : M A) (P : A -> list event -> Prop) : Prop :=
  forall w, exists a w' es,
    m w = (Ok a, w') /\ trace w' = trace w ++ es /\ P a es.

(** The calls [es] set no state of the batch and, when [must] is set,
    hold the log of an empty result list. *)
Definition empty_logged (must : bool) (es : list event) : Prop :=
  sets_state es = false
  /\ (must = true ->
      In (LogError "got an empty results list in to_iter") es).

(** ** What a computation may add to the record *)

(** From a state whose runtime satisfies [I], the computation leaves a
    runtime that satisfies [I] and adds to the record only calls that
    [P] accepts, whether it returns or raises. *)
Definition confined {A} (I : RunRuntime -> Prop) (P : event -> bool)
    (m : M A) : Prop :=
  forall w, I (self w) ->
    I (self (snd (m w)))
    /\ exists es, trace (snd (m w)) = trace w ++ es /\ forallb P es = true.

(** The result is a raised RunError. *)
Definition is_RunError {A} (r : result A) : bool :=
  match r with
  | Raise (RunError _) => true
  | _ => false
  end.

(** The computation does not raise RunError, from any state. *)
Definition no_RunError {A} (m : M A) : Prop :=
  forall w, is_RunError (fst (m w)) = false.

(** A call to the run store. *)
Definition store_call (e : event) : bool :=
  match e with
  | DbConnect _ | DbStoreRun _ _ _ _ | DbReadRun _ _ | DbUpdateRun _ _ _ =>
      true
  | _ => false
  end.

(** A call to the cluster or to the image builder. *)
Definition build_call (e : event) : bool :=
  match e with
  | GetPodStatus _ | BuildRuntime _ _ => true
  | _ => false
  end.

(** A call that records the outcome of a batch on the execution context. *)
Definition summary_call (e : event) : bool :=
  match e with
  | SetState _ _ | LogIterationResults _ _ _ | LogArtifact _ _ => true
  | _ => false
  end.

(** The runtime has no store: none connected and none configured. *)
Definition no_store (rt : RunRuntime) : Prop :=
  _db_conn rt = false /\ spec_rundb (rt_spec rt) = "".

(** The calls a run may make, for the runtime [rt] it starts from:
    logs and the creation of the execution context always; the store
    only when one is connected or configured; the pipeline metadata only
    for a runtime under a pipeline ([kfp]); the summary of a batch only
    when [batch] is set; the cluster and the builder never. *)
Definition may_call (rt : RunRuntime) (batch : bool) (e : event) : bool :=
  match e with
  | LogInfo _ | LogError _ | NewContext _ => true
  | DbConnect _ => nonempty (spec_rundb (rt_spec rt))
  | DbStoreRun _ _ _ _ | DbReadRun _ _ | DbUpdateRun _ _ _ =>
      _db_conn rt || nonempty (spec_rundb (rt_spec rt))
  | WriteFile _ _ => kfp rt
  | SetState _ _ | LogIterationResults _ _ _ | LogArtifact _ _ => batch
  | GetPodStatus _ | BuildRuntime _ _ => false
  end.

(** The runtime [rt] is as [rt0] in what decides those calls. *)
Definition same_services (rt0 rt : RunRuntime) : Prop :=
  kfp rt = kfp rt0
  /\ spec_rundb (rt_spec rt) = spec_rundb (rt_spec rt0)
  /\ (_db_conn rt = true ->
      _db_conn rt0 || nonempty (spec_rundb (rt_spec rt0)) = true).

(** ** The descriptor a run starts from *)

(** The creation of the execution context. *)
Definition context_call (e : event) : bool :=
  match e with
  | NewContext _ => true
  | _ => false
  end.

(** Whether it returns or raises, the computation creates the execution
    context once, from a descriptor that satisfies [Q]. *)
Definition creates_context {A} (m : M A) (Q : pyval -> Prop) : Prop :=
  forall w, exists pre struct post,
    trace (snd (m w)) = trace w ++ pre ++ NewContext struct :: post
    /\ forallb (fun e => negb (context_call e)) (pre ++ post) = true
    /\ Q struct.

(** ** What a pipeline output looks like *)

(** An entry of the output list: a web-app with a source, or a csv
    table with a header and a source that ends in .csv; the source is a
    string that does not start with the v3io scheme. *)
Definition kfp_entry (o : pyval) : Prop :=
  exists source,
    get_in o ["source"] PNone = PStr source
    /\ prefix "v3io:///" source = false
    /\ (get_in o ["type"] PNone = PStr "web-app"
        \/ (get_in o ["type"] PNone = PStr "table"
            /\ get_in o ["format"] PNone = PStr "csv"
            /\ truthy (get_in o ["header"] PNone) = true
            /\ endswith source ".csv" = true)).

(** The content [get_kfp_outputs] takes from an artifact: its inline
    body if it has one, else its target path, else the empty string. *)
Definition kfp_target (output : pydict) : pyval :=
  dict_get_default "inline" (dict_get_default "target_path" (PStr "") output)
    output.

(** ** What a run changes in the payload of the backend *)

(** The payload [r] is the payload [resp] but for its state, which is
    completed unless [resp] was in state error. *)
Definition settles (resp r : pyval) : Prop :=
  (forall k ks default, k <> "status" ->
     get_in r (k :: ks) default = get_in resp (k :: ks) default)
  /\ (forall k ks default, k <> "state" -> k <> "error" ->
        get_in r ("status" :: k :: ks) default
        = get_in resp ("status" :: k :: ks) default)
  /\ get_in r ["status"; "error"] PNone = get_in resp ["status"; "error"] PNone
  /\ has_path r ["status"; "state"]
       (if eq_str (get_in resp ["status"; "state"] (PStr "")) "error"
        then PStr "error" else PStr "completed").

(** ** How a computation ends *)

(** From every state, the way the computation ends (the value it
    returns or the exception it raises) satisfies [R]. *)
Definition ends {A} (m : M A) (R : result A -> Prop) : Prop :=
  forall w, R (fst (m w)).

(** Whatever the computation returns satisfies [Q]; it may raise. *)
Definition yields {A} (m : M A) (Q : A -> Prop) : Prop :=
  forall w a w', m w = (Ok a, w') -> Q a.

(** ** Git, as [add_code_metadata] sees it *)

(** What git raises and [add_code_metadata] does not catch, if anything:
    when the repository and its remotes are read, or when the head
    commit is read (which happens only if there is a remote). *)
Definition git_raised (E : Env) : option builtin_exn :=
  match git_remotes E with
  | GitRaises e => Some e
  | GitOk (_ :: _) =>
      match git_commit E with
      | GitRaises e => Some e
      | _ => None
      end
  | _ => None
  end.

(** Git raises nothing that [add_code_metadata] does not catch. *)
Definition git_quiet (E : Env) : Prop := git_raised E = None.

(** ** The task a run hands to the backend *)

(** [t] is the task [runspec] as a call of [run] on the runtime [rt]
    prepares it: with the name, the project, the parameters, the inputs
    and the handler of the call where they are given, with its uid if it
    has one and a generated one otherwise, with the labels kind, owner
    and those of the code stamped, and with its iteration, its selector,
    its sweep, its secrets and its status as they were. *)
Definition submitted (E : Env) (rt : RunRuntime) (runspec : RunObject)
    (handler_ name_ project_ params inputs_ : pyval) (t : RunObject) : Prop :=
  name (metadata t) = py_or name_ (name (metadata runspec))
  /\ project (metadata t) = py_or project_ (project (metadata runspec))
  /\ iteration (metadata t) = iteration (metadata runspec)
  /\ (exists h,
        uid (metadata t)
        = py_or (uid (metadata runspec)) (PStr (uuid4_hex E h)))
  /\ labels (metadata t)
     = (let lbls :=
          dict_set "kind" (PStr (kind rt)) (labels (metadata runspec)) in
        let lbls :=
          dict_set "owner"
            (match dict_get "owner" lbls with
             | Some o => o
             | None => PStr (getuser E)
             end) lbls in
        fst (add_code_metadata E lbls))
  /\ parameters (spec t) = py_or params (parameters (spec runspec))
  /\ inputs (spec t) = py_or inputs_ (inputs (spec runspec))
  /\ handler (spec t)
     = py_or (if truthy handler_
                 && negb ((kind rt =? "handler")%string
                          || (kind rt =? "dask")%string)
              then PStr (py_str E handler_) else handler_)
         (handler (spec runspec))
  /\ selector_criteria (spec t) = selector_criteria (spec runspec)
  /\ hyperparams (spec t) = hyperparams (spec runspec)
  /\ param_file (spec t) = param_file (spec runspec)
  /\ secret_sources (spec t) = secret_sources (spec runspec)
  /\ status t = status runspec.

(** ** A concrete environment for the examples *)

Definition demo_metadata (uid_ : string) (iter : pyval) : RunMetadata :=
  mkRunMetadata (PStr "train") (PStr uid_) (PStr "demo") iter [].

Definition demo_spec (params : pyval) : RunSpec :=
  mkRunSpec params PNone PNone PNone PNone PNone PNone.

Definition demo_task (uid_ : string) (iter : pyval) (params : pyval)
  : RunObject :=
  mkRunObject (demo_metadata uid_ iter) (demo_spec params)
    (mkRunStatus (PStr "created") PNone PNone).

(** A backend that fails the tasks whose parameter [x] is negative and
    reports [accuracy = x] for the others. *)
Definition demo_backend (t : RunObject) : result pyval :=
  match get_in (parameters (spec t)) ["x"] PNone with
  | PInt x =>
      if x <? 0 then Raise (RunError "negative x")
      else Ok (PDict [("metadata",
                       PDict [("uid", uid (metadata t));
                              ("project", project (metadata t));
                              ("iteration", iteration (metadata t))]);
                      ("status",
                       PDict [("state", PStr "running");
                              ("outputs", PDict [("accuracy", PInt x)])])])
  | _ => Ok PNone
  end.

(** A backend whose payload names the uid and the project of the task,
    but not its iteration. *)
Definition terse_backend (t : RunObject) : result pyval :=
  Ok (PDict [("metadata",
              PDict [("uid", uid (metadata t));
                     ("project", project (metadata t))]);
             ("status", PDict [("state", PStr "running")])]).

(** A backend that fails every task. *)
Definition failing_backend (t : RunObject) : result pyval :=
  Raise (RunError "boom").

Definition demo_env_with (backend : RunObject -> result pyval)
    (pod_status : string) (ready : bool) : Env :=
  mkEnv backend
    (fun _ uid_ project_ =>
       PDict [("metadata", PDict [("uid", uid_); ("project", project_)])])
    (fun _ => "2019-10-01 12:00:00")
    (fun _ _ => pod_status)
    (fun rt _ _ => (rt, ready))
    (fun _ _ => [])
    (fun _ _ => [])
    (fun t _ => to_dict t)
    (fun _ => (PNone, PNone))
    (fun _ => "0123abcd")
    "admin"
    GitCaught
    GitCaught
    "/"
    "output_artifacts"
    (fun _ _ => None)
    (fun _ _ => inr "")
    (fun _ => inr "")
    (fun _ => "float")
    (fun _ => "list")
    (fun _ => "dict").

Definition demo_env : Env := demo_env_with demo_backend "running" false.

Definition demo_runtime (mode rundb : string) (connected : bool) : RunRuntime :=
  mkRunRuntime "base" (mkFunctionSpec "train.py" [] "" mode rundb)
    (mkImageBuilder "" "" [] "" "" "" "") false connected PNone false.

Definition demo_world (mode rundb : string) (connected : bool) : world :=
  mkWorld (demo_runtime mode rundb connected) [].

(** Five sweep members, of which the second and the fourth fail. *)
Definition demo_tasks : list RunObject :=
  [demo_task "run1" (PInt 1) (PDict [("x", PInt 1)]);
   demo_task "run1" (PInt 2) (PDict [("x", PInt (-1))]);
   demo_task "run1" (PInt 3) (PDict [("x", PInt 2)]);
   demo_task "run1" (PInt 4) (PDict [("x", PInt (-2))]);
   demo_task "run1" (PInt 5) (PDict [("x", PInt 3)])].

(** A task with a sweep over [x]. *)
Definition sweep_task : RunObject :=
  mkRunObject (demo_metadata "run1" PNone)
    (mkRunSpec PNone PNone PNone (PStr "max.accuracy")
       (PDict [("x", PStr "[1, 2, 3]")]) PNone PNone)
    (mkRunStatus (PStr "created") PNone PNone).

(** A runtime in pass mode with an image and a build pod still to poll. *)
Definition polling_runtime : RunRuntime :=
  mkRunRuntime "base" (mkFunctionSpec "train.py" [] "python:3.6" "pass" "")
    (mkImageBuilder "" "" [] "" "build-pod-1" "" "") false false PNone false.

(** A runtime whose build, with commands, was dispatched to a pod. *)
Definition building_runtime : RunRuntime :=
  mkRunRuntime "base" (mkFunctionSpec "train.py" [] "" "" "")
    (mkImageBuilder "repo/train:latest" "python:3.6" ["pip install pandas"]
       "" "build-pod-1" "" "")
    false false PNone false.

(** A runtime in pass mode with only a base image. *)
Definition pass_runtime : RunRuntime :=
  mkRunRuntime "base" (mkFunctionSpec "train.py" [] "" "pass" "")
    (mkImageBuilder "" "python:3.6" [] "" "" "" "") false false PNone false.

(** * Properties *)

(** ** Dictionaries and paths *)

Lemma dict_get_set_eq k v d : dict_get k (dict_set k v d) = Some v.
Proof.
  induction d as [|[k' v'] d IH]; simpl.
  - now rewrite String.eqb_refl.
  - destruct (String.eqb k' k) eqn:Hk; simpl; rewrite Hk; auto.
Qed.

Lemma dict_get_set_ne k k' v d :
  k <> k' -> dict_get k' (dict_set k v d) = dict_get k' d.
Proof.
  intros Hne. induction d as [|[k0 v0] d IH]; simpl.
  - apply String.eqb_neq in Hne. now rewrite Hne.
  - destruct (String.eqb k0 k) eqn:Hk; simpl.
    + apply String.eqb_eq in Hk. subst k0.
      apply String.eqb_neq in Hne. now rewrite Hne.
    + destruct (String.eqb k0 k'); auto.
Qed.

Lemma dict_set_same k v d : dict_get k d = Some v -> dict_set k v d = d.
Proof.
  induction d as [|[k' v'] d IH]; simpl; [discriminate|].
  destruct (String.eqb k' k) eqn:Hk; intros H.
  - now inversion H.
  - now rewrite IH.
Qed.

Lemma dict_set_set k v v' d :
  dict_set k v (dict_set k v' d) = dict_set k v d.
Proof.
  induction d as [|[k0 v0] d IH]; simpl.
  - now rewrite String.eqb_refl.
  - destruct (String.eqb k0 k) eqn:Hk; simpl; rewrite Hk; [|rewrite IH]; auto.
Qed.

Lemma has_path_get_in obj keys v default :
  keys <> [] -> has_path obj keys v -> get_in obj keys default = v.
Proof.
  revert obj. induction keys as [|k ks IH]; intros obj Hne H; [congruence|].
  simpl in *. destruct obj; try contradiction.
  destruct (dict_get k d) as [s|]; [|contradiction].
  destruct ks as [|k2 ks].
  - simpl in *. auto.
  - apply IH; [discriminate|auto].
Qed.

Lemma update_in_cons2 d k k2 ks v :
  update_in (PDict d) (k :: k2 :: ks) v =
  rbind (update_in (match dict_get k d with
                    | Some s => s
                    | None => PDict []
                    end) (k2 :: ks) v)
        (fun sub' => Ok (PDict (dict_set k sub' d))).
Proof. reflexivity. Qed.

(** What [update_in] returns holds the value at the path. *)
Lemma update_in_has_path keys : forall obj v obj',
  keys <> [] -> update_in obj keys v = Ok obj' -> has_path obj' keys v.
Proof.
  induction keys as [|k ks IH]; intros obj v obj' Hne H; [congruence|].
  simpl in H. destruct obj; try discriminate.
  destruct ks as [|k2 ks].
  - inversion H; subst. simpl. now rewrite dict_get_set_eq.
  - destruct (update_in _ (k2 :: ks) v) as [sub'|] eqn:Hs; simpl in H;
      [|discriminate].
    inversion H; subst. cbn [has_path]. rewrite dict_get_set_eq.
    eapply IH; [discriminate|exact Hs].
Qed.

(** Writing a value that is already there changes nothing. *)
Lemma update_in_noop keys : forall obj v,
  keys <> [] -> has_path obj keys v -> update_in obj keys v = Ok obj.
Proof.
  induction keys as [|k ks IH]; intros obj v Hne H; [congruence|].
  cbn [has_path] in H. destruct obj; try contradiction.
  destruct (dict_get k d) as [s|] eqn:Hg; [|contradiction].
  destruct ks as [|k2 ks].
  - simpl in H. subst s. simpl. now rewrite dict_set_same.
  - rewrite update_in_cons2, Hg, IH; [|discriminate|auto].
    simpl. now rewrite dict_set_same.
Qed.

(** A write under the same dictionary but another last key keeps the
    value of the first. *)
Lemma update_in_sibling a b c obj v x obj' :
  b <> c -> has_path obj [a; b] v -> update_in obj [a; c] x = Ok obj' ->
  has_path obj' [a; b] v.
Proof.
  intros Hne H Hu. cbn [has_path] in H. destruct obj; try contradiction.
  destruct (dict_get a d) as [s|] eqn:Hg; [|contradiction].
  destruct s; try contradiction.
  cbn [update_in] in Hu. rewrite Hg in Hu. simpl in Hu.
  inversion Hu; subst. cbn [has_path]. rewrite dict_get_set_eq.
  rewrite dict_get_set_ne; auto.
Qed.

(** A write under one top-level key leaves the others as they were. *)
Lemma update_in_other_head k ks k' ks' obj v obj' default :
  k <> k' -> update_in obj (k :: ks) v = Ok obj' ->
  get_in obj' (k' :: ks') default = get_in obj (k' :: ks') default.
Proof.
  intros Hne Hu. simpl in Hu. destruct obj; try discriminate.
  destruct ks as [|k2 ks].
  - inversion Hu; subst. simpl. now rewrite dict_get_set_ne.
  - destruct (update_in _ (k2 :: ks) v) as [sub'|]; simpl in Hu;
      [|discriminate].
    inversion Hu; subst. simpl. now rewrite dict_get_set_ne.
Qed.

Lemma update_in_wf obj k2 v :
  wf_payload obj = true -> exists obj', update_in obj ["status"; k2] v = Ok obj'.
Proof.
  destruct obj; simpl; try discriminate.
  destruct (dict_get "status" d) as [s|]; simpl.
  - destruct s; try discriminate. intros _. eexists. reflexivity.
  - intros _. eexists. reflexivity.
Qed.

Lemma update_in_keeps_wf obj k2 v obj' :
  update_in obj ["status"; k2] v = Ok obj' -> wf_payload obj' = true.
Proof.
  intros H. apply update_in_has_path in H; [|discriminate].
  cbn [has_path] in H. destruct obj'; try contradiction. simpl.
  destruct (dict_get "status" d) as [s|]; [|contradiction].
  destruct s; try contradiction. reflexivity.
Qed.

(** ** Terminal-state normalization *)

Arguments update_in : simpl never.

Lemma has_path_state_get r v :
  has_path r ["status"; "state"] v ->
  get_in r ["status"; "state"] (PStr "") = v.
Proof. apply has_path_get_in. discriminate. Qed.

(** What [normalize] leaves: a terminal payload, in state [error] with
    the local error attached when one was given. *)
Lemma normalize_result resp err u u1 r1 :
  normalize resp err u = Ok (u1, r1) ->
  (truthy err = false /\ has_path r1 ["status"; "state"] (PStr "completed"))
  \/ (has_path r1 ["status"; "state"] (PStr "error")
      /\ (truthy err = true -> has_path r1 ["status"; "error"] err)).
Proof.
  unfold normalize.
  destruct (negb (eq_str (get_in resp ["status"; "state"] (PStr "")) "error")
            && negb (truthy err)) eqn:Hc.
  - destruct (update_in resp ["status"; "state"] (PStr "completed"))
      as [r|] eqn:Hu; cbn [rbind]; [|discriminate].
    intros H; inversion H; subst. left. split.
    + apply andb_prop in Hc. destruct Hc as [_ Hc].
      now apply negb_true_iff in Hc.
    + eapply update_in_has_path; [discriminate|exact Hu].
  - destruct (update_in resp ["status"; "state"] (PStr "error"))
      as [r|] eqn:Hu; cbn [rbind]; [|discriminate].
    apply update_in_has_path in Hu; [|discriminate].
    destruct (truthy err) eqn:Ht.
    + destruct (update_in r ["status"; "error"] err) as [r'|] eqn:Hu';
        cbn [rbind]; [|discriminate].
      intros H; inversion H; subst. right. split.
      * eapply update_in_sibling; [|exact Hu|exact Hu']. discriminate.
      * intros _. eapply update_in_has_path; [discriminate|exact Hu'].
    + cbn [rbind]. intros H; inversion H; subst. right.
      split; [auto|discriminate].
Qed.

(** Normalizing a terminal payload, with no local error, returns it. *)
Lemma normalize_terminal r u :
  terminal r -> exists u', normalize r PNone u = Ok (u', r).
Proof.
  intros [H|H]; unfold normalize; rewrite (has_path_state_get _ _ H); simpl.
  - rewrite update_in_noop; [|discriminate|auto]. simpl. eauto.
  - rewrite update_in_noop; [|discriminate|auto]. simpl. eauto.
Qed.

(** Normalizing again with the same local error returns the payload. *)
Lemma normalize_again resp err u u1 r1 u' :
  normalize resp err u = Ok (u1, r1) ->
  exists u2, normalize r1 err u' = Ok (u2, r1).
Proof.
  intros H. apply normalize_result in H. destruct H as [[Ht H]|[H He]].
  - unfold normalize. rewrite (has_path_state_get _ _ H), Ht. simpl.
    rewrite update_in_noop; [|discriminate|auto]. simpl. eauto.
  - unfold normalize. rewrite (has_path_state_get _ _ H). simpl.
    rewrite update_in_noop; [|discriminate|auto]. simpl.
    destruct (truthy err) eqn:Ht.
    + rewrite update_in_noop; [|discriminate|auto]. simpl. eauto.
    + simpl. eauto.
Qed.

Lemma normalize_terminal_result resp err u u1 r1 :
  normalize resp err u = Ok (u1, r1) -> terminal r1.
Proof.
  intros H. apply normalize_result in H. unfold terminal. tauto.
Qed.

Lemma terminal_is_dict r : terminal r -> is_dict r = true.
Proof.
  intros [H|H]; cbn [has_path] in H; destruct r; try contradiction; auto.
Qed.

Lemma terminal_wf r : terminal r -> wf_payload r = true.
Proof.
  intros [H|H]; cbn [has_path] in H; destruct r; try contradiction; simpl;
    (destruct (dict_get "status" d) as [s|]; [|contradiction]);
    destruct s; try contradiction; auto.
Qed.

Lemma normalize_wf resp err u :
  wf_payload resp = true -> exists u1 r1, normalize resp err u = Ok (u1, r1).
Proof.
  intros Hwf. unfold normalize.
  destruct (negb (eq_str (get_in resp ["status"; "state"] (PStr "")) "error")
            && negb (truthy err)).
  - destruct (update_in_wf resp "state" (PStr "completed") Hwf) as [r Hr].
    rewrite Hr. simpl. eauto.
  - destruct (update_in_wf resp "state" (PStr "error") Hwf) as [r Hr].
    rewrite Hr. simpl.
    destruct (truthy err); simpl; eauto.
    apply update_in_keeps_wf in Hr.
    destruct (update_in_wf r "error" err Hr) as [r' Hr'].
    rewrite Hr'. simpl. eauto.
Qed.

Section PostRun.

Context (E : Env).

(** [_post_run] on a payload that is given: the task is not consulted. *)
Lemma _post_run_given resp task err w :
  is_None resp = false ->
  _post_run E resp task err w =
  if is_dict resp then
    match normalize resp err [("status.last_update", PStr (now E (trace w)))]
    with
    | Ok (updates, r) =>
        (Ok r,
         if _db_conn (self w)
         then mkWorld (self w) (trace w ++ [post_run_update E updates r])
         else w)
    | Raise e => (Raise e, w)
    end
  else (Raise (ValueError ("post_run called with type " ++ type_name resp)), w).
Proof.
  intros Hn. unfold _post_run. rewrite Hn. unfold bind at 1. unfold ret at 1.
  rewrite Hn. destruct (is_dict resp); simpl; [|reflexivity].
  unfold bind, get_trace, lift, get_self. simpl.
  destruct (normalize resp err _) as [[u r]|e]; [|reflexivity].
  destruct (_db_conn (self w)); reflexivity.
Qed.

(** C2. Terminal-state normalization is idempotent: on every payload
    that is given to it, [_post_run] returns when the payload is a
    dictionary whose status (if any) is one, and whenever it returns a
    normalized payload, normalizing that payload again (with the same
    local error, or with none) returns the very same payload. *)
Theorem _post_run_idempotent resp task err w :
  is_None resp = false ->
  (wf_payload resp = true ->
   exists r1 w1, _post_run E resp task err w = (Ok r1, w1))
  /\ (forall r1 w1,
        _post_run E resp task err w = (Ok r1, w1) ->
        forall task' w2,
          fst (_post_run E r1 task' err w2) = Ok r1
          /\ fst (_post_run E r1 task' PNone w2) = Ok r1).
Proof.
  intros Hn. rewrite (_post_run_given _ _ _ _ Hn). split.
  - intros Hwf. assert (Hd : is_dict resp = true) by (destruct resp; auto).
    rewrite Hd.
    destruct (normalize_wf resp err
                [("status.last_update", PStr (now E (trace w)))] Hwf)
      as (u1 & r1 & Hr).
    rewrite Hr. eauto.
  - intros r1 w1 H task' w2.
    destruct (is_dict resp); [|discriminate].
    destruct (normalize resp err _) as [[u r]|e] eqn:Hr; [|discriminate].
    inversion H; subst r1. clear H.
    pose proof (normalize_terminal_result _ _ _ _ _ Hr) as Ht.
    pose proof (terminal_is_dict _ Ht) as Hd.
    assert (Hn1 : is_None r = false) by (destruct r; auto; discriminate).
    rewrite !(_post_run_given _ _ _ _ Hn1), Hd. split.
    + destruct (normalize_again _ _ _ _ _
                  [("status.last_update", PStr (now E (trace w2)))] Hr)
        as (u2 & Hsame).
      rewrite Hsame. reflexivity.
    + destruct (normalize_terminal r
                  [("status.last_update", PStr (now E (trace w2)))] Ht)
        as (u2 & Hnone).
      rewrite Hnone. reflexivity.
Qed.

End PostRun.

(** ** Selection *)

Lemma selector_scan_skipped op criteria rs : forall i b,
  Forall (fun t => candidate criteria t = false) rs ->
  selector_scan op criteria rs i b = Ok b.
Proof.
  induction rs as [|t rs IH]; intros i b H; [reflexivity|].
  inversion H; subst. cbn [selector_scan].
  match goal with Hc : candidate _ _ = false |- _ => rewrite Hc end.
  now apply IH.
Qed.

(** Without a criterion (None or the empty string) the selector selects
    nothing, whatever the tasks; and a criterion whose operator is
    neither max nor min is logged, once, and selects nothing either: the
    tasks are not scanned and nothing is raised. *)
Theorem selector_without_criterion rs :
  selector rs PNone = ([], Ok (0%nat, PInt 0))
  /\ selector rs (PStr "") = ([], Ok (0%nat, PInt 0))
  /\ (forall c op criteria,
        c <> "" -> split_criteria c = (op, criteria) ->
        op <> "max" -> op <> "min" ->
        selector rs (PStr c)
        = ([LogError ("unsupported selector " ++ op ++ "." ++ criteria)],
           Ok (0%nat, PInt 0))).
Proof.
  repeat split. intros c op criteria Hc Hsplit Hmax Hmin.
  unfold selector.
  assert (Htruthy : negb (truthy (PStr c)) = false).
  { simpl. apply String.eqb_neq in Hc. now rewrite Hc. }
  rewrite Htruthy, Hsplit.
  apply String.eqb_neq in Hmax. apply String.eqb_neq in Hmin.
  rewrite Hmax, Hmin. reflexivity.
Qed.

Lemma Qltb_lt x y : Qltb x y = true <-> (x < y)%Q.
Proof. unfold Qltb, Qlt. apply Z.ltb_lt. Qed.

Lemma Qltb_nlt x y : Qltb x y = false <-> ~ (x < y)%Q.
Proof.
  rewrite <- Qltb_lt. destruct (Qltb x y); split; congruence.
Qed.

Section Order.

Context (op : string) (Hop : op = "max" \/ op = "min").

Lemma improves_on_trans a b c :
  improves_on op a b -> improves_on op b c -> improves_on op a c.
Proof.
  unfold improves_on. destruct Hop; subst; simpl; intros H1 H2;
    eapply Qlt_trans; eauto.
Qed.

Lemma improves_on_asym a b : improves_on op a b -> ~ improves_on op b a.
Proof.
  unfold improves_on. destruct Hop; subst; simpl; intros H1 H2;
    apply (Qlt_irrefl a); eapply Qlt_trans; eauto.
Qed.

Lemma improves_on_irrefl a : ~ improves_on op a a.
Proof. intros H. exact (improves_on_asym a a H H). Qed.

(** What does not beat [c] is beaten by what beats [c]. *)
Lemma improves_on_past a b c :
  ~ improves_on op a c -> improves_on op b c -> improves_on op b a.
Proof.
  unfold improves_on. destruct Hop; subst; simpl; intros H1 H2.
  - apply Qnot_lt_le in H1. eapply Qle_lt_trans; eauto.
  - apply Qnot_lt_le in H1. eapply Qlt_le_trans; eauto.
Qed.

(** On ints and finite floats the comparison is that of their values. *)
Lemma py_lt_finite a b x y :
  num_of a = Some x -> num_of b = Some y -> py_lt a b = Ok (Qltb x y).
Proof.
  destruct a; try discriminate; destruct b; try discriminate;
    intros Ha Hb; inversion Ha; inversion Hb; subst; reflexivity.
Qed.

(** The test of the scan decides the order on finite numbers. *)
Lemma improves_numeric val best_val q v :
  num_of val = Some q -> num_of best_val = Some v ->
  exists better,
    improves op val best_val = Ok better
    /\ (better = true <-> improves_on op q v).
Proof.
  intros Hq Hv. unfold improves, improves_on, py_gt.
  rewrite (py_lt_finite _ _ _ _ Hv Hq), (py_lt_finite _ _ _ _ Hq Hv).
  destruct Hop; subst; simpl; eexists; split;
    try reflexivity; apply Qltb_lt.
Qed.

(** NaN improves on no finite number: every comparison with it is
    false. *)
Lemma improves_nan best_val v :
  num_of best_val = Some v -> improves op PNaN best_val = Ok false.
Proof.
  intros Hv. unfold improves, py_gt, py_lt.
  destruct best_val; try discriminate; destruct Hop; subst; reflexivity.
Qed.

(** A task that the scan passes over: what held of the rest holds of
    the list. *)
Ltac scan_passes IH i b0 v0 Hv0 Hnum' :=
  let b := fresh "b" in
  let Hscan := fresh "Hscan" in
  let Hres := fresh "Hres" in
  destruct (IH (S i) b0 v0 Hv0 Hnum') as (b & Hscan & Hres);
  exists b; split; [exact Hscan|];
  destruct Hres as [[Hbb Hnone]|(k & t1 & q1 & Hk & Hc1 & Hq1 & Hbb
                                  & Hq1v & Hopt & Hearly)];
  [ left; split; [exact Hbb|];
    intros t' q' [<-|Hin] Hc' Hq'; [congruence|eapply Hnone; eauto]
  | right; exists (S k), t1, q1; rewrite Nat.add_succ_r;
    repeat split; auto;
    [ intros t' q' [<-|Hin] Hc' Hq'; [congruence|eapply Hopt; eauto]
    | intros j t' q' Hj Hnth Hc' Hq'; destruct j as [|j];
      [ simpl in Hnth; inversion Hnth; subst; congruence
      | simpl in Hnth; eapply Hearly; eauto; lia ] ] ].

(** The scan over candidates whose values are finite numbers or NaN: it
    returns; either nothing beat the value it started from and the
    running best is untouched, or the running best is the earliest task
    whose value no candidate beats.  A candidate whose value is NaN is
    passed over. *)
Lemma selector_scan_elects criteria rs : forall i b0 v0,
  num_of (best_val b0) = Some v0 ->
  (forall t, In t rs -> candidate criteria t = true ->
             (exists q, num_of (output_value criteria t) = Some q)
             \/ output_value criteria t = PNaN) ->
  exists b,
    selector_scan op criteria rs i b0 = Ok b
    /\ ((b = b0
         /\ forall t q, In t rs -> candidate criteria t = true ->
                        num_of (output_value criteria t) = Some q ->
                        ~ improves_on op q v0)
        \/ exists k t q,
             nth_error rs k = Some t
             /\ candidate criteria t = true
             /\ num_of (output_value criteria t) = Some q
             /\ b = mkBest (get_in t ["metadata"; "iteration"] PNone)
                      (i + k) (output_value criteria t)
             /\ improves_on op q v0
             /\ (forall t' q', In t' rs -> candidate criteria t' = true ->
                               num_of (output_value criteria t') = Some q' ->
                               ~ improves_on op q' q)
             /\ (forall j t' q', (j < k)%nat -> nth_error rs j = Some t' ->
                                 candidate criteria t' = true ->
                                 num_of (output_value criteria t') = Some q' ->
                                 improves_on op q q')).
Proof.
  induction rs as [|t rs IH]; intros i b0 v0 Hv0 Hnum.
  - exists b0. split; [reflexivity|]. left. split; [reflexivity|].
    intros t q [].
  - cbn [selector_scan]. cbv zeta.
    assert (Hnum' : forall t', In t' rs -> candidate criteria t' = true ->
                      (exists q, num_of (output_value criteria t') = Some q)
                      \/ output_value criteria t' = PNaN)
      by (intros t' Hin; apply Hnum; right; exact Hin).
    destruct (candidate criteria t) eqn:Hc.
    + destruct (Hnum t (or_introl eq_refl) Hc) as [(q & Hq)|Hnan];
        [|(* the value is NaN: the task is passed over *)
          assert (Hq0 : num_of (output_value criteria t) = None)
            by (rewrite Hnan; reflexivity);
          assert (Hi : improves op (output_value criteria t) (best_val b0)
                       = Ok false)
            by (rewrite Hnan; apply improves_nan with (v := v0); exact Hv0);
          fold (output_value criteria t); rewrite Hi; cbn [rbind];
          scan_passes IH i b0 v0 Hv0 Hnum'].
      destruct (improves_numeric _ _ q v0 Hq Hv0) as (better & Hi & Hb).
      fold (output_value criteria t). rewrite Hi. cbn [rbind].
      destruct better.
      * (* the task improves on the running best *)
        assert (Hqv : improves_on op q v0) by (apply Hb; reflexivity).
        destruct (IH (S i)
                    (mkBest (get_in t ["metadata"; "iteration"] PNone) i
                       (output_value criteria t)) q Hq Hnum')
          as (b & Hscan & Hres).
        exists b. split; [exact Hscan|]. right.
        destruct Hres as [[Hbb Hnone]|(k & t1 & q1 & Hk & Hc1 & Hq1 & Hbb
                                        & Hq1q & Hopt & Hearly)].
        -- exists 0%nat, t, q. rewrite Nat.add_0_r.
           repeat split; auto.
           ++ intros t' q' [<-|Hin] Hc' Hq'.
              ** rewrite Hq in Hq'. inversion Hq'; subst.
                 apply improves_on_irrefl.
              ** eapply Hnone; eauto.
           ++ intros j t' q' Hj. inversion Hj.
        -- exists (S k), t1, q1. rewrite Nat.add_succ_r.
           repeat split; auto.
           ++ eapply improves_on_trans; eauto.
           ++ intros t' q' [<-|Hin] Hc' Hq'.
              ** rewrite Hq in Hq'. inversion Hq'; subst.
                 apply improves_on_asym. exact Hq1q.
              ** eapply Hopt; eauto.
           ++ intros j t' q' Hj Hnth Hc' Hq'. destruct j as [|j].
              ** simpl in Hnth. inversion Hnth; subst.
                 rewrite Hq in Hq'. inversion Hq'; subst. exact Hq1q.
              ** simpl in Hnth. eapply Hearly; eauto. lia.
      * (* the task does not improve on the running best *)
        assert (Hqv : ~ improves_on op q v0)
          by (intros H; apply Hb in H; discriminate).
        destruct (IH (S i) b0 v0 Hv0 Hnum') as (b & Hscan & Hres).
        exists b. split; [exact Hscan|].
        destruct Hres as [[Hbb Hnone]|(k & t1 & q1 & Hk & Hc1 & Hq1 & Hbb
                                        & Hq1v & Hopt & Hearly)].
        -- left. split; [exact Hbb|].
           intros t' q' [<-|Hin] Hc' Hq'.
           ++ rewrite Hq in Hq'. inversion Hq'; subst. exact Hqv.
           ++ eapply Hnone; eauto.
        -- right. exists (S k), t1, q1. rewrite Nat.add_succ_r.
           repeat split; auto.
           ++ intros t' q' [<-|Hin] Hc' Hq'.
              ** rewrite Hq in Hq'. inversion Hq'; subst.
                 apply improves_on_asym.
                 eapply improves_on_past; eauto.
              ** eapply Hopt; eauto.
           ++ intros j t' q' Hj Hnth Hc' Hq'. destruct j as [|j].
              ** simpl in Hnth. inversion Hnth; subst.
                 rewrite Hq in Hq'. inversion Hq'; subst.
                 eapply improves_on_past; eauto.
              ** simpl in Hnth. eapply Hearly; eauto. lia.
    + (* the task is skipped *)
      destruct (IH (S i) b0 v0 Hv0 Hnum') as (b & Hscan & Hres).
      exists b. split; [exact Hscan|].
      destruct Hres as [[Hbb Hnone]|(k & t1 & q1 & Hk & Hc1 & Hq1 & Hbb
                                      & Hq1v & Hopt & Hearly)].
      * left. split; [exact Hbb|].
        intros t' q' [<-|Hin] Hc' Hq'; [congruence|eapply Hnone; eauto].
      * right. exists (S k), t1, q1. rewrite Nat.add_succ_r.
        repeat split; auto.
        -- intros t' q' [<-|Hin] Hc' Hq'; [congruence|eapply Hopt; eauto].
        -- intros j t' q' Hj Hnth Hc' Hq'. destruct j as [|j].
           ++ simpl in Hnth. inversion Hnth; subst. congruence.
           ++ simpl in Hnth. eapply Hearly; eauto. lia.
Qed.

End Order.

(** The selector on outputs that are ints, finite floats or NaN, for a
    criterion max.f, min.f or f: it returns without raising and logs
    nothing.  A candidate whose value is NaN is never elected and takes
    no part in the order (every comparison with NaN is false).  When
    some candidate with a finite value beats the value the scan starts
    from (sys.float_info.min for max, sys.float_info.max for min), the
    selector elects the earliest task whose value no finite candidate
    beats: every earlier candidate with a finite value is strictly
    worse.  Otherwise it answers (0, 0). *)
Theorem selector_elects_earliest_optimum rs c op criteria :
  c <> "" -> split_criteria c = (op, criteria) ->
  op = "max" \/ op = "min" ->
  (forall t, In t rs -> candidate criteria t = true ->
             (exists q, num_of (output_value criteria t) = Some q)
             \/ output_value criteria t = PNaN) ->
  (selector rs (PStr c) = ([], Ok (0%nat, PInt 0))
   /\ forall t q, In t rs -> candidate criteria t = true ->
                  num_of (output_value criteria t) = Some q ->
                  ~ improves_on op q (sentinel op))
  \/ exists k t q,
       selector rs (PStr c)
       = ([], Ok (k, get_in t ["metadata"; "iteration"] PNone))
       /\ nth_error rs k = Some t
       /\ candidate criteria t = true
       /\ num_of (output_value criteria t) = Some q
       /\ improves_on op q (sentinel op)
       /\ (forall t' q', In t' rs -> candidate criteria t' = true ->
                         num_of (output_value criteria t') = Some q' ->
                         ~ improves_on op q' q)
       /\ (forall j t' q', (j < k)%nat -> nth_error rs j = Some t' ->
                           candidate criteria t' = true ->
                           num_of (output_value criteria t') = Some q' ->
                           improves_on op q q').
Proof.
  intros Hc Hsplit Hop Hnum.
  assert (Htruthy : negb (truthy (PStr c)) = false).
  { simpl. apply String.eqb_neq in Hc. now rewrite Hc. }
  assert (Hsel : forall b,
    selector_scan op criteria rs 0
      (mkBest (PInt 0) 0 (PFloat (sentinel op))) = Ok b ->
    selector rs (PStr c) = ([], Ok (best_item b, best_id b))).
  { intros b Hb. unfold selector. rewrite Htruthy, Hsplit.
    unfold sentinel in Hb.
    destruct Hop; subst op; simpl in *; rewrite Hb; reflexivity. }
  destruct (selector_scan_elects op Hop criteria rs 0
              (mkBest (PInt 0) 0 (PFloat (sentinel op))) (sentinel op)
              eq_refl Hnum) as (b & Hscan & Hres).
  specialize (Hsel b Hscan).
  destruct Hres as [[Hbb Hnone]|(k & t & q & Hk & Hct & Hq & Hbb & Hqs
                                  & Hopt & Hearly)].
  - left. subst b. split; [exact Hsel|exact Hnone].
  - right. exists k, t, q. subst b. simpl in Hsel. repeat split; auto.
Qed.

(** The example of the specification: accuracy 0.7, 0.9, 0.9 and an
    errored task elect iteration 2, the earliest maximum. *)
Example selector_spec_example :
  selector
    [task_payload 1 "completed" [("accuracy", PFloat (7 # 10))];
     task_payload 2 "completed" [("accuracy", PFloat (9 # 10))];
     task_payload 3 "completed" [("accuracy", PFloat (9 # 10))];
     task_payload 4 "error" []]
    (PStr "max.accuracy")
  = ([], Ok (1%nat, PInt 2)).
Proof. vm_compute. reflexivity. Qed.

(** A value that is NaN is passed over: over accuracies nan and 0.5 the
    maximum is the second task, although 0.5 > nan is false. *)
Example selector_nan_example :
  selector
    [task_payload 1 "completed" [("accuracy", PNaN)];
     task_payload 2 "completed" [("accuracy", PFloat (1 # 2))]]
    (PStr "max.accuracy")
  = ([], Ok (1%nat, PInt 2)).
Proof. vm_compute. reflexivity. Qed.

Example split_criteria_examples :
  split_criteria "min.loss" = ("min", "loss")
  /\ split_criteria "accuracy" = ("max", "accuracy")
  /\ split_criteria "min.loss.x" = ("min", "loss.x").
Proof. vm_compute. auto. Qed.

(** C1. The selector at values that do not exceed sys.float_info.min:
    with criterion max.loss over losses -3 and -1 (both tasks completed)
    the scan starts from the smallest positive float, no task improves
    on it, and the selector answers (0, 0) instead of electing
    iteration 2, the maximum. *)
Theorem selector_max_negative_elects_nothing :
  selector
    [task_payload 1 "completed" [("loss", PInt (-3))];
     task_payload 2 "completed" [("loss", PInt (-1))]]
    (PStr "max.loss")
  = ([], Ok (0%nat, PInt 0)).
Proof. vm_compute. reflexivity. Qed.

(** With every task skipped the answer is the pair (0, 0), the one an
    absent criterion gives. *)
Lemma selector_no_winner_is_no_selection :
  selector [task_payload 1 "error" []; task_payload 2 "completed" []]
    (PStr "max.accuracy")
  = selector [task_payload 1 "error" []; task_payload 2 "completed" []] PNone.
Proof. vm_compute. reflexivity. Qed.

(** C4. When a criterion is supplied and every task is skipped (in
    state error, or without the output field), the selector returns
    (0, 0): the same pair it returns when no criterion is supplied. *)
Theorem selector_all_skipped rs c :
  Forall (fun t => candidate (snd (split_criteria c)) t = false) rs ->
  snd (selector rs (PStr c)) = Ok (0%nat, PInt 0)
  /\ snd (selector rs (PStr c)) = snd (selector rs PNone).
Proof.
  intros H.
  assert (Hs : snd (selector rs (PStr c)) = Ok (0%nat, PInt 0)).
  { unfold selector. destruct (negb (truthy (PStr c))); [reflexivity|].
    destruct (split_criteria c) as [op f]. simpl in H.
    destruct (String.eqb op "max").
    - simpl. now rewrite selector_scan_skipped.
    - destruct (String.eqb op "min"); [|reflexivity].
      simpl. now rewrite selector_scan_skipped. }
  split; [exact Hs|]. rewrite Hs. reflexivity.
Qed.

(** ** Store keys *)

Lemma dict_get_struct k fields :
  NoDup (map fst fields) ->
  dict_get k (filter (fun kv => negb (is_None (snd kv))) fields) =
  match dict_get k fields with
  | Some v => if is_None v then None else Some v
  | None => None
  end.
Proof.
  induction fields as [|[k' v'] fields IH]; intros Hnd; [reflexivity|].
  inversion Hnd as [|? ? Hnotin Hnd']; subst. simpl.
  destruct (is_None v') eqn:Hv; simpl.
  - rewrite (IH Hnd'). destruct (String.eqb k' k) eqn:Hk; [|reflexivity].
    rewrite Hv. apply String.eqb_eq in Hk. subst k'.
    assert (Hnone : dict_get k fields = None).
    { clear -Hnotin. induction fields as [|[k0 v0] fields IH]; [reflexivity|].
      simpl in *. destruct (String.eqb k0 k) eqn:Hk.
      - apply String.eqb_eq in Hk. subst. tauto.
      - apply IH. tauto. }
    now rewrite Hnone.
  - destruct (String.eqb k' k); [now rewrite Hv|]. apply (IH Hnd').
Qed.

Lemma get_in_struct_dict k fields default :
  NoDup (map fst fields) ->
  get_in (struct_dict fields) [k] default =
  match dict_get k fields with
  | Some v => if is_None v then default else v
  | None => default
  end.
Proof.
  intros Hnd. unfold struct_dict. cbn [get_in].
  rewrite (dict_get_struct k fields Hnd).
  destruct (dict_get k fields) as [v|]; [|reflexivity].
  destruct (is_None v); reflexivity.
Qed.

Ltac nodup_keys :=
  repeat (constructor; [simpl; intuition discriminate|]); constructor.

Lemma to_dict_uid t :
  get_in (to_dict t) ["metadata"; "uid"] PNone = uid (metadata t).
Proof.
  unfold to_dict.
  change (get_in (PDict ?d) ["metadata"; "uid"] PNone)
    with (get_in (struct_dict
                    [("name", name (metadata t)); ("uid", uid (metadata t));
                     ("project", project (metadata t));
                     ("iteration", iteration (metadata t));
                     ("labels", PDict (labels (metadata t)))])
            ["uid"] PNone).
  rewrite get_in_struct_dict by nodup_keys. simpl.
  destruct (uid (metadata t)); reflexivity.
Qed.

Lemma to_dict_project t :
  get_in (to_dict t) ["metadata"; "project"] PNone = project (metadata t).
Proof.
  unfold to_dict.
  change (get_in (PDict ?d) ["metadata"; "project"] PNone)
    with (get_in (struct_dict
                    [("name", name (metadata t)); ("uid", uid (metadata t));
                     ("project", project (metadata t));
                     ("iteration", iteration (metadata t));
                     ("labels", PDict (labels (metadata t)))])
            ["project"] PNone).
  rewrite get_in_struct_dict by nodup_keys. simpl.
  destruct (project (metadata t)); reflexivity.
Qed.

Lemma to_dict_iteration t :
  get_in (to_dict t) ["metadata"; "iteration"] (PInt 0) =
  if is_None (iteration (metadata t)) then PInt 0 else iteration (metadata t).
Proof.
  unfold to_dict.
  change (get_in (PDict ?d) ["metadata"; "iteration"] (PInt 0))
    with (get_in (struct_dict
                    [("name", name (metadata t)); ("uid", uid (metadata t));
                     ("project", project (metadata t));
                     ("iteration", iteration (metadata t));
                     ("labels", PDict (labels (metadata t)))])
            ["iteration"] (PInt 0)).
  rewrite get_in_struct_dict by nodup_keys. reflexivity.
Qed.

Lemma to_dict_wf t : wf_payload (to_dict t) = true.
Proof. reflexivity. Qed.

(** Normalization does not touch the metadata. *)
Lemma normalize_keeps_metadata resp err u u1 r1 ks default :
  normalize resp err u = Ok (u1, r1) ->
  get_in r1 ("metadata" :: ks) default = get_in resp ("metadata" :: ks) default.
Proof.
  unfold normalize.
  destruct (negb (eq_str (get_in resp ["status"; "state"] (PStr "")) "error")
            && negb (truthy err)).
  - destruct (update_in resp ["status"; "state"] (PStr "completed"))
      as [r|] eqn:Hu; cbn [rbind]; [|discriminate].
    intros H; inversion H; subst.
    eapply update_in_other_head; [|exact Hu]. discriminate.
  - destruct (update_in resp ["status"; "state"] (PStr "error"))
      as [r|] eqn:Hu; cbn [rbind]; [|discriminate].
    destruct (truthy err).
    + destruct (update_in r ["status"; "error"] err) as [r'|] eqn:Hu';
        cbn [rbind]; [|discriminate].
      intros H; inversion H; subst.
      transitivity (get_in r ("metadata" :: ks) default).
      * eapply update_in_other_head; [|exact Hu']. discriminate.
      * eapply update_in_other_head; [|exact Hu]. discriminate.
    + cbn [rbind]. intros H; inversion H; subst.
      eapply update_in_other_head; [|exact Hu]. discriminate.
Qed.

Section Keys.

Context (E : Env).

(** The key the three methods compute, against the wording of the
    specification. *)
Lemma key_by_iteration (uid_ : pyval) (iter : option Z) :
  let it := match iter with Some i => PInt i | None => PNone end in
  (if truthy it then PStr (py_str E uid_ ++ "-" ++ py_str E it) else uid_)
  = composite_uid E uid_ iter.
Proof.
  destruct iter as [i|]; simpl; [|reflexivity].
  destruct (i =? 0); reflexivity.
Qed.

(** C9. With a store connected, [store_run] and [_get_db_run] address a
    task by the key of its own metadata: (uid, project) when its
    iteration is absent or 0, and (uid-iteration, project) otherwise.
    [_post_run] addresses the update by the same rule, but applied to
    the metadata of the payload it settles.  The update therefore goes
    to the key of the task when the payload names the uid, the project
    and the iteration of the task, as the task's own [to_dict] does;
    nothing in [_post_run] makes it so for another payload. *)
Theorem run_key_consistent (t : RunObject) (iter : option Z) (commit : bool)
    (resp err : pyval) (w : world) :
  _db_conn (self w) = true ->
  iteration (metadata t) = match iter with Some i => PInt i | None => PNone end ->
  wf_payload resp = true ->
  let key := composite_uid E (uid (metadata t)) iter in
  let prj := project (metadata t) in
  store_run E t commit w
  = (Ok tt, mkWorld (self w)
              (trace w ++ [DbStoreRun (to_dict t) key prj commit]))
  /\ _get_db_run E (Some t) w
     = (Ok (read_run E (trace w) key prj),
        mkWorld (self w) (trace w ++ [DbReadRun key prj]))
  /\ (exists updates r,
        _post_run E resp (Some t) err w
        = (Ok r,
           mkWorld (self w)
             (trace w ++ [DbUpdateRun updates (payload_key E resp)
                            (get_in resp ["metadata"; "project"] PNone)])))
  /\ (carries_key resp t ->
      payload_key E resp = key
      /\ get_in resp ["metadata"; "project"] PNone = prj)
  /\ carries_key (to_dict t) t.
Proof.
  intros Hc Hi Hwf key prj. subst key prj.
  rewrite <- (key_by_iteration (uid (metadata t)) iter). cbv zeta.
  rewrite <- Hi. split; [|split; [|split; [|split]]].
  - unfold store_run, bind, get_self, emit. simpl. rewrite Hc. reflexivity.
  - unfold _get_db_run, bind, get_self, get_trace, emit, ret. simpl.
    rewrite Hc. reflexivity.
  - assert (Hd : is_dict resp = true) by (destruct resp; auto; discriminate).
    rewrite _post_run_given by (destruct resp; auto; discriminate).
    rewrite Hd.
    destruct (normalize_wf resp err
                [("status.last_update", PStr (now E (trace w)))] Hwf)
      as (u1 & r1 & Hr).
    rewrite Hr, Hc. exists u1, r1. f_equal. f_equal. f_equal.
    unfold post_run_update, payload_key.
    rewrite !(normalize_keeps_metadata _ _ _ _ _ _ _ Hr). reflexivity.
  - intros (Hu & Hp & Hit). unfold payload_key. rewrite Hu, Hp, Hit, Hi.
    split; [|reflexivity]. destruct iter as [i|]; reflexivity.
  - repeat split;
      [apply to_dict_uid|apply to_dict_project|apply to_dict_iteration].
Qed.

End Keys.

(** ** What the methods leave untouched on [self] *)

Section Frame.

Context {T : Type} (f : RunRuntime -> T).

Lemma keeps_ret {A} (a : A) : keeps f (ret a).
Proof. intros w. reflexivity. Qed.

Lemma keeps_raise {A} e : keeps f (@raise A e).
Proof. intros w. reflexivity. Qed.

Lemma keeps_lift {A} (r : result A) : keeps f (lift r).
Proof. intros w. reflexivity. Qed.

Lemma keeps_emit e : keeps f (emit e).
Proof. intros w. reflexivity. Qed.

Lemma keeps_emits es : keeps f (emits es).
Proof. intros w. reflexivity. Qed.

Lemma keeps_get_self : keeps f get_self.
Proof. intros w. reflexivity. Qed.

Lemma keeps_get_trace : keeps f get_trace.
Proof. intros w. reflexivity. Qed.

Lemma keeps_modify_self g :
  (forall rt, f (g rt) = f rt) -> keeps f (modify_self g).
Proof. intros H w. apply H. Qed.

Lemma keeps_bind {A B} (m : M A) (k : A -> M B) :
  keeps f m -> (forall a, keeps f (k a)) -> keeps f (bind m k).
Proof.
  intros Hm Hk w. unfold bind. specialize (Hm w).
  destruct (m w) as [[a|e] w']; simpl in *.
  - now rewrite Hk.
  - exact Hm.
Qed.

Lemma keeps_try {A} (body : M A) handler :
  keeps f body -> (forall err, keeps f (handler err)) ->
  keeps f (try_except_RunError body handler).
Proof.
  intros Hb Hh w. unfold try_except_RunError. specialize (Hb w).
  destruct (body w) as [[a|e] w']; simpl in *; [exact Hb|].
  destruct e; simpl; try exact Hb. now rewrite Hh.
Qed.

(** After a first step, a continuation that keeps [f] leaves it as the
    first step left it. *)
Lemma bind_then_keeps {A B} (m : M A) (k : A -> M B) w :
  (forall a, keeps f (k a)) ->
  f (self (snd (bind m k w))) = f (self (snd (m w))).
Proof.
  intros Hk. unfold bind.
  destruct (m w) as [[a|e] w']; simpl; [apply Hk|reflexivity].
Qed.

End Frame.

Ltac keeps_step :=
  first
    [ apply keeps_ret | apply keeps_raise | apply keeps_lift
    | apply keeps_emit | apply keeps_emits | apply keeps_get_self
    | apply keeps_get_trace
    | apply keeps_modify_self; intros; reflexivity
    | apply keeps_bind; [|intro]
    | apply keeps_try; [|intro]
    | match goal with
      | |- keeps _ (if ?b then _ else _) => destruct b
      | |- keeps _ (match ?x with _ => _ end) => destruct x
      end ].

Ltac keeps_tac := intros; cbv zeta; repeat keeps_step.

Section FrameMethods.

Context (E : Env) {T : Type} (f : RunRuntime -> T).

Lemma keeps_store_run t c : keeps f (store_run E t c).
Proof. unfold store_run. keeps_tac. Qed.

Lemma keeps__get_db_run t : keeps f (_get_db_run E t).
Proof. unfold _get_db_run. keeps_tac. Qed.

Lemma keeps__post_run resp t err : keeps f (_post_run E resp t err).
Proof.
  unfold _post_run. keeps_tac; try apply keeps__get_db_run; keeps_tac.
Qed.

Lemma keeps_run_task t : keeps f (run_task E t).
Proof.
  unfold run_task. keeps_tac;
    first [apply keeps_store_run | apply keeps__post_run].
Qed.

Lemma keeps__run_many_loop tasks : forall results,
  keeps f (_run_many_loop E tasks results).
Proof.
  induction tasks as [|t tasks IH]; intros results; cbn [_run_many_loop].
  - apply keeps_ret.
  - apply keeps_bind; [apply keeps_run_task|]. intro. apply IH.
Qed.

Lemma keeps__run_many tasks : keeps f (_run_many E tasks).
Proof. apply keeps__run_many_loop. Qed.

Lemma keeps_results_loop runspec todo : forall iter failed done,
  keeps f (results_loop E runspec todo iter failed done).
Proof.
  induction todo as [|t todo IH]; intros iter failed done;
    cbn [results_loop].
  - apply keeps_ret.
  - cbv zeta. apply keeps_bind; [keeps_tac|]. intro.
    apply keeps_bind; [apply keeps__post_run|]. intro. apply IH.
Qed.

Lemma keeps__results_to_iter results runspec :
  keeps f (_results_to_iter E results runspec).
Proof.
  unfold _results_to_iter. destruct results as [|r results].
  - apply keeps_emit.
  - apply keeps_bind; [apply keeps_results_loop|].
    intros [[iter failed] done]. keeps_tac.
Qed.

Lemma keeps_show resp : keeps f (show resp).
Proof. unfold show. keeps_tac. Qed.

Lemma keeps__write_kfpmeta struct : keeps f (_write_kfpmeta E struct).
Proof. unfold _write_kfpmeta, write_file. keeps_tac. Qed.

End FrameMethods.

(** ** run and the runtime's argument list *)

Ltac keeps_assign :=
  apply keeps_modify_self; intros; cbv beta; first [reflexivity | solve [auto]].

Ltac keeps_batch :=
  apply keeps_bind; [apply keeps__run_many|]; intros ?;
  apply keeps_bind; [apply keeps__results_to_iter|]; intros _;
  apply keeps_bind; [apply keeps_get_trace|]; intros ?;
  apply keeps_bind; [|intros; apply keeps_show];
  destruct (_ && _); [apply keeps__write_kfpmeta|apply keeps_ret].

Ltac keeps_single :=
  apply keeps_try;
  [ apply keeps_bind; [apply keeps_store_run|]; intros _;
    apply keeps_bind; [apply keeps_lift|]; intros ?;
    apply keeps_bind;
    [destruct (_ && _); [apply keeps__write_kfpmeta|apply keeps_ret]|];
    intros _;
    apply keeps_bind; [apply keeps__post_run|]; intros; apply keeps_show
  | intros ?; apply keeps_bind; [apply keeps_emit|]; intros _;
    apply keeps_bind; [apply keeps__post_run|]; intros; apply keeps_show ].

(** The part of [run] after the argument list is extended. *)
Ltac keeps_run_rest :=
  apply keeps_bind;
  [ destruct (truthy _); [keeps_assign|apply keeps_ret] |];
  intros _; apply keeps_bind; [apply keeps_get_trace|]; intros ?;
  apply keeps_bind; [apply keeps_emit|]; intros _;
  apply keeps_bind;
  [ destruct (nonempty _); [|apply keeps_ret];
    apply keeps_bind; [apply keeps_emit|]; intros _; keeps_assign |];
  intros _; destruct (add_code_metadata _ _) as [? ?];
  apply keeps_bind; [apply keeps_lift|]; intros _;
  apply keeps_bind; [apply keeps_emit|]; intros _;
  apply keeps_bind;
  [ destruct (truthy (hyperparams _));
    [ keeps_batch
    | destruct (truthy (param_file _)); [keeps_batch | keeps_single] ] |];
  intros ?; keeps_tac.

Section RunArgs.

Context (E : Env).

Lemma bind_get_self {A} (k : RunRuntime -> M A) w :
  bind get_self k w = k (self w) w.
Proof. reflexivity. Qed.

(** [run] keeps every attribute that its three assignments (to
    [spec.args], [_secrets] and [_db_conn]) keep. *)
Lemma keeps_run {T} (f : RunRuntime -> T) runspec handler_ name_ project_
    params inputs_ :
  (forall rt a, f (set_spec_args rt a) = f rt) ->
  (forall rt s, f (set_secrets rt s) = f rt) ->
  (forall rt c, f (set_db_conn rt c) = f rt) ->
  keeps f (run E runspec handler_ name_ project_ params inputs_).
Proof.
  intros Ha Hs Hc. unfold run.
  apply keeps_bind; [apply keeps_get_self|]. intros rt. cbv zeta.
  apply keeps_bind.
  { destruct (_ || _); [|apply keeps_ret].
    destruct (py_or _ _); try apply keeps_raise. keeps_assign. }
  intros _. keeps_run_rest.
Qed.

(** The arguments after one call of [run] in mode noctx or args. *)
Lemma run_args_once runspec handler_ name_ project_ params inputs_ w d :
  spec_mode (rt_spec (self w)) = "noctx"
  \/ spec_mode (rt_spec (self w)) = "args" ->
  py_or (py_or params (parameters (spec runspec))) (PDict []) = PDict d ->
  spec_args (rt_spec (self (snd (run E runspec handler_ name_ project_
                                   params inputs_ w))))
  = spec_args (rt_spec (self w)) ++ param_args E d.
Proof.
  intros Hmode Hd. unfold run. rewrite bind_get_self. cbv zeta.
  rewrite (bind_then_keeps (fun rt => spec_args (rt_spec rt))).
  - assert (Hm : (spec_mode (rt_spec (self w)) =? "noctx")%string
                 || (spec_mode (rt_spec (self w)) =? "args")%string = true).
    { destruct Hmode as [H|H]; rewrite H; reflexivity. }
    rewrite Hm. cbn [parameters]. rewrite Hd. reflexivity.
  - intros _. keeps_run_rest.
Qed.

(** [run] assigns only to [spec.args], [_secrets] and [_db_conn]: the
    build descriptor, the built flag, the image, the mode and the kind
    of the runtime are after the call what they were before it, whether
    it returns or raises. *)
Theorem run_leaves_build_alone runspec handler_ name_ project_ params
    inputs_ w :
  let w' := snd (run E runspec handler_ name_ project_ params inputs_ w) in
  rt_build (self w') = rt_build (self w)
  /\ _is_built (self w') = _is_built (self w)
  /\ spec_image (rt_spec (self w')) = spec_image (rt_spec (self w))
  /\ spec_mode (rt_spec (self w')) = spec_mode (rt_spec (self w))
  /\ kind (self w') = kind (self w).
Proof.
  cbv zeta. repeat split.
  - apply (keeps_run rt_build); reflexivity.
  - apply (keeps_run _is_built); reflexivity.
  - apply (keeps_run (fun rt => spec_image (rt_spec rt))); reflexivity.
  - apply (keeps_run (fun rt => spec_mode (rt_spec rt))); reflexivity.
  - apply (keeps_run kind); reflexivity.
Qed.

(** C10. In mode noctx or args, a call of [run] with a parameter mapping
    leaves the runtime's own [spec.args] extended by ['--name', value]
    for each parameter, whether the call returns or raises; the mode is
    unchanged, so a second call on the same runtime appends the pairs
    again and the list holds them twice. *)
Theorem run_accumulates_args runspec handler_ name_ project_ params inputs_
    w d :
  spec_mode (rt_spec (self w)) = "noctx"
  \/ spec_mode (rt_spec (self w)) = "args" ->
  py_or (py_or params (parameters (spec runspec))) (PDict []) = PDict d ->
  let w1 := snd (run E runspec handler_ name_ project_ params inputs_ w) in
  let w2 := snd (run E runspec handler_ name_ project_ params inputs_ w1) in
  spec_args (rt_spec (self w1)) = spec_args (rt_spec (self w)) ++ param_args E d
  /\ spec_args (rt_spec (self w2))
     = spec_args (rt_spec (self w)) ++ param_args E d ++ param_args E d.
Proof.
  intros Hmode Hd w1 w2.
  assert (H1 : spec_args (rt_spec (self w1))
               = spec_args (rt_spec (self w)) ++ param_args E d)
    by (apply run_args_once; assumption).
  split; [exact H1|].
  assert (Hm1 : spec_mode (rt_spec (self w1)) = spec_mode (rt_spec (self w))).
  { apply (keeps_run (fun rt => spec_mode (rt_spec rt))); reflexivity. }
  unfold w2. rewrite run_args_once with (d := d).
  - rewrite H1. now rewrite <- app_assoc.
  - rewrite Hm1. exact Hmode.
  - exact Hd.
Qed.

End RunArgs.

(** ** The build gate *)

Lemma builder_calls_app tr es :
  builder_calls (tr ++ es) = (builder_calls tr + builder_calls es)%nat.
Proof.
  induction tr as [|e tr IH]; [reflexivity|].
  destruct e; simpl; rewrite IH; reflexivity.
Qed.

Section BuildGate.

Context (E : Env).

(** C6. With no build commands, no source, mode pass and no build pod
    left to poll (none dispatched, or the runtime already built),
    [_build_image] raises the configuration error exactly when both the
    image and the base image are unset; otherwise it adopts the image,
    or failing that the base image, marks the runtime built and returns
    True, and calls neither the cluster nor the builder. *)
Theorem build_gate_not_required watch with_mlrun execution w :
  bld_commands (rt_build (self w)) = [] ->
  bld_source (rt_build (self w)) = "" ->
  spec_mode (rt_spec (self w)) = "pass" ->
  _is_built (self w) = true \/ bld_build_pod (rt_build (self w)) = "" ->
  let image := spec_image (rt_spec (self w)) in
  let base := bld_base_image (rt_build (self w)) in
  if (image =? "")%string && (base =? "")%string then
    _build_image E watch with_mlrun execution w
    = (Raise (RunError "image or base_image must be specified"), w)
  else
    _build_image E watch with_mlrun execution w
    = (Ok (Some true),
       mkWorld
         (set_is_built
            (set_spec_image (self w) (if nonempty image then image else base))
            true)
         (trace w)).
Proof.
  intros Hc Hs Hm Hp image base. subst image base.
  unfold _build_image. rewrite bind_get_self.
  assert (Hpoll : negb (_is_built (self w))
                  && nonempty (bld_build_pod (rt_build (self w))) = false).
  { destruct Hp as [H|H]; rewrite H; [reflexivity|]. apply andb_false_r. }
  rewrite Hpoll, Hc, Hs, Hm. unfold nonempty. simpl.
  destruct (spec_image (rt_spec (self w)) =? "")%string eqn:Hi; simpl.
  - destruct (bld_base_image (rt_build (self w)) =? "")%string eqn:Hb; simpl.
    + reflexivity.
    + unfold bind, modify_self, get_self, ret. simpl.
      rewrite Hi. simpl. rewrite Hb. reflexivity.
  - unfold bind, modify_self, get_self, ret. simpl.
    rewrite Hi. simpl. rewrite Hi. reflexivity.
Qed.

(** Polling a dispatched build: succeeded marks the runtime built and
    clears the build pod; failed or error raises RunError naming the
    pod; any other status answers False and changes nothing. *)
Theorem build_poll_outcomes watch with_mlrun execution w :
  _is_built (self w) = false ->
  nonempty (bld_build_pod (rt_build (self w))) = true ->
  let pod := bld_build_pod (rt_build (self w)) in
  let status := get_pod_status E (trace w) pod in
  _build_image E watch with_mlrun execution w
  = if (status =? "succeeded")%string then
      (Ok (Some true),
       mkWorld (set_is_built (set_build_pod (self w) "") true)
         (trace w ++ [GetPodStatus pod;
                      LogInfo "build completed successfully"]))
    else if (status =? "failed")%string || (status =? "error")%string then
      (Raise (RunError (" build " ++ status
                        ++ ", watch the build pod logs: " ++ pod)),
       mkWorld (self w) (trace w ++ [GetPodStatus pod]))
    else
      (Ok (Some false),
       mkWorld (self w)
         (trace w ++ [GetPodStatus pod;
                      LogInfo ("builder status is: " ++ status
                               ++ ", wait for it to complete")])).
Proof.
  intros Hb Hp pod status. subst pod status.
  unfold _build_image. rewrite bind_get_self, Hb, Hp. cbn [negb andb].
  unfold bind, get_trace, emit, modify_self, ret, raise. cbn [self trace].
  destruct (String.eqb _ "succeeded").
  - cbn [self trace]. rewrite <- !app_assoc. reflexivity.
  - destruct (_ || _); cbn [self trace]; [reflexivity|].
    rewrite <- !app_assoc. reflexivity.
Qed.

Ltac build_image_cases :=
  unfold _build_image, bind, get_self, get_trace, emit, modify_self,
    put_self, ret, raise;
  cbn [self trace fst snd];
  repeat match goal with
         | |- context [if ?b then _ else _] => destruct b eqn:?
         | |- context [let (_, _) := ?x in _] => destruct x eqn:?
         | |- context [match ?x with [] => _ | _ :: _ => _ end] =>
             destruct x eqn:?
         end;
  cbn [self trace fst snd andb negb _is_built set_is_built] in *.

(** An invocation never removes a call from the record. *)
Lemma _build_image_builder_calls watch with_mlrun execution w :
  (builder_calls (trace w)
   <= builder_calls
        (trace (snd (_build_image E watch with_mlrun execution w))))%nat.
Proof.
  build_image_cases; rewrite ?builder_calls_app; lia.
Qed.

(** One invocation on a built runtime: the flag stays, unless the
    builder was called. *)
Lemma _build_image_keeps_built watch with_mlrun execution w :
  _is_built (self w) = true ->
  builder_calls (trace (snd (_build_image E watch with_mlrun execution w)))
  = builder_calls (trace w) ->
  _is_built (self (snd (_build_image E watch with_mlrun execution w))) = true.
Proof.
  intros Hb.
  build_image_cases; intros; rewrite ?Hb in *; simpl in *;
    rewrite ?builder_calls_app in *; simpl in *;
    try reflexivity; try discriminate; try lia.
Qed.

(** One invocation on a built runtime with an image: neither changes. *)
Lemma _build_image_keeps_image watch with_mlrun execution w :
  _is_built (self w) = true ->
  nonempty (spec_image (rt_spec (self w))) = true ->
  _is_built (self (snd (_build_image E watch with_mlrun execution w))) = true
  /\ nonempty (spec_image
                 (rt_spec
                    (self (snd (_build_image E watch with_mlrun execution w)))))
     = true
  /\ trace (snd (_build_image E watch with_mlrun execution w)) = trace w.
Proof.
  intros Hb Hi.
  build_image_cases; rewrite ?Hb, ?Hi in *; simpl in *;
    try discriminate; try congruence; auto.
Qed.

Lemma build_polls_builder_calls calls : forall w,
  (builder_calls (trace w)
   <= builder_calls (trace (build_polls E calls w)))%nat.
Proof.
  induction calls as [|[[watch with_mlrun] execution] calls IH]; intros w;
    cbn [build_polls]; [lia|].
  pose proof (_build_image_builder_calls watch with_mlrun execution w).
  specialize (IH (snd (_build_image E watch with_mlrun execution w))). lia.
Qed.

(** C8. Over every sequence of [_build_image] invocations on the same
    runtime object, a built flag that is true stays true as long as the
    builder is not called again; with a runtime image set it is never
    called again, and the flag stays true whatever the invocations. *)
Theorem is_built_stays_without_rebuild calls w :
  _is_built (self w) = true ->
  (builder_calls (trace (build_polls E calls w)) = builder_calls (trace w) ->
   _is_built (self (build_polls E calls w)) = true)
  /\ (nonempty (spec_image (rt_spec (self w))) = true ->
      _is_built (self (build_polls E calls w)) = true
      /\ trace (build_polls E calls w) = trace w).
Proof.
  revert w.
  induction calls as [|[[watch with_mlrun] execution] calls IH]; intros w Hb;
    cbn [build_polls]; [auto|].
  split.
  - intros Hn.
    pose proof (_build_image_builder_calls watch with_mlrun execution w) as H1.
    pose proof (build_polls_builder_calls calls
                  (snd (_build_image E watch with_mlrun execution w))) as H2.
    assert (Hb' : _is_built
                    (self (snd (_build_image E watch with_mlrun execution w)))
                  = true)
      by (apply _build_image_keeps_built; [exact Hb | lia]).
    destruct (IH _ Hb') as [IH1 _]. apply IH1. lia.
  - intros Hi.
    destruct (_build_image_keeps_image watch with_mlrun execution w Hb Hi)
      as (Hb' & Hi' & Ht').
    destruct (IH _ Hb') as [_ IH2]. destruct (IH2 Hi') as [Hf Htf].
    split; [exact Hf | congruence].
Qed.

End BuildGate.

(** A runtime in pass mode with an image, but with a build pod that is
    still running: the invocation polls the cluster and answers False,
    and the runtime is not marked built. *)
Lemma build_gate_polls_first :
  let r := _build_image demo_env false true false
             (mkWorld polling_runtime []) in
  fst r = Ok (Some false)
  /\ _is_built (self (snd r)) = false
  /\ trace (snd r)
     = [GetPodStatus "build-pod-1";
        LogInfo "builder status is: running, wait for it to complete"].
Proof. vm_compute. auto. Qed.

(** A poll that finds the build succeeded sets the flag; the next
    invocation finds no image, calls the builder again and stores its
    answer, False. *)
Lemma is_built_reset_by_rebuild :
  let E := demo_env_with demo_backend "succeeded" false in
  let w0 := mkWorld building_runtime [] in
  let w1 := snd (_build_image E false true false w0) in
  let w2 := snd (_build_image E false true false w1) in
  _is_built (self w1) = true /\ _is_built (self w2) = false.
Proof. vm_compute. auto. Qed.

(** ** The batch *)

Section Batch.

Context (E : Env).

Lemma bind_congr {A B} (m : M A) (k1 k2 : A -> M B) w :
  (forall a w', k1 a w' = k2 a w') -> bind m k1 w = bind m k2 w.
Proof.
  intros H. unfold bind. destruct (m w) as [[a|e] w']; [apply H|reflexivity].
Qed.

(** Without a payload, [_post_run] works on what [_get_db_run] answers. *)
Lemma _post_run_fetch t err w :
  _post_run E PNone (Some t) err w
  = bind (_get_db_run E (Some t)) (fun v => _post_run E v None err) w.
Proof.
  unfold _post_run at 1. cbn [is_None]. apply bind_congr. intros v w'.
  unfold _post_run.
  assert (Hif : forall (b : bool) (x : M pyval), (if b then x else x) = x)
    by (intros []; reflexivity).
  rewrite Hif. reflexivity.
Qed.

(** What [_get_db_run] answers for a task: a payload. *)
Lemma _get_db_run_wf t w :
  store_ok E ->
  exists v w', _get_db_run E (Some t) w = (Ok v, w') /\ wf_payload v = true.
Proof.
  intros Hs. unfold _get_db_run. rewrite bind_get_self.
  destruct (_db_conn (self w)).
  - unfold bind, get_trace, emit, ret. simpl. eexists _, _. split; [reflexivity|].
    apply Hs.
  - eexists _, _. split; [reflexivity|]. apply to_dict_wf.
Qed.

(** [_post_run] on a payload returns it in a terminal state, in state
    error with the local error attached when one is given. *)
Lemma _post_run_wf resp task err w :
  wf_payload resp = true ->
  exists r1 w1,
    _post_run E resp task err w = (Ok r1, w1)
    /\ terminal r1
    /\ (truthy err = true ->
        has_path r1 ["status"; "state"] (PStr "error")
        /\ has_path r1 ["status"; "error"] err).
Proof.
  intros Hwf.
  assert (Hn : is_None resp = false) by (destruct resp; auto; discriminate).
  assert (Hd : is_dict resp = true) by (destruct resp; auto; discriminate).
  rewrite (_post_run_given E _ _ _ _ Hn), Hd.
  destruct (normalize_wf resp err
              [("status.last_update", PStr (now E (trace w)))] Hwf)
    as (u1 & r1 & Hr).
  rewrite Hr. eexists _, _. split; [reflexivity|]. split.
  - eapply normalize_terminal_result; exact Hr.
  - intros Ht. apply normalize_result in Hr.
    destruct Hr as [[Hf _]|[H1 H2]]; [congruence|auto].
Qed.

Lemma _post_run_fetch_wf t err w :
  store_ok E ->
  exists r1 w1,
    _post_run E PNone (Some t) err w = (Ok r1, w1)
    /\ terminal r1
    /\ (truthy err = true ->
        has_path r1 ["status"; "state"] (PStr "error")
        /\ has_path r1 ["status"; "error"] err).
Proof.
  intros Hs. rewrite _post_run_fetch. unfold bind.
  destruct (_get_db_run_wf t w Hs) as (v & w' & Hv & Hwf). rewrite Hv.
  apply _post_run_wf. exact Hwf.
Qed.

Lemma store_run_returns t c w : exists w', store_run E t c w = (Ok tt, w').
Proof.
  unfold store_run. rewrite bind_get_self.
  destruct (_db_conn (self w)); eexists; reflexivity.
Qed.

(** One task of the batch: a terminal payload, never an exception; a
    task whose backend raised RunError ends in state error with the
    error captured. *)
Lemma run_task_terminal t w :
  backend_ok E -> store_ok E ->
  exists r w',
    run_task E t w = (Ok r, w')
    /\ terminal r
    /\ (forall msg, _run E t = Raise (RunError msg) ->
        has_path r ["status"; "state"] (PStr "error")
        /\ has_path r ["status"; "error"] (PExc msg)).
Proof.
  intros Hb Hs. unfold run_task, try_except_RunError.
  unfold bind at 1. destruct (store_run_returns t true w) as (w0 & Hw0).
  rewrite Hw0. unfold bind at 1. unfold lift at 1.
  specialize (Hb t). destruct (_run E t) as [resp|e].
  - destruct Hb as [Hn|Hwf].
    + destruct resp; try discriminate.
      destruct (_post_run_fetch_wf t PNone w0 Hs) as (r1 & w1 & H1 & Ht & _).
      rewrite H1. eexists _, _. split; [reflexivity|]. split; [exact Ht|].
      intros msg Hm. discriminate.
    + destruct (_post_run_wf resp (Some t) PNone w0 Hwf)
        as (r1 & w1 & H1 & Ht & _).
      rewrite H1. eexists _, _. split; [reflexivity|]. split; [exact Ht|].
      intros msg Hm. discriminate.
  - destruct e; try contradiction.
    destruct (_post_run_fetch_wf
                (set_status t
                   (mkRunStatus (PStr "error") (PExc msg)
                      (outputs (status t))))
                (PExc msg) w0 Hs) as (r1 & w1 & H1 & Ht & He).
    rewrite H1. eexists _, _. split; [reflexivity|]. split; [exact Ht|].
    intros msg' Hm. inversion Hm; subst. apply He. reflexivity.
Qed.

Lemma _run_many_loop_recorded tasks :
  backend_ok E -> store_ok E ->
  forall acc w,
  exists results w1,
    _run_many_loop E tasks acc w = (Ok (acc ++ results), w1)
    /\ Forall2 (recorded E) tasks results.
Proof.
  intros Hb Hs. induction tasks as [|t tasks IH]; intros acc w.
  - exists [], w. rewrite app_nil_r. split; [reflexivity|constructor].
  - cbn [_run_many_loop]. unfold bind at 1.
    destruct (run_task_terminal t w Hb Hs) as (r & w' & Hr & Ht & He).
    rewrite Hr.
    destruct (IH (acc ++ [r]) w') as (results & w1 & H1 & HF).
    exists (r :: results), w1. split.
    + rewrite H1. rewrite <- app_assoc. reflexivity.
    + constructor; [|exact HF]. split; [|split]; eauto.
Qed.

Lemma terminal_post_run r w :
  terminal r ->
  exists w', _post_run E r None PNone w = (Ok r, w')
             /\ exists es, trace w' = trace w ++ es.
Proof.
  intros Ht. pose proof (terminal_is_dict _ Ht) as Hd.
  assert (Hn : is_None r = false) by (destruct r; auto; discriminate).
  rewrite (_post_run_given E _ _ _ _ Hn), Hd.
  destruct (normalize_terminal r
              [("status.last_update", PStr (now E (trace w)))] Ht)
    as (u & Hu).
  rewrite Hu. eexists. split; [reflexivity|].
  destruct (_db_conn (self w)); simpl.
  - eexists. reflexivity.
  - exists []. now rewrite app_nil_r.
Qed.

(** The loop of [_results_to_iter] over terminal payloads leaves them as
    they are and counts those in state error. *)
Lemma results_loop_terminal runspec todo :
  Forall terminal todo ->
  forall iter failed done w,
  exists iter' w',
    results_loop E runspec todo iter failed done w
    = (Ok (iter', (failed + count_error todo)%nat, done ++ todo), w')
    /\ exists es, trace w' = trace w ++ es.
Proof.
  induction 1 as [|r todo Hr Hrest IH]; intros iter failed done w.
  - exists iter, w. cbn [results_loop]. unfold count_error. simpl.
    rewrite Nat.add_0_r, app_nil_r. split; [reflexivity|].
    exists []. now rewrite app_nil_r.
  - cbn [results_loop]. cbv zeta. unfold bind at 1.
    assert (Hfirst : exists w0 es0,
      (if eq_str (get_in r ["status"; "state"] PNone) "error"
       then
         emit (LogError ("error in task  "
                         ++ py_str E (uid (metadata runspec)) ++ ":"
                         ++ py_str E (get_in r ["metadata"; "iteration"] PNone)
                         ++ " - "
                         ++ py_str E (get_in r ["status"; "error"] (PStr ""))));;;
         ret (S failed)
       else ret failed) w
      = (Ok (if in_error r then S failed else failed), w0)
      /\ trace w0 = trace w ++ es0).
    { unfold in_error.
      destruct (eq_str (get_in r ["status"; "state"] PNone) "error").
      - eexists _, _. split; reflexivity.
      - exists w, []. split; [reflexivity|]. now rewrite app_nil_r. }
    destruct Hfirst as (w0 & es0 & H0 & Ht0). rewrite H0.
    unfold bind at 1.
    destruct (terminal_post_run r w0 Hr) as (w1 & H1 & es1 & Ht1).
    rewrite H1.
    destruct (IH (iter ++ [PDict [("param",
                                    get_in r ["spec"; "parameters"] (PDict []));
                                   ("output",
                                    get_in r ["status"; "outputs"] (PDict []));
                                   ("state",
                                    get_in r ["status"; "state"] PNone);
                                   ("iter",
                                    get_in r ["metadata"; "iteration"] PNone)]])
                (if in_error r then S failed else failed) (done ++ [r]) w1)
      as (iter' & w' & H' & es' & Ht').
    exists iter', w'. split.
    + assert (Hc : ((if in_error r then S failed else failed)
                    + count_error todo
                    = failed + count_error (r :: todo))%nat)
        by (unfold count_error; simpl; destruct (in_error r); simpl; lia).
      rewrite H', Hc, <- app_assoc. reflexivity.
    + exists (es0 ++ es1 ++ es'). rewrite Ht', Ht1, Ht0.
      now rewrite <- !app_assoc.
Qed.

Lemma trace_tail (t t1 es1 a : list event) (b c d : event) :
  t1 = t ++ es1 ->
  (((t1 ++ a) ++ [b]) ++ [c]) ++ [d] = t ++ (es1 ++ a ++ [b; c]) ++ [d].
Proof. intros ->. repeat rewrite <- app_assoc. reflexivity. Qed.

(** The summary of a non-empty batch of terminal payloads, when the
    selection does not raise: the state of the batch is set last, from
    the count of payloads in state error. *)
Lemma _results_to_iter_terminal results runspec sel w :
  results <> [] -> Forall terminal results ->
  snd (selector results (selector_criteria (spec runspec))) = Ok sel ->
  exists w' es,
    _results_to_iter E results runspec w = (Ok tt, w')
    /\ trace w' = trace w ++ es ++ [aggregate_state (count_error results)].
Proof.
  intros Hne Ht Hsel. unfold _results_to_iter.
  destruct results as [|r0 rs] eqn:Hres; [congruence|]. rewrite <- Hres in *.
  unfold bind at 1.
  destruct (results_loop_terminal runspec results Ht [] 0%nat [] w)
    as (iter' & w1 & H1 & es1 & Ht1).
  rewrite H1. cbn [app Nat.add].
  destruct (iteration_table E iter') as [summary csv].
  destruct (selector results (selector_criteria (spec runspec)))
    as [logged s]. simpl in Hsel. subst s.
  destruct sel as [item id].
  unfold bind, emits, lift, emit. cbn [self trace].
  unfold aggregate_state.
  destruct (0 <? count_error results)%nat; cbn [self trace].
  - eexists _, _. split; [reflexivity|]. apply trace_tail. exact Ht1.
  - eexists _, _. split; [reflexivity|]. apply trace_tail. exact Ht1.
Qed.

Lemma recorded_count tasks results :
  Forall2 (recorded E) tasks results ->
  (List.length (filter (fails E) tasks) <= count_error results)%nat.
Proof.
  induction 1 as [|t r tasks results Hr HF IH]; [simpl; lia|].
  unfold count_error in *. simpl.
  destruct (fails E t) eqn:Hf; [|destruct (in_error r); simpl; lia].
  assert (He : in_error r = true).
  { unfold fails in Hf. destruct (_run E t) as [|e] eqn:Hrun; [discriminate|].
    destruct e; try discriminate.
    destruct Hr as (_ & _ & He). destruct (He msg Hrun) as [Hst _].
    unfold in_error.
    rewrite (has_path_get_in r ["status"; "state"] (PStr "error") PNone);
      [reflexivity|discriminate|exact Hst]. }
  rewrite He. simpl. lia.
Qed.

(** C3. For a non-empty sequence of generated tasks, with a backend
    that returns a payload or raises RunError and a store that answers
    reads with a payload: [_run_many] returns, without raising, one
    terminal payload per task in generation order, a task whose backend
    raised RunError being recorded in state error with the error
    captured; and (when the selection does not raise) [_results_to_iter]
    sets the state of the batch last, to error with the count of
    payloads in state error in its message when that count is not zero,
    and to completed otherwise.  Every task that raised is counted. *)
Theorem batch_isolates_failures tasks runspec w :
  backend_ok E -> store_ok E -> tasks <> [] ->
  exists results w1,
    _run_many E tasks w = (Ok results, w1)
    /\ Forall2 (recorded E) tasks results
    /\ (List.length (filter (fails E) tasks) <= count_error results)%nat
    /\ (forall sel,
          snd (selector results (selector_criteria (spec runspec))) = Ok sel ->
          exists w2 es,
            _results_to_iter E results runspec w1 = (Ok tt, w2)
            /\ trace w2
               = trace w1 ++ es ++ [aggregate_state (count_error results)]).
Proof.
  intros Hb Hs Hne.
  destruct (_run_many_loop_recorded tasks Hb Hs [] w)
    as (results & w1 & H1 & HF).
  exists results, w1. split; [exact H1|]. split; [exact HF|].
  split; [apply recorded_count; exact HF|].
  intros sel Hsel. apply _results_to_iter_terminal with (sel := sel).
  - destruct HF; [congruence|discriminate].
  - clear -HF. induction HF as [|t r ts rs Hr _ IH]; constructor; auto.
    destruct Hr as (_ & Ht & _). exact Ht.
  - exact Hsel.
Qed.

(** C5. With zero generated tasks the batch logs an error and returns:
    [_run_many] returns the empty list and [_results_to_iter] only logs
    'got an empty results list in to_iter'; nothing is raised and no
    state of the batch, summary or selection is recorded. *)
Theorem empty_batch_only_logs runspec w :
  _run_many E [] w = (Ok [], w)
  /\ _results_to_iter E [] runspec w
     = (Ok tt,
        mkWorld (self w)
          (trace w ++ [LogError "got an empty results list in to_iter"])).
Proof. split; reflexivity. Qed.

End Batch.

(** With no generated task nothing is raised and no state is set: the
    caller is not told of an error, and the batch is not completed. *)
Lemma empty_batch_reports_nothing :
  let r := _results_to_iter demo_env [] (demo_task "run1" PNone PNone)
             (demo_world "" "" false) in
  fst r = Ok tt /\ sets_state (trace (snd r)) = false.
Proof. vm_compute. auto. Qed.

(** With no generated task the state of the batch is not set to
    completed. *)
Lemma empty_batch_not_completed :
  let r := bind (_run_many demo_env [])
             (fun results =>
                _results_to_iter demo_env results
                  (demo_task "run1" PNone PNone))
             (demo_world "" "" false) in
  r = (Ok tt,
       mkWorld (demo_runtime "" "" false)
         [LogError "got an empty results list in to_iter"]).
Proof. vm_compute. reflexivity. Qed.

(** ** The single run *)

(** C7. A single run whose backend raises RunError, on a task that was
    not in state error when it was submitted: [run] stores the task,
    writes the error state to the store, and then returns the payload to
    the caller instead of raising, because the state it tests is that
    of the submitted task ('created'), not that of the result. *)
Theorem failed_single_run_returns_normally :
  let E := demo_env_with failing_backend "running" false in
  let r := run E (demo_task "run1" PNone PNone) PNone PNone PNone PNone PNone
             (demo_world "" "http://mlrun-db" false) in
  (forall t, _run E t = Raise (RunError "boom"))
  /\ fst r
     = Ok (PDict
             [("metadata",
               PDict [("uid", PStr "run1"); ("project", PStr "demo")]);
              ("status",
               PDict [("state", PStr "error"); ("error", PExc "boom")])])
  /\ In (DbUpdateRun
           [("status.last_update", PStr "2019-10-01 12:00:00");
            ("status.state", PStr "error"); ("status.error", PExc "boom")]
           (PStr "run1") (PStr "demo"))
        (trace (snd r))
  /\ In (LogInfo "run executed, status=created") (trace (snd r)).
Proof.
  cbv zeta. split; [reflexivity|]. vm_compute.
  repeat split; auto 10.
Qed.

Lemma add_code_metadata_ends E labels :
  snd (add_code_metadata E labels)
  = match git_raised E with
    | Some e => Raise e
    | None => Ok tt
    end.
Proof.
  unfold git_raised, add_code_metadata.
  destruct (git_remotes E) as [[|url urls]| |e]; try reflexivity.
  destruct (git_commit E); reflexivity.
Qed.

Lemma add_code_metadata_quiet E labels :
  git_quiet E -> snd (add_code_metadata E labels) = Ok tt.
Proof. intros H. rewrite add_code_metadata_ends, H. reflexivity. Qed.

(** With a quiet git, [add_code_metadata] returns. *)
Ltac quiet_git Hgit :=
  match goal with
  | |- context [add_code_metadata ?E ?l] =>
      let H := fresh "Hcode" in
      pose proof (add_code_metadata_quiet E l Hgit) as H;
      destruct (add_code_metadata E l) as [? ?]; cbn [snd] in H; subst
  end.

Section Returns.

Lemma returns_ret {A} (a : A) (Q : A -> Prop) : Q a -> returns (ret a) Q.
Proof. intros H w. exists a, w. auto. Qed.

Lemma returns_lift {A} (a : A) (Q : A -> Prop) :
  Q a -> returns (lift (Ok a)) Q.
Proof. intros H w. exists a, w. auto. Qed.

Lemma returns_emit e (Q : unit -> Prop) : Q tt -> returns (emit e) Q.
Proof. intros H w. eexists _, _. split; [reflexivity|exact H]. Qed.

Lemma returns_modify_self g (Q : unit -> Prop) :
  Q tt -> returns (modify_self g) Q.
Proof. intros H w. eexists _, _. split; [reflexivity|exact H]. Qed.

Lemma returns_get_trace (Q : list event -> Prop) :
  (forall h, Q h) -> returns get_trace Q.
Proof. intros H w. eexists _, _. split; [reflexivity|apply H]. Qed.

Lemma returns_get_self (Q : RunRuntime -> Prop) :
  (forall rt, Q rt) -> returns get_self Q.
Proof. intros H w. eexists _, _. split; [reflexivity|apply H]. Qed.

Lemma returns_bind {A B} (m : M A) (k : A -> M B) (P : A -> Prop)
    (Q : B -> Prop) :
  returns m P -> (forall a, P a -> returns (k a) Q) -> returns (bind m k) Q.
Proof.
  intros Hm Hk w. destruct (Hm w) as (a & w' & Ha & HP).
  unfold bind. rewrite Ha. apply Hk. exact HP.
Qed.

(** A body that raises RunError from every state hands over to the
    handler. *)
Lemma returns_try_raised {A} (body : M A) handler (Q : A -> Prop) :
  (forall w, exists msg w', body w = (Raise (RunError msg), w')) ->
  (forall msg, returns (handler (PExc msg)) Q) ->
  returns (try_except_RunError body handler) Q.
Proof.
  intros Hb Hh w. destruct (Hb w) as (msg & w' & Hbody).
  unfold try_except_RunError. rewrite Hbody. apply Hh.
Qed.

Lemma returns_try_returned {A} (body : M A) handler (Q : A -> Prop) :
  returns body Q -> returns (try_except_RunError body handler) Q.
Proof.
  intros Hb w. destruct (Hb w) as (a & w' & Hbody & HQ).
  unfold try_except_RunError. rewrite Hbody. eauto.
Qed.

Lemma ends_bind {A B} (m : M A) (k : A -> M B) (P : A -> Prop)
    (R : result B -> Prop) :
  returns m P -> (forall a, P a -> ends (k a) R) -> ends (bind m k) R.
Proof.
  intros Hm Hk w. destruct (Hm w) as (a & w' & Ha & HP).
  unfold bind. rewrite Ha. apply Hk. exact HP.
Qed.

Lemma yields_bind {A B} (m : M A) (k : A -> M B) (Q : B -> Prop) :
  (forall a, yields (k a) Q) -> yields (bind m k) Q.
Proof.
  intros Hk w b w' H. unfold bind in H.
  destruct (m w) as [[a|e] w1]; [|discriminate]. eapply Hk. exact H.
Qed.

End Returns.

Ltac returns_if :=
  match goal with
  | |- returns (if ?b then _ else _) _ => destruct b
  end.

Section SingleRun.

Context (E : Env).

Lemma has_path_truthy r ks v : ks <> [] -> has_path r ks v -> truthy r = true.
Proof.
  destruct ks as [|k ks]; [congruence|]. intros _ H. cbn [has_path] in H.
  destruct r; try contradiction. destruct d; [contradiction|reflexivity].
Qed.


End SingleRun.

(** ** The empty batch, as the caller of run sees it *)

Section Appends.

Lemma appends_ret {A} (a : A) (P : A -> list event -> Prop) :
  P a [] -> appends (ret a) P.
Proof. intros H w. exists a, w, []. rewrite app_nil_r. auto. Qed.

Lemma appends_lift {A} (a : A) (P : A -> list event -> Prop) :
  P a [] -> appends (lift (Ok a)) P.
Proof. intros H w. exists a, w, []. rewrite app_nil_r. auto. Qed.

Lemma appends_emit e (P : unit -> list event -> Prop) :
  P tt [e] -> appends (emit e) P.
Proof. intros H w. eexists tt, _, [e]. repeat split; auto. Qed.

Lemma appends_modify_self g (P : unit -> list event -> Prop) :
  P tt [] -> appends (modify_self g) P.
Proof.
  intros H w. eexists tt, _, []. split; [reflexivity|].
  simpl. rewrite app_nil_r. auto.
Qed.

Lemma appends_get_trace (P : list event -> list event -> Prop) :
  (forall h, P h []) -> appends get_trace P.
Proof. intros H w. eexists _, w, []. rewrite app_nil_r. repeat split; auto. Qed.

Lemma appends_get_self (P : RunRuntime -> list event -> Prop) :
  (forall rt, P rt []) -> appends get_self P.
Proof. intros H w. eexists _, w, []. rewrite app_nil_r. repeat split; auto. Qed.

Lemma appends_bind {A B} (m : M A) (k : A -> M B)
    (P : A -> list event -> Prop) (Q : B -> list event -> Prop) :
  appends m P ->
  (forall a es, P a es -> appends (k a) (fun b es' => Q b (es ++ es'))) ->
  appends (bind m k) Q.
Proof.
  intros Hm Hk w. destruct (Hm w) as (a & w1 & es & H1 & Ht1 & HP).
  destruct (Hk a es HP w1) as (b & w2 & es' & H2 & Ht2 & HQ).
  exists b, w2, (es ++ es'). unfold bind. rewrite H1, H2.
  repeat split; auto. rewrite Ht2, Ht1. now rewrite app_assoc.
Qed.

Lemma empty_logged_app a b es es' :
  empty_logged a es -> empty_logged b es' ->
  empty_logged (a || b) (es ++ es').
Proof.
  intros [Hs Hi] [Hs' Hi']. split.
  - unfold sets_state in *. rewrite existsb_app, Hs, Hs'. reflexivity.
  - intros H. apply in_or_app. destruct a; [left; auto|right; auto].
Qed.

(** Sequencing two steps that each leave the state of the batch unset. *)
Lemma appends_logged_bind {A B} (m : M A) (k : A -> M B) a b c :
  c = a || b ->
  appends m (fun _ es => empty_logged a es) ->
  (forall x, appends (k x) (fun _ es => empty_logged b es)) ->
  appends (bind m k) (fun _ es => empty_logged c es).
Proof.
  intros -> Hm Hk. eapply appends_bind; [exact Hm|].
  intros x es Hes w. destruct (Hk x w) as (y & w' & es' & H & Ht & Hes').
  exists y, w', es'. repeat split; auto.
  - apply (empty_logged_app a b es es' Hes Hes').
  - apply (empty_logged_app a b es es' Hes Hes').
Qed.

End Appends.

Ltac logged_nil := split; [reflexivity|discriminate].

Ltac appends_quiet :=
  first
    [ apply appends_ret; logged_nil
    | apply appends_lift; logged_nil
    | apply appends_emit; logged_nil
    | apply appends_modify_self; logged_nil
    | apply appends_get_trace; intros; logged_nil
    | apply appends_get_self; intros; logged_nil ].

Ltac appends_if :=
  match goal with
  | |- appends (if ?b then _ else _) _ => destruct b
  end.

(** [appends_seq a b]: a step that leaves [empty_logged a], then the
    rest, which leaves [empty_logged b]. *)
Ltac appends_seq a b :=
  apply (appends_logged_bind _ _ a b); [reflexivity| |intro].

Section EmptyBatch.

Context (E : Env).


End EmptyBatch.

(** ** Instances *)

Example string_of_Z_examples :
  (string_of_Z 0, string_of_Z 42, string_of_Z (-7)) = ("0", "42", "-7").
Proof. vm_compute. reflexivity. Qed.

Lemma demo_backend_ok backend pod_status ready :
  (forall t,
     match backend t with
     | Ok r => is_None r = true \/ wf_payload r = true
     | Raise (RunError _) => True
     | Raise _ => False
     end) ->
  backend_ok (demo_env_with backend pod_status ready).
Proof. intros H t. apply H. Qed.

Lemma demo_env_backend_ok : backend_ok demo_env.
Proof.
  apply demo_backend_ok. intros t. unfold demo_backend.
  destruct (get_in (parameters (spec t)) ["x"] PNone); simpl; auto.
  destruct (z <? 0); simpl; auto.
Qed.

Lemma demo_env_store_ok : store_ok demo_env.
Proof. intros h u p. reflexivity. Qed.

(** The example of the specification: two of five tasks raise RunError;
    five payloads come back in order, and the batch is set to error
    with a message that counts two failures. *)
Example batch_two_of_five :
  let runspec := demo_task "run1" PNone PNone in
  let r := bind (_run_many demo_env demo_tasks)
             (fun results =>
                bind (_results_to_iter demo_env results runspec)
                     (fun _ => ret results))
             (demo_world "" "" false) in
  (match fst r with
   | Ok results =>
       map (fun p => (get_in p ["metadata"; "iteration"] PNone,
                      get_in p ["status"; "state"] PNone)) results
   | Raise _ => []
   end)
  = [(PInt 1, PStr "completed"); (PInt 2, PStr "error");
     (PInt 3, PStr "completed"); (PInt 4, PStr "error");
     (PInt 5, PStr "completed")]
  /\ last (trace (snd r)) (LogInfo "")
     = SetState PNone
         (PStr "2 tasks failed, check logs for db for details").
Proof. vm_compute. auto. Qed.

Lemma _post_run_idempotent_witness :
  let resp := task_payload 1 "running" [("accuracy", PFloat (9 # 10))] in
  let w := demo_world "" "" false in
  is_None resp = false
  /\ ((wf_payload resp = true ->
       exists r1 w1, _post_run demo_env resp None PNone w = (Ok r1, w1))
      /\ (forall r1 w1,
            _post_run demo_env resp None PNone w = (Ok r1, w1) ->
            forall task' w2,
              fst (_post_run demo_env r1 task' PNone w2) = Ok r1
              /\ fst (_post_run demo_env r1 task' PNone w2) = Ok r1)).
Proof.
  split; [reflexivity|].
  apply (_post_run_idempotent demo_env
           (task_payload 1 "running" [("accuracy", PFloat (9 # 10))])
           None PNone (demo_world "" "" false)).
  reflexivity.
Defined.

Lemma batch_isolates_failures_witness :
  let runspec := demo_task "run1" PNone PNone in
  let w := demo_world "" "" false in
  demo_tasks <> []
  /\ exists results w1,
       _run_many demo_env demo_tasks w = (Ok results, w1)
       /\ Forall2 (recorded demo_env) demo_tasks results
       /\ (List.length (filter (fails demo_env) demo_tasks)
           <= count_error results)%nat
       /\ (forall sel,
             snd (selector results (selector_criteria (spec runspec))) = Ok sel ->
             exists w2 es,
               _results_to_iter demo_env results runspec w1 = (Ok tt, w2)
               /\ trace w2
                  = trace w1 ++ es ++ [aggregate_state (count_error results)]).
Proof.
  split; [discriminate|].
  apply (batch_isolates_failures demo_env demo_tasks
           (demo_task "run1" PNone PNone) (demo_world "" "" false)
           demo_env_backend_ok demo_env_store_ok).
  discriminate.
Defined.

Lemma selector_all_skipped_witness :
  let rs := [task_payload 1 "error" [("accuracy", PFloat (9 # 10))];
             task_payload 2 "completed" []] in
  Forall (fun t => candidate (snd (split_criteria "max.accuracy")) t = false) rs
  /\ snd (selector rs (PStr "max.accuracy")) = Ok (0%nat, PInt 0)
  /\ snd (selector rs (PStr "max.accuracy")) = snd (selector rs PNone).
Proof.
  assert (H : Forall
                (fun t =>
                   candidate (snd (split_criteria "max.accuracy")) t = false)
                [task_payload 1 "error" [("accuracy", PFloat (9 # 10))];
                 task_payload 2 "completed" []])
    by (repeat constructor).
  split; [exact H|].
  exact (selector_all_skipped _ "max.accuracy" H).
Defined.

Lemma build_gate_not_required_witness :
  _build_image demo_env false true false (mkWorld pass_runtime [])
  = (Ok (Some true),
     mkWorld (set_is_built (set_spec_image pass_runtime "python:3.6") true) []).
Proof.
  exact (build_gate_not_required demo_env false true false
           (mkWorld pass_runtime []) eq_refl eq_refl eq_refl
           (or_intror eq_refl)).
Defined.

Lemma is_built_stays_without_rebuild_witness :
  let w := mkWorld
             (set_is_built (set_spec_image pass_runtime "python:3.6") true)
             [] in
  let calls := [(false, true, false); (true, true, true)] in
  _is_built (self w) = true
  /\ (builder_calls (trace (build_polls demo_env calls w))
      = builder_calls (trace w) ->
      _is_built (self (build_polls demo_env calls w)) = true)
  /\ (nonempty (spec_image (rt_spec (self w))) = true ->
      _is_built (self (build_polls demo_env calls w)) = true
      /\ trace (build_polls demo_env calls w) = trace w).
Proof.
  split; [reflexivity|].
  apply (is_built_stays_without_rebuild demo_env
           [(false, true, false); (true, true, true)]
           (mkWorld
              (set_is_built (set_spec_image pass_runtime "python:3.6") true)
              [])).
  reflexivity.
Defined.

Lemma run_key_consistent_witness :
  let t := demo_task "run1" (PInt 3) PNone in
  let w := demo_world "" "http://mlrun-db" true in
  store_run demo_env t true w
  = (Ok tt,
     mkWorld (self w)
       [DbStoreRun (to_dict t) (PStr "run1-3") (PStr "demo") true])
  /\ _get_db_run demo_env (Some t) w
     = (Ok (read_run demo_env [] (PStr "run1-3") (PStr "demo")),
        mkWorld (self w) [DbReadRun (PStr "run1-3") (PStr "demo")])
  /\ (exists updates r,
        _post_run demo_env (to_dict t) (Some t) PNone w
        = (Ok r,
           mkWorld (self w)
             [DbUpdateRun updates (PStr "run1-3") (PStr "demo")]))
  /\ (carries_key (to_dict t) t ->
      payload_key demo_env (to_dict t) = PStr "run1-3"
      /\ get_in (to_dict t) ["metadata"; "project"] PNone = PStr "demo")
  /\ carries_key (to_dict t) t.
Proof.
  exact (run_key_consistent demo_env (demo_task "run1" (PInt 3) PNone)
           (Some 3) true (to_dict (demo_task "run1" (PInt 3) PNone)) PNone
           (demo_world "" "http://mlrun-db" true)
           eq_refl eq_refl eq_refl).
Defined.

(** One turn of the loop of [_run_many] on the third member of a sweep,
    with a backend whose payload does not name the iteration: the task
    is stored under the key run1-3 and its terminal state is written
    under the key run1. *)
Lemma update_key_follows_payload :
  let E := demo_env_with terse_backend "running" false in
  let t := demo_task "run1" (PInt 3) PNone in
  composite_uid E (uid (metadata t)) (Some 3) = PStr "run1-3"
  /\ exists updates r,
       run_task E t (demo_world "" "http://mlrun-db" true)
       = (Ok r,
          mkWorld (demo_runtime "" "http://mlrun-db" true)
            [DbStoreRun (to_dict t) (PStr "run1-3") (PStr "demo") true;
             DbUpdateRun updates (PStr "run1") (PStr "demo")]).
Proof. vm_compute. split; [reflexivity|]. eexists _, _. reflexivity. Qed.

Lemma run_accumulates_args_witness :
  let runspec :=
    demo_task "run1" PNone (PDict [("lr", PInt 3); ("tag", PStr "x")]) in
  let w := demo_world "args" "" false in
  let w1 := snd (run demo_env runspec PNone PNone PNone PNone PNone w) in
  let w2 := snd (run demo_env runspec PNone PNone PNone PNone PNone w1) in
  spec_args (rt_spec (self w1)) = ["--lr"; "3"; "--tag"; "x"]
  /\ spec_args (rt_spec (self w2))
     = ["--lr"; "3"; "--tag"; "x"; "--lr"; "3"; "--tag"; "x"].
Proof.
  exact (run_accumulates_args demo_env
           (demo_task "run1" PNone (PDict [("lr", PInt 3); ("tag", PStr "x")]))
           PNone PNone PNone PNone PNone (demo_world "args" "" false)
           [("lr", PInt 3); ("tag", PStr "x")]
           (or_intror eq_refl) eq_refl).
Defined.

Lemma demo_store_ok backend pod_status ready :
  store_ok (demo_env_with backend pod_status ready).
Proof. intros h u p. reflexivity. Qed.

Lemma selector_elects_earliest_optimum_witness :
  let rs := [task_payload 1 "completed" [("accuracy", PNaN)];
             task_payload 2 "completed" [("accuracy", PFloat (9 # 10))];
             task_payload 3 "completed" [("accuracy", PFloat (9 # 10))];
             task_payload 4 "error" []] in
  split_criteria "max.accuracy" = ("max", "accuracy")
  /\ ((selector rs (PStr "max.accuracy") = ([], Ok (0%nat, PInt 0))
       /\ forall t q, In t rs -> candidate "accuracy" t = true ->
                      num_of (output_value "accuracy" t) = Some q ->
                      ~ improves_on "max" q (sentinel "max"))
      \/ exists k t q,
           selector rs (PStr "max.accuracy")
           = ([], Ok (k, get_in t ["metadata"; "iteration"] PNone))
           /\ nth_error rs k = Some t
           /\ candidate "accuracy" t = true
           /\ num_of (output_value "accuracy" t) = Some q
           /\ improves_on "max" q (sentinel "max")
           /\ (forall t' q', In t' rs -> candidate "accuracy" t' = true ->
                             num_of (output_value "accuracy" t') = Some q' ->
                             ~ improves_on "max" q' q)
           /\ (forall j t' q', (j < k)%nat -> nth_error rs j = Some t' ->
                               candidate "accuracy" t' = true ->
                               num_of (output_value "accuracy" t') = Some q' ->
                               improves_on "max" q q')).
Proof.
  split; [reflexivity|].
  apply (selector_elects_earliest_optimum
           [task_payload 1 "completed" [("accuracy", PNaN)];
            task_payload 2 "completed" [("accuracy", PFloat (9 # 10))];
            task_payload 3 "completed" [("accuracy", PFloat (9 # 10))];
            task_payload 4 "error" []]
           "max.accuracy" "max" "accuracy").
  - discriminate.
  - reflexivity.
  - left. reflexivity.
  - intros t [<-|[<-|[<-|[<-|[]]]]] Hc;
      [right; reflexivity
      |left; eexists; reflexivity
      |left; eexists; reflexivity
      |discriminate Hc].
Defined.


Lemma build_poll_outcomes_witness :
  _build_image (demo_env_with demo_backend "failed" false) false true false
    (mkWorld building_runtime [])
  = (Raise (RunError " build failed, watch the build pod logs: build-pod-1"),
     mkWorld building_runtime [GetPodStatus "build-pod-1"]).
Proof.
  exact (build_poll_outcomes (demo_env_with demo_backend "failed" false)
           false true false (mkWorld building_runtime []) eq_refl eq_refl).
Defined.


(** ** The criterion syntax *)

Lemma index_dot_none s : no_dot s = true -> index 0 "." s = None.
Proof.
  induction s as [|c s IH]; [reflexivity|]. cbn [no_dot].
  intros H. apply andb_prop in H. destruct H as [Hc Hs].
  apply negb_true_iff in Hc. apply Ascii.eqb_neq in Hc.
  cbn [index prefix].
  destruct (ascii_dec "." c) as [e|_]; [congruence|].
  now rewrite (IH Hs).
Qed.

Lemma index_dot_first op rest :
  no_dot op = true ->
  index 0 "." (op ++ String "." rest) = Some (String.length op).
Proof.
  induction op as [|c op IH]; cbn [no_dot].
  - intros _. cbn [append index prefix].
    destruct (ascii_dec "." "."); [|congruence].
    destruct rest; reflexivity.
  - intros H. apply andb_prop in H. destruct H as [Hc Hs].
    apply negb_true_iff in Hc. apply Ascii.eqb_neq in Hc.
    cbn [append index prefix String.length].
    destruct (ascii_dec "." c) as [e|_]; [congruence|].
    now rewrite (IH Hs).
Qed.

Lemma substring_append_left s t : substring 0 (String.length s) (s ++ t) = s.
Proof.
  induction s as [|c s IH]; cbn [append String.length substring].
  - destruct t; reflexivity.
  - now rewrite IH.
Qed.

Lemma substring_all s : substring 0 (String.length s) s = s.
Proof.
  induction s as [|c s IH]; [reflexivity|]. cbn [String.length substring].
  now rewrite IH.
Qed.

Lemma substring_append_right s t :
  substring (String.length s) (String.length t) (s ++ t) = t.
Proof.
  induction s as [|c s IH]; cbn [append String.length substring].
  - apply substring_all.
  - exact IH.
Qed.

Lemma length_append s t :
  String.length (s ++ t) = (String.length s + String.length t)%nat.
Proof.
  induction s as [|c s IH]; [reflexivity|]. cbn [append String.length].
  now rewrite IH.
Qed.

(** The criterion is split at its first dot: what stands before it (no
    dot in it) is the operator and all that follows, dots included, is
    the output field; a criterion without a dot is a field to maximise. *)
Theorem split_criteria_parse op field :
  no_dot op = true ->
  split_criteria (op ++ "." ++ field) = (op, field)
  /\ split_criteria op = ("max", op).
Proof.
  intros H. unfold split_criteria. split.
  - change (op ++ "." ++ field)%string with (op ++ String "." field)%string.
    rewrite (index_dot_first op field H). f_equal.
    + apply substring_append_left.
    + rewrite length_append. cbn [String.length].
      replace (String.length op + S (String.length field)
               - (String.length op + 1))%nat
        with (String.length field) by lia.
      replace (String.length op + 1)%nat
        with (String.length (op ++ ".")%string)
        by (rewrite length_append; reflexivity).
      replace (op ++ String "." field)%string
        with ((op ++ ".") ++ field)%string.
      * apply substring_append_right.
      * clear. induction op as [|c op IH]; [reflexivity|].
        cbn [append]. now rewrite IH.
  - now rewrite (index_dot_none op H).
Qed.

Lemma split_criteria_parse_witness :
  no_dot "min" = true
  /\ split_criteria ("min" ++ "." ++ "loss.l2") = ("min", "loss.l2")
  /\ split_criteria "min" = ("max", "min").
Proof.
  split; [reflexivity|].
  exact (split_criteria_parse "min" "loss.l2" eq_refl).
Defined.

(** ** What the methods never add to the record *)

Section Confined.

Context (I : RunRuntime -> Prop) (P : event -> bool).

Lemma confined_ret {A} (a : A) : confined I P (ret a).
Proof. intros w H. split; [exact H|]. exists []. now rewrite app_nil_r. Qed.

Lemma confined_raise {A} e : confined I P (@raise A e).
Proof. intros w H. split; [exact H|]. exists []. now rewrite app_nil_r. Qed.

Lemma confined_lift {A} (r : result A) : confined I P (lift r).
Proof. intros w H. split; [exact H|]. exists []. now rewrite app_nil_r. Qed.

Lemma confined_get_trace : confined I P get_trace.
Proof. intros w H. split; [exact H|]. exists []. now rewrite app_nil_r. Qed.

Lemma confined_emit e : P e = true -> confined I P (emit e).
Proof.
  intros He w H. split; [exact H|]. exists [e]. split; [reflexivity|].
  simpl. now rewrite He.
Qed.

Lemma confined_emits es : forallb P es = true -> confined I P (emits es).
Proof. intros He w H. split; [exact H|]. exists es. auto. Qed.

Lemma confined_modify_self g :
  (forall rt, I rt -> I (g rt)) -> confined I P (modify_self g).
Proof.
  intros Hg w H. split; [apply Hg; exact H|]. exists [].
  simpl. now rewrite app_nil_r.
Qed.

Lemma confined_bind {A B} (m : M A) (k : A -> M B) :
  confined I P m -> (forall a, confined I P (k a)) ->
  confined I P (bind m k).
Proof.
  intros Hm Hk w H. unfold bind. destruct (Hm w H) as (HI & es & Ht & HP).
  destruct (m w) as [[a|e] w1]; simpl in *.
  - destruct (Hk a w1 HI) as (HI' & es' & Ht' & HP').
    split; [exact HI'|]. exists (es ++ es'). split.
    + rewrite Ht', Ht. now rewrite app_assoc.
    + rewrite forallb_app, HP, HP'. reflexivity.
  - split; [exact HI|]. exists es. auto.
Qed.

(** Reading [self] gives a runtime that satisfies [I]. *)
Lemma confined_get_self {A} (k : RunRuntime -> M A) :
  (forall rt, I rt -> confined I P (k rt)) -> confined I P (bind get_self k).
Proof. intros Hk w H. rewrite bind_get_self. apply Hk; exact H. Qed.

Lemma confined_try {A} (body : M A) handler :
  confined I P body -> (forall err, confined I P (handler err)) ->
  confined I P (try_except_RunError body handler).
Proof.
  intros Hb Hh w H. unfold try_except_RunError.
  destruct (Hb w H) as (HI & es & Ht & HP).
  destruct (body w) as [[a|e] w1]; simpl in *.
  - split; [exact HI|]. exists es. auto.
  - destruct e; try (split; [exact HI|]; exists es; auto).
    destruct (Hh (PExc msg) w1 HI) as (HI' & es' & Ht' & HP').
    split; [exact HI'|]. exists (es ++ es'). split.
    + rewrite Ht', Ht. now rewrite app_assoc.
    + rewrite forallb_app, HP, HP'. reflexivity.
Qed.

End Confined.

Ltac confined_step :=
  first
    [ apply confined_ret | apply confined_raise | apply confined_lift
    | apply confined_get_trace
    | apply confined_emit; reflexivity
    | apply confined_bind; [|intro]
    | apply confined_try; [|intro]
    | match goal with
      | |- confined _ _ (if ?b then _ else _) => destruct b
      | |- confined _ _ (let (_, _) := ?x in _) => destruct x
      | |- confined _ _ (match ?x with _ => _ end) => destruct x
      end ].

Ltac confined_tac := intros; cbv zeta; repeat confined_step.

Ltac confined_if :=
  match goal with
  | |- confined _ _ (if ?b then _ else _) => destruct b
  end.

Section NoRunError.

Lemma no_RunError_ret {A} (a : A) : no_RunError (ret a).
Proof. intros w. reflexivity. Qed.

Lemma no_RunError_emit e : no_RunError (emit e).
Proof. intros w. reflexivity. Qed.

Lemma no_RunError_emits es : no_RunError (emits es).
Proof. intros w. reflexivity. Qed.

Lemma no_RunError_get_self : no_RunError get_self.
Proof. intros w. reflexivity. Qed.

Lemma no_RunError_get_trace : no_RunError get_trace.
Proof. intros w. reflexivity. Qed.

Lemma no_RunError_modify_self g : no_RunError (modify_self g).
Proof. intros w. reflexivity. Qed.

Lemma no_RunError_raise {A} e :
  is_RunError (@Raise A e) = false -> no_RunError (@raise A e).
Proof. intros H w. exact H. Qed.

Lemma no_RunError_lift {A} (r : result A) :
  is_RunError r = false -> no_RunError (lift r).
Proof. intros H w. exact H. Qed.

Lemma no_RunError_bind {A B} (m : M A) (k : A -> M B) :
  no_RunError m -> (forall a, no_RunError (k a)) -> no_RunError (bind m k).
Proof.
  intros Hm Hk w. unfold bind. specialize (Hm w).
  destruct (m w) as [[a|e] w1]; simpl in *; [apply Hk|].
  destruct e; simpl in *; congruence.
Qed.

(** A handler that does not raise RunError keeps it from leaving the
    [try], whatever the body does. *)
Lemma no_RunError_try {A} (body : M A) handler :
  (forall err, no_RunError (handler err)) ->
  no_RunError (try_except_RunError body handler).
Proof.
  intros Hh w. unfold try_except_RunError.
  destruct (body w) as [[a|e] w1]; [reflexivity|].
  destruct e; try reflexivity. apply Hh.
Qed.

Lemma update_in_no_RunError keys : forall obj v,
  is_RunError (update_in obj keys v) = false.
Proof.
  induction keys as [|k ks IH]; intros obj v; [reflexivity|].
  destruct obj; try reflexivity. destruct ks as [|k2 ks]; [reflexivity|].
  rewrite update_in_cons2.
  specialize (IH (match dict_get k d with
                  | Some s => s
                  | None => PDict []
                  end) v).
  destruct (update_in _ (k2 :: ks) v) as [sub|e]; [reflexivity|].
  destruct e; simpl in *; congruence.
Qed.

Lemma normalize_no_RunError resp err u :
  is_RunError (normalize resp err u) = false.
Proof.
  unfold normalize.
  destruct (negb _ && negb _).
  - pose proof (update_in_no_RunError ["status"; "state"] resp
                  (PStr "completed")) as H.
    destruct (update_in resp _ _) as [r|e]; [reflexivity|].
    destruct e; simpl in *; congruence.
  - pose proof (update_in_no_RunError ["status"; "state"] resp
                  (PStr "error")) as H.
    destruct (update_in resp _ _) as [r|e];
      [|destruct e; simpl in *; congruence].
    cbn [rbind]. destruct (truthy err); [|reflexivity].
    pose proof (update_in_no_RunError ["status"; "error"] r err) as H'.
    destruct (update_in r _ _) as [r'|e]; [reflexivity|].
    destruct e; simpl in *; congruence.
Qed.

End NoRunError.

Ltac no_RunError_step :=
  first
    [ apply no_RunError_ret | apply no_RunError_emit | apply no_RunError_emits
    | apply no_RunError_get_self | apply no_RunError_get_trace
    | apply no_RunError_modify_self
    | apply no_RunError_raise; reflexivity
    | apply no_RunError_lift; first [reflexivity | apply normalize_no_RunError]
    | apply no_RunError_bind; [|intro]
    | match goal with
      | |- no_RunError (if ?b then _ else _) => destruct b
      | |- no_RunError (let (_, _) := ?x in _) => destruct x
      | |- no_RunError (match ?x with _ => _ end) => destruct x
      end ].

Ltac no_RunError_tac := intros; cbv zeta; repeat no_RunError_step.

Section BatchNeverRaises.

Context (E : Env).

Lemma no_RunError__get_db_run t : no_RunError (_get_db_run E t).
Proof. unfold _get_db_run. no_RunError_tac. Qed.

Lemma no_RunError__post_run resp t err : no_RunError (_post_run E resp t err).
Proof.
  unfold _post_run. no_RunError_tac; try apply no_RunError__get_db_run;
    no_RunError_tac.
Qed.

Lemma no_RunError_run_task t : no_RunError (run_task E t).
Proof.
  unfold run_task. apply no_RunError_try. intros err.
  apply no_RunError__post_run.
Qed.

Lemma no_RunError__run_many_loop tasks : forall acc,
  no_RunError (_run_many_loop E tasks acc).
Proof.
  induction tasks as [|t tasks IH]; intros acc; cbn [_run_many_loop].
  - apply no_RunError_ret.
  - apply no_RunError_bind; [apply no_RunError_run_task|]. intro. apply IH.
Qed.

Lemma _run_many_loop_length tasks : forall acc w results w',
  _run_many_loop E tasks acc w = (Ok results, w') ->
  List.length results = (List.length acc + List.length tasks)%nat.
Proof.
  induction tasks as [|t tasks IH]; intros acc w results w' H;
    cbn [_run_many_loop] in H.
  - inversion H; subst. simpl. lia.
  - unfold bind in H. destruct (run_task E t w) as [[r|e] w1]; [|discriminate].
    apply IH in H. rewrite H, length_app. simpl. lia.
Qed.

Lemma bind_assoc {A B C} (m : M A) (k : A -> M B) (h : B -> M C) w :
  bind (bind m k) h w = bind m (fun a => bind (k a) h) w.
Proof.
  unfold bind. destruct (m w) as [[a|e] w1]; reflexivity.
Qed.

Lemma _run_many_loop_app a : forall b acc w,
  _run_many_loop E (a ++ b) acc w
  = bind (_run_many_loop E a acc) (fun r => _run_many_loop E b r) w.
Proof.
  induction a as [|t a IH]; intros b acc w; [reflexivity|].
  cbn [app _run_many_loop]. rewrite bind_assoc.
  apply bind_congr. intros r w1. apply IH.
Qed.

(** Whatever the backend and the store do, [_run_many] never lets a
    RunError out; when it returns, it returns one response per task; and a
    batch over [a ++ b] is the batch over [a] followed by the loop over
    [b], which appends to the responses of [a]. *)
Theorem _run_many_contains_RunError tasks a b w :
  is_RunError (fst (_run_many E tasks w)) = false
  /\ (forall results w',
        _run_many E tasks w = (Ok results, w') ->
        List.length results = List.length tasks)
  /\ _run_many E (a ++ b) w
     = bind (_run_many E a) (fun r => _run_many_loop E b r) w.
Proof.
  split; [apply no_RunError__run_many_loop|]. split.
  - intros results w' H. apply _run_many_loop_length in H. exact H.
  - apply _run_many_loop_app.
Qed.

End BatchNeverRaises.

(** ** The calls of a run *)

Lemma selector_logs rs c :
  forallb (fun e => match e with LogError _ => true | _ => false end)
    (fst (selector rs c)) = true.
Proof.
  unfold selector. destruct (negb (truthy c)); [reflexivity|].
  destruct c; try reflexivity.
  destruct (split_criteria s) as [op f].
  destruct (String.eqb op "max"); [reflexivity|].
  destruct (String.eqb op "min"); reflexivity.
Qed.

Section RunCalls.

Context (E : Env) (rt0 : RunRuntime).

Lemma may_call_store rt batch e :
  same_services rt0 rt -> _db_conn rt = true ->
  match e with
  | DbStoreRun _ _ _ _ | DbReadRun _ _ | DbUpdateRun _ _ _ => true
  | _ => false
  end = true ->
  may_call rt0 batch e = true.
Proof.
  intros (_ & _ & H) Hc He. destruct e; try discriminate; simpl; auto.
Qed.

Lemma confined_store_run batch t c :
  confined (same_services rt0) (may_call rt0 batch) (store_run E t c).
Proof.
  unfold store_run. apply confined_get_self. intros rt HI.
  destruct (_db_conn rt) eqn:Hc; [|apply confined_ret].
  apply confined_emit. eapply may_call_store; eauto.
Qed.

Lemma confined__get_db_run batch t :
  confined (same_services rt0) (may_call rt0 batch) (_get_db_run E t).
Proof.
  unfold _get_db_run. apply confined_get_self. intros rt HI.
  destruct t as [t|]; [|apply confined_ret].
  destruct (_db_conn rt) eqn:Hc; [|apply confined_ret].
  apply confined_bind; [apply confined_get_trace|]. intros h.
  apply confined_bind; [|intros; apply confined_ret].
  apply confined_emit. eapply may_call_store; eauto.
Qed.

Lemma confined__post_run batch resp t err :
  confined (same_services rt0) (may_call rt0 batch) (_post_run E resp t err).
Proof.
  unfold _post_run. apply confined_bind.
  { destruct (is_None resp); [|apply confined_ret].
    destruct t; [apply confined__get_db_run|apply confined_ret]. }
  intros r. destruct (is_None r); [apply confined_ret|].
  destruct (negb (is_dict r)); [apply confined_raise|].
  apply confined_bind; [apply confined_get_trace|]. intros h.
  apply confined_bind; [apply confined_lift|]. intros [u r1].
  apply confined_get_self. intros rt HI.
  apply confined_bind; [|intros; apply confined_ret].
  destruct (_db_conn rt) eqn:Hc; [|apply confined_ret].
  apply confined_emit. eapply may_call_store; eauto.
Qed.

Lemma confined_run_task batch t :
  confined (same_services rt0) (may_call rt0 batch) (run_task E t).
Proof.
  unfold run_task. apply confined_try.
  - apply confined_bind; [apply confined_store_run|]. intros _.
    apply confined_bind; [apply confined_lift|]. intros resp.
    apply confined__post_run.
  - intros err. apply confined__post_run.
Qed.

Lemma confined__run_many_loop batch tasks : forall acc,
  confined (same_services rt0) (may_call rt0 batch)
    (_run_many_loop E tasks acc).
Proof.
  induction tasks as [|t tasks IH]; intros acc; cbn [_run_many_loop].
  - apply confined_ret.
  - apply confined_bind; [apply confined_run_task|]. intro. apply IH.
Qed.

Lemma confined_results_loop batch runspec todo : forall iter failed done,
  confined (same_services rt0) (may_call rt0 batch)
    (results_loop E runspec todo iter failed done).
Proof.
  induction todo as [|t todo IH]; intros iter failed done;
    cbn [results_loop].
  - apply confined_ret.
  - cbv zeta. apply confined_bind.
    { destruct (eq_str _ "error"); [|apply confined_ret].
      apply confined_bind; [apply confined_emit; reflexivity|].
      intros; apply confined_ret. }
    intros f. apply confined_bind; [apply confined__post_run|].
    intro. apply IH.
Qed.

Lemma confined__results_to_iter results runspec :
  confined (same_services rt0) (may_call rt0 true)
    (_results_to_iter E results runspec).
Proof.
  unfold _results_to_iter. destruct results as [|r results].
  - apply confined_emit. reflexivity.
  - apply confined_bind; [apply confined_results_loop|].
    intros [[iter failed] done].
    destruct (iteration_table E iter) as [summary csv].
    pose proof (selector_logs done (selector_criteria (spec runspec))) as H.
    destruct (selector done (selector_criteria (spec runspec)))
      as [logged sel].
    apply confined_bind.
    { apply confined_emits. simpl in H. clear -H.
      induction logged as [|e es IH]; [reflexivity|].
      simpl in *. apply andb_prop in H. destruct H as [He Hes].
      destruct e; try discriminate. simpl. apply IH. exact Hes. }
    intros _. apply confined_bind; [apply confined_lift|].
    intros [item id]. confined_tac.
Qed.

Lemma confined_show batch resp :
  confined (same_services rt0) (may_call rt0 batch) (show resp).
Proof. unfold show. confined_tac. Qed.

Lemma same_services_refl : same_services rt0 rt0.
Proof. repeat split. intros H. rewrite H. reflexivity. Qed.

(** [_write_kfpmeta] changes nothing on the runtime and only writes
    files. *)
Lemma confined__write_kfpmeta (I : RunRuntime -> Prop) (P : event -> bool)
    struct :
  (forall path content, P (WriteFile path content) = true) ->
  confined I P (_write_kfpmeta E struct).
Proof.
  intros HP. unfold _write_kfpmeta, write_file.
  repeat first
    [ apply confined_ret | apply confined_raise | apply confined_lift
    | apply confined_emit; apply HP
    | apply confined_emits; apply forallb_forall; intros e He;
      apply in_map_iff in He; destruct He as (f & <- & _); apply HP
    | apply confined_bind; [|intro]
    | match goal with
      | |- confined _ _ (if ?b then _ else _) => destruct b
      | |- confined _ _ (match ?x with _ => _ end) => destruct x
      end ].
Qed.

Ltac confined_kfp_step HI :=
  match goal with
  | |- confined _ _ (if truthy ?resp && kfp ?rt then _ else _) =>
      let Hk := fresh "Hk" in
      destruct (truthy resp && kfp rt) eqn:Hk; [|apply confined_ret];
      apply andb_prop in Hk; destruct Hk as [_ Hk];
      apply confined__write_kfpmeta; intros; simpl;
      destruct HI as (HIk & _ & _); congruence
  end.

Ltac confined_batch HI :=
  apply confined_bind; [apply confined__run_many_loop|]; intros ?;
  apply confined_bind; [apply confined__results_to_iter|]; intros _;
  apply confined_bind; [apply confined_get_trace|]; intros ?;
  apply confined_bind; [confined_kfp_step HI|]; intros _;
  apply confined_show.

(** [run], from a runtime that is as [rt0] in its services, makes only
    the calls [may_call] allows. *)
Lemma confined_run runspec handler_ name_ project_ params inputs_ :
  confined (same_services rt0)
    (may_call rt0 (truthy (hyperparams (spec runspec))
                   || truthy (param_file (spec runspec))))
    (run E runspec handler_ name_ project_ params inputs_).
Proof.
  unfold run. apply confined_get_self. intros rt HI. cbv zeta.
  apply confined_bind.
  { confined_if; [|apply confined_ret].
    match goal with
    | |- confined _ _ (match ?x with _ => _ end) => destruct x
    end; try apply confined_raise.
    apply confined_modify_self. intros rt1 H1. exact H1. }
  intros _. apply confined_bind.
  { confined_if; [|apply confined_ret].
    apply confined_modify_self. intros rt1 H1. exact H1. }
  intros _. apply confined_bind; [apply confined_get_trace|]. intros h.
  apply confined_bind; [apply confined_emit; reflexivity|]. intros _.
  apply confined_bind.
  { destruct (nonempty (spec_rundb (rt_spec rt))) eqn:Hr; [|apply confined_ret].
    destruct HI as (_ & HIr & _).
    apply confined_bind.
    - apply confined_emit. simpl. rewrite <- HIr. exact Hr.
    - intros _. apply confined_modify_self.
      intros rt1 (H1 & H2 & H3). repeat split; auto.
      intros _. rewrite <- HIr, Hr. apply orb_true_r. }
  intros _. destruct (add_code_metadata E _) as [lbls coded].
  apply confined_bind; [apply confined_lift|]. intros _.
  apply confined_bind; [apply confined_emit; reflexivity|].
  intros _. cbn [hyperparams param_file].
  apply confined_bind.
  - destruct (truthy (hyperparams (spec runspec))) eqn:Hh.
    + cbn [orb]. unfold _run_many. confined_batch HI.
    + destruct (truthy (param_file (spec runspec))) eqn:Hp.
      * cbn [orb]. unfold _run_many. confined_batch HI.
      * cbn [orb]. apply confined_try.
        -- apply confined_bind; [apply confined_store_run|]. intros _.
           apply confined_bind; [apply confined_lift|]. intros resp.
           apply confined_bind; [confined_kfp_step HI|]. intros _.
           apply confined_bind; [apply confined__post_run|].
           intros; apply confined_show.
        -- intros err.
           apply confined_bind; [apply confined_emit; reflexivity|].
           intros _.
           apply confined_bind; [apply confined__post_run|].
           intros; apply confined_show.
  - intros result. confined_if; [|apply confined_ret].
    apply confined_bind; [apply confined_emit; reflexivity|]. intros _.
    confined_if; [apply confined_raise|apply confined_ret].
Qed.

End RunCalls.

(** Whether it returns or raises, [run] only appends to the record, and
    what it appends is bounded by the runtime it starts from: it calls
    the store only if one is connected or configured, writes pipeline
    metadata only under a pipeline, records a batch summary only for a
    sweep or a parameter file, and never calls the cluster or the
    builder. *)
Theorem run_calls_within (E : Env) runspec handler_ name_ project_ params
    inputs_ w :
  exists es,
    trace (snd (run E runspec handler_ name_ project_ params inputs_ w))
    = trace w ++ es
    /\ forallb (may_call (self w)
                  (truthy (hyperparams (spec runspec))
                   || truthy (param_file (spec runspec)))) es = true.
Proof.
  destruct (confined_run E (self w) runspec handler_ name_ project_ params
              inputs_ w (same_services_refl (self w))) as (_ & es & H).
  exists es. exact H.
Qed.

(** ** What a batch run can raise *)

Lemma improves_no_RunError op val best_val :
  is_RunError (improves op val best_val) = false.
Proof.
  unfold improves, py_gt, py_lt.
  destruct (String.eqb op "max");
    [|destruct (String.eqb op "min"); [|reflexivity]].
  - destruct (num_of best_val), (num_of val); try reflexivity;
      destruct best_val, val; reflexivity.
  - destruct (num_of val), (num_of best_val); try reflexivity;
      destruct val, best_val; reflexivity.
Qed.

Lemma selector_scan_no_RunError op criteria rs : forall i b,
  is_RunError (selector_scan op criteria rs i b) = false.
Proof.
  induction rs as [|t rs IH]; intros i b; [reflexivity|].
  cbn [selector_scan]. cbv zeta.
  destruct (candidate criteria t); [|apply IH].
  pose proof (improves_no_RunError op
                (get_in t ["status"; "outputs"; criteria] PNone)
                (best_val b)) as H.
  destruct (improves op _ (best_val b)) as [better|e]; [apply IH|].
  destruct e; simpl in *; congruence.
Qed.

Lemma selector_no_RunError rs c : is_RunError (snd (selector rs c)) = false.
Proof.
  unfold selector. destruct (negb (truthy c)); [reflexivity|].
  destruct c; try reflexivity.
  destruct (split_criteria s) as [op f].
  destruct (String.eqb op "max").
  - simpl. pose proof (selector_scan_no_RunError op f rs 0
                         (mkBest (PInt 0) 0 (PFloat float_info_min))) as H.
    destruct (selector_scan op f rs 0 _) as [b|e]; [reflexivity|].
    destruct e; simpl in *; congruence.
  - destruct (String.eqb op "min"); [|reflexivity].
    simpl. pose proof (selector_scan_no_RunError op f rs 0
                         (mkBest (PInt 0) 0 (PFloat float_info_max))) as H.
    destruct (selector_scan op f rs 0 _) as [b|e]; [reflexivity|].
    destruct e; simpl in *; congruence.
Qed.

Section BatchRun.

Context (E : Env).

Lemma no_RunError_results_loop runspec todo : forall iter failed done,
  no_RunError (results_loop E runspec todo iter failed done).
Proof.
  induction todo as [|t todo IH]; intros iter failed done;
    cbn [results_loop].
  - apply no_RunError_ret.
  - cbv zeta. apply no_RunError_bind; [no_RunError_tac|]. intro.
    apply no_RunError_bind; [apply no_RunError__post_run|]. intro. apply IH.
Qed.

Lemma no_RunError__results_to_iter results runspec :
  no_RunError (_results_to_iter E results runspec).
Proof.
  unfold _results_to_iter. destruct results as [|r results].
  - apply no_RunError_emit.
  - apply no_RunError_bind; [apply no_RunError_results_loop|].
    intros [[iter failed] done].
    destruct (iteration_table E iter) as [summary csv].
    pose proof (selector_no_RunError done (selector_criteria (spec runspec)))
      as H.
    destruct (selector done (selector_criteria (spec runspec)))
      as [logged sel].
    apply no_RunError_bind; [apply no_RunError_emits|]. intros _.
    apply no_RunError_bind; [apply no_RunError_lift; exact H|].
    intros [item id]. no_RunError_tac.
Qed.

Lemma from_builtin_no_RunError {A} (r : builtin_exn + A) :
  is_RunError (from_builtin r) = false.
Proof. destruct r; reflexivity. Qed.

Lemma add_code_metadata_no_RunError labels :
  is_RunError (snd (add_code_metadata E labels)) = false.
Proof.
  unfold add_code_metadata.
  destruct (git_remotes E) as [[|url urls]| |e]; try reflexivity.
  destruct (git_commit E); reflexivity.
Qed.

Lemma py_contains_no_RunError v k : is_RunError (py_contains v k) = false.
Proof. destruct v; reflexivity. Qed.

Lemma py_getitem_no_RunError v k : is_RunError (py_getitem v k) = false.
Proof.
  destruct v; try reflexivity. simpl. destruct (dict_get k d); reflexivity.
Qed.

Lemma py_get_no_RunError v k default :
  is_RunError (py_get v k default) = false.
Proof. destruct v; reflexivity. Qed.

Lemma py_items_no_RunError v : is_RunError (py_items v) = false.
Proof. destruct v; reflexivity. Qed.

Lemma py_iter_no_RunError v : is_RunError (py_iter v) = false.
Proof. destruct v; reflexivity. Qed.

Lemma py_head_tail_no_RunError v : is_RunError (py_head_tail v) = false.
Proof.
  destruct v as [| | | | |s| |l|d]; try reflexivity;
    [destruct s|destruct l]; reflexivity.
Qed.

(** What [_write_kfpmeta] raises comes from Python or from the code
    outside this module: it is never RunError. *)
Lemma no_RunError__write_kfpmeta struct :
  no_RunError (_write_kfpmeta E struct).
Proof.
  unfold _write_kfpmeta, write_file.
  repeat first
    [ apply no_RunError_ret | apply no_RunError_emit | apply no_RunError_emits
    | apply no_RunError_lift;
      first [ apply from_builtin_no_RunError | apply py_contains_no_RunError
            | apply py_getitem_no_RunError | apply py_get_no_RunError
            | apply py_items_no_RunError | apply py_iter_no_RunError
            | apply py_head_tail_no_RunError
            | match goal with
              | |- is_RunError (match ?x with _ => _ end) = false =>
                  destruct x; reflexivity
              end ]
    | apply no_RunError_bind; [|intro]
    | match goal with
      | |- no_RunError (if ?b then _ else _) => destruct b
      | |- no_RunError (match ?x with _ => _ end) => destruct x
      end ].
Qed.

Ltac no_RunError_report :=
  apply no_RunError_bind; [apply no_RunError_get_trace|]; intros ?;
  apply no_RunError_bind;
  [destruct (_ && _);
   [apply no_RunError__write_kfpmeta|apply no_RunError_ret]|];
  intros _; unfold show; no_RunError_tac.

(** A run over a sweep or a parameter file raises RunError for no
    failure of its tasks, of the backend or of the store: the only
    RunError it can raise is for a submitted task that is itself in
    state error. *)
Theorem batch_run_raises_no_RunError runspec handler_ name_ project_ params
    inputs_ w :
  truthy (hyperparams (spec runspec)) = true
  \/ truthy (param_file (spec runspec)) = true ->
  eq_str (state (status runspec)) "error" = false ->
  is_RunError (fst (run E runspec handler_ name_ project_ params inputs_ w))
  = false.
Proof.
  intros Hgen Hst. revert w.
  change (no_RunError (run E runspec handler_ name_ project_ params inputs_)).
  unfold run. apply no_RunError_bind; [apply no_RunError_get_self|].
  intros rt. cbv zeta.
  apply no_RunError_bind; [no_RunError_tac|]. intros _.
  apply no_RunError_bind; [no_RunError_tac|]. intros _.
  apply no_RunError_bind; [no_RunError_tac|]. intros h.
  apply no_RunError_bind; [no_RunError_tac|]. intros _.
  apply no_RunError_bind; [no_RunError_tac|]. intros _.
  pose proof (add_code_metadata_no_RunError) as Hcode.
  match goal with
  | |- context [add_code_metadata E ?l] =>
      specialize (Hcode l); destruct (add_code_metadata E l) as [lbls coded]
  end.
  apply no_RunError_bind; [apply no_RunError_lift; exact Hcode|]. intros _.
  apply no_RunError_bind; [no_RunError_tac|]. intros _.
  cbn [hyperparams param_file status].
  apply no_RunError_bind.
  - destruct Hgen as [Hh|Hp].
    + rewrite Hh.
      apply no_RunError_bind; [apply no_RunError__run_many_loop|]. intros r.
      apply no_RunError_bind; [apply no_RunError__results_to_iter|].
      intros _. no_RunError_report.
    + rewrite Hp. destruct (truthy (hyperparams (spec runspec)));
        (apply no_RunError_bind; [apply no_RunError__run_many_loop|];
         intros r;
         apply no_RunError_bind; [apply no_RunError__results_to_iter|];
         intros _; no_RunError_report).
  - intros result. rewrite Hst. no_RunError_tac.
Qed.

End BatchRun.

Lemma batch_run_raises_no_RunError_witness :
  is_RunError
    (fst (run (demo_env_with failing_backend "running" false) sweep_task
            PNone PNone PNone PNone PNone (demo_world "" "" false)))
  = false.
Proof.
  apply (batch_run_raises_no_RunError
           (demo_env_with failing_backend "running" false) sweep_task
           PNone PNone PNone PNone PNone (demo_world "" "" false)).
  - left. reflexivity.
  - reflexivity.
Defined.

(** ** Selection on values that are not numbers *)

Section NotANumber.

Context (op : string) (Hop : op = "max" \/ op = "min").

Lemma improves_not_a_number val best_val :
  is_number best_val = true -> is_number val = false ->
  improves op val best_val = Raise TypeError.
Proof.
  intros Hb Hv. unfold improves, py_gt, py_lt.
  destruct Hop; subst; simpl;
    destruct best_val; try discriminate; destruct val; try discriminate;
    reflexivity.
Qed.

(** Two numbers compare, whatever they are. *)
Lemma improves_number val best_val :
  is_number best_val = true -> is_number val = true ->
  exists better, improves op val best_val = Ok better.
Proof.
  intros Hb Hv. unfold improves, py_gt, py_lt.
  destruct Hop; subst; simpl;
    destruct best_val; try discriminate; destruct val; try discriminate;
    eexists; reflexivity.
Qed.

(** The scan raises TypeError at the first candidate whose value is not
    a number: the running best is always a number. *)
Lemma selector_scan_not_a_number criteria rs : forall i b0,
  is_number (best_val b0) = true ->
  (exists t, In t rs /\ candidate criteria t = true
             /\ is_number (output_value criteria t) = false) ->
  selector_scan op criteria rs i b0 = Raise TypeError.
Proof.
  induction rs as [|t rs IH]; intros i b0 Hv0 (t0 & Hin & Hc0 & Hn0);
    [destruct Hin|].
  cbn [selector_scan]. cbv zeta. fold (output_value criteria t).
  destruct (candidate criteria t) eqn:Hc.
  - destruct (is_number (output_value criteria t)) eqn:Hq.
    + destruct (improves_number _ _ Hv0 Hq) as (better & Hi).
      rewrite Hi. cbn [rbind].
      assert (Hrest : exists t1, In t1 rs /\ candidate criteria t1 = true
                                 /\ is_number (output_value criteria t1)
                                    = false).
      { destruct Hin as [<-|Hin]; [congruence|]. exists t0. auto. }
      destruct better.
      * eapply IH; [|exact Hrest]. exact Hq.
      * eapply IH; [exact Hv0|exact Hrest].
    + rewrite (improves_not_a_number _ _ Hv0 Hq). reflexivity.
  - eapply IH; [exact Hv0|].
    destruct Hin as [<-|Hin]; [congruence|]. exists t0. auto.
Qed.

(** The scan over candidates whose values are all numbers returns. *)
Lemma selector_scan_numbers criteria rs : forall i b0,
  is_number (best_val b0) = true ->
  (forall t, In t rs -> candidate criteria t = true ->
             is_number (output_value criteria t) = true) ->
  exists b, selector_scan op criteria rs i b0 = Ok b.
Proof.
  induction rs as [|t rs IH]; intros i b0 Hv0 Hnum; [eexists; reflexivity|].
  cbn [selector_scan]. cbv zeta. fold (output_value criteria t).
  assert (Hnum' : forall t', In t' rs -> candidate criteria t' = true ->
                    is_number (output_value criteria t') = true)
    by (intros t' Hin; apply Hnum; right; exact Hin).
  destruct (candidate criteria t) eqn:Hc; [|apply IH; assumption].
  pose proof (Hnum t (or_introl eq_refl) Hc) as Hq.
  destruct (improves_number _ _ Hv0 Hq) as (better & Hi).
  rewrite Hi. cbn [rbind]. destruct better; apply IH; assumption.
Qed.

End NotANumber.

(** The selector raises the TypeError of its scan. *)
Lemma selector_not_a_number rs c op criteria :
  c <> "" -> split_criteria c = (op, criteria) ->
  op = "max" \/ op = "min" ->
  (exists t, In t rs /\ candidate criteria t = true
             /\ is_number (output_value criteria t) = false) ->
  selector rs (PStr c) = ([], Raise TypeError).
Proof.
  intros Hc Hsplit Hop Hbad.
  unfold selector.
  assert (Htruthy : negb (truthy (PStr c)) = false).
  { simpl. apply String.eqb_neq in Hc. now rewrite Hc. }
  rewrite Htruthy, Hsplit.
  destruct Hop; subst op; simpl.
  - rewrite (selector_scan_not_a_number "max" (or_introl eq_refl) criteria rs
               0 (mkBest (PInt 0) 0 (PFloat float_info_min)) eq_refl Hbad).
    reflexivity.
  - rewrite (selector_scan_not_a_number "min" (or_intror eq_refl) criteria rs
               0 (mkBest (PInt 0) 0 (PFloat float_info_max)) eq_refl Hbad).
    reflexivity.
Qed.

(** Selecting on an output that is not a number.  For a max or min
    criterion the selector raises TypeError exactly when some task that
    is not in state error has, for the field of the criterion, a value
    that is neither a number (an int or a float, NaN and the infinities
    among them) nor None, such as a string, a list or a dictionary,
    whatever the other tasks hold; and it raises nothing else. *)
Theorem selector_raises_on_non_number rs c op criteria :
  c <> "" -> split_criteria c = (op, criteria) ->
  op = "max" \/ op = "min" ->
  (selector rs (PStr c) = ([], Raise TypeError)
   <-> exists t, In t rs /\ candidate criteria t = true
                 /\ is_number (output_value criteria t) = false)
  /\ (forall e, snd (selector rs (PStr c)) = Raise e -> e = TypeError).
Proof.
  intros Hc Hsplit Hop.
  assert (Hcases :
    (exists t, In t rs /\ candidate criteria t = true
               /\ is_number (output_value criteria t) = false)
    \/ exists r, selector rs (PStr c) = ([], Ok r)).
  { destruct (existsb
                (fun t => candidate criteria t
                          && negb (is_number (output_value criteria t)))
                rs) eqn:Hex.
    - left. apply existsb_exists in Hex. destruct Hex as (t & Hin & Ht).
      apply andb_prop in Ht. destruct Ht as [Hct Hn].
      exists t. repeat split; auto.
      destruct (is_number (output_value criteria t));
        [discriminate|reflexivity].
    - right.
      assert (Hnum : forall t, In t rs -> candidate criteria t = true ->
                       is_number (output_value criteria t) = true).
      { intros t Hin Hct.
        destruct (is_number (output_value criteria t)) eqn:Hq;
          [reflexivity|].
        assert (Hyes : existsb
                         (fun t => candidate criteria t
                                   && negb (is_number
                                              (output_value criteria t)))
                         rs = true).
        { apply existsb_exists. exists t. rewrite Hct, Hq. auto. }
        congruence. }
      destruct (selector_scan_numbers op Hop criteria rs 0
                  (mkBest (PInt 0) 0 (PFloat (sentinel op)))
                  eq_refl Hnum) as (b & Hscan).
      exists (best_item b, best_id b). unfold selector.
      assert (Htruthy : negb (truthy (PStr c)) = false).
      { simpl. apply String.eqb_neq in Hc. now rewrite Hc. }
      rewrite Htruthy, Hsplit. unfold sentinel in Hscan.
      destruct Hop; subst op; simpl in *; rewrite Hscan; reflexivity. }
  split; [split|].
  - intros Hraise. destruct Hcases as [Hbad|[r Hr]]; [exact Hbad|].
    congruence.
  - intros Hbad.
    apply selector_not_a_number with (op := op) (criteria := criteria);
      assumption.
  - intros e He. destruct Hcases as [Hbad|[r Hr]].
    + rewrite (selector_not_a_number rs c op criteria Hc Hsplit Hop Hbad)
        in He.
      inversion He. reflexivity.
    + rewrite Hr in He. discriminate.
Qed.

Lemma selector_raises_on_non_number_witness :
  selector
    [task_payload 1 "completed" [("model", PFloat (9 # 10))];
     task_payload 2 "completed" [("model", PStr "model.pkl")]]
    (PStr "max.model")
  = ([], Raise TypeError).
Proof.
  apply (selector_raises_on_non_number
           [task_payload 1 "completed" [("model", PFloat (9 # 10))];
            task_payload 2 "completed" [("model", PStr "model.pkl")]]
           "max.model" "max" "model").
  - discriminate.
  - reflexivity.
  - left. reflexivity.
  - exists (task_payload 2 "completed" [("model", PStr "model.pkl")]).
    split; [right; left; reflexivity|]. split; reflexivity.
Defined.

Lemma may_call_no_summary rt e :
  may_call rt false e = true -> summary_call e = false.
Proof. destruct e; simpl; auto; discriminate. Qed.

Lemma forallb_impl {A} (P Q : A -> bool) l :
  (forall x, P x = true -> Q x = true) ->
  forallb P l = true -> forallb Q l = true.
Proof.
  intros H. induction l as [|x l IH]; [reflexivity|]. simpl.
  intros Hl. apply andb_prop in Hl. destruct Hl as [Hx Hl].
  rewrite (H x Hx), (IH Hl). reflexivity.
Qed.

(** A sweep selected on an output that is not a number has no summary:
    after the results are normalized, [_results_to_iter] raises the
    TypeError of the selector, and the iteration results, the artifact
    and the state of the batch are never recorded. *)
Theorem summary_lost_on_non_number (E : Env) results runspec c op criteria w :
  Forall terminal results ->
  selector_criteria (spec runspec) = PStr c ->
  c <> "" -> split_criteria c = (op, criteria) ->
  op = "max" \/ op = "min" ->
  (exists t, In t results /\ candidate criteria t = true
             /\ is_number (output_value criteria t) = false) ->
  exists w' es,
    _results_to_iter E results runspec w = (Raise TypeError, w')
    /\ trace w' = trace w ++ es
    /\ forallb (fun e => negb (summary_call e)) es = true.
Proof.
  intros Ht Hcrit Hc Hsplit Hop Hbad.
  assert (Hne : results <> []).
  { destruct Hbad as (t & Hin & _). destruct results; [destruct Hin|discriminate]. }
  unfold _results_to_iter.
  destruct results as [|r0 rs] eqn:Hres; [congruence|]. rewrite <- Hres in *.
  destruct (results_loop_terminal E runspec results Ht [] 0%nat [] w)
    as (iter' & w1 & H1 & _).
  destruct (confined_results_loop E (self w) false runspec results [] 0%nat []
              w (same_services_refl (self w))) as (_ & es & Hes & HP).
  rewrite H1 in Hes. cbn [snd] in Hes.
  unfold bind at 1. rewrite H1. cbn [app].
  destruct (iteration_table E iter') as [summary csv].
  rewrite Hcrit, (selector_not_a_number results c op criteria
                    Hc Hsplit Hop Hbad).
  exists (mkWorld (self w1) (trace w1 ++ [])), es.
  split; [reflexivity|]. cbn [trace]. rewrite app_nil_r. split; [exact Hes|].
  eapply forallb_impl; [|exact HP].
  intros e He. rewrite (may_call_no_summary _ _ He). reflexivity.
Qed.

Lemma summary_lost_on_non_number_witness :
  let results :=
    [PDict [("status", PDict [("state", PStr "completed");
                              ("outputs",
                               PDict [("accuracy", PStr "high")])])]]
  in
  exists w' es,
    _results_to_iter demo_env results sweep_task (demo_world "" "" false)
    = (Raise TypeError, w')
    /\ trace w' = trace (demo_world "" "" false) ++ es
    /\ forallb (fun e => negb (summary_call e)) es = true.
Proof.
  apply (summary_lost_on_non_number demo_env
           [PDict [("status", PDict [("state", PStr "completed");
                                     ("outputs",
                                      PDict [("accuracy", PStr "high")])])]]
           sweep_task "max.accuracy" "max" "accuracy"
           (demo_world "" "" false)).
  - constructor; [|constructor]. left. reflexivity.
  - reflexivity.
  - discriminate.
  - reflexivity.
  - left. reflexivity.
  - eexists. split; [left; reflexivity|]. split; reflexivity.
Defined.

(** ** What _post_run changes, and what it sends *)

Lemma update_in_sibling_get a b c ks obj x obj' default :
  b <> c -> update_in obj [a; c] x = Ok obj' ->
  get_in obj' (a :: b :: ks) default = get_in obj (a :: b :: ks) default.
Proof.
  intros Hne Hu. destruct obj; try discriminate.
  rewrite update_in_cons2 in Hu. cbn [get_in].
  destruct (dict_get a d) as [s|] eqn:Hg.
  - destruct s; try discriminate. cbn in Hu. inversion Hu; subst.
    cbn [get_in]. rewrite dict_get_set_eq.
    rewrite dict_get_set_ne by congruence. reflexivity.
  - cbn in Hu. inversion Hu; subst. cbn [get_in].
    rewrite dict_get_set_eq. cbn [dict_get].
    apply String.eqb_neq in Hne. rewrite String.eqb_sym in Hne.
    rewrite Hne. reflexivity.
Qed.

Lemma has_path_error_get r v :
  has_path r ["status"; "error"] v ->
  get_in r ["status"; "error"] PNone = v.
Proof. apply has_path_get_in. discriminate. Qed.

(** The three cases of the normalization, with what each leaves of the
    error message and of the rest of the payload. *)
Lemma normalize_outcome resp err u u1 r1 :
  normalize resp err u = Ok (u1, r1) ->
  (forall k ks default, k <> "status" ->
     get_in r1 (k :: ks) default = get_in resp (k :: ks) default)
  /\ (forall k ks default, k <> "state" -> k <> "error" ->
        get_in r1 ("status" :: k :: ks) default
        = get_in resp ("status" :: k :: ks) default)
  /\ (if truthy err then
        has_path r1 ["status"; "state"] (PStr "error")
        /\ has_path r1 ["status"; "error"] err
      else
        get_in r1 ["status"; "error"] PNone
        = get_in resp ["status"; "error"] PNone
        /\ has_path r1 ["status"; "state"]
             (if eq_str (get_in resp ["status"; "state"] (PStr "")) "error"
              then PStr "error" else PStr "completed")).
Proof.
  unfold normalize.
  destruct (truthy err) eqn:Ht.
  - rewrite andb_false_r.
    destruct (update_in resp ["status"; "state"] (PStr "error"))
      as [r|] eqn:Hu; cbn [rbind]; [|discriminate].
    destruct (update_in r ["status"; "error"] err) as [r'|] eqn:Hu';
      cbn [rbind]; [|discriminate].
    intros H; inversion H; subst. repeat split.
    + intros k ks default Hk.
      transitivity (get_in r (k :: ks) default);
        (eapply update_in_other_head; [|eassumption]; congruence).
    + intros k ks default Hk1 Hk2.
      transitivity (get_in r ("status" :: k :: ks) default);
        (eapply update_in_sibling_get; [|eassumption]; congruence).
    + eapply update_in_sibling; [|eapply update_in_has_path; [|exact Hu]
                                 |exact Hu']; discriminate.
    + eapply update_in_has_path; [discriminate|exact Hu'].
  - rewrite andb_true_r.
    destruct (eq_str (get_in resp ["status"; "state"] (PStr "")) "error");
      cbn [negb].
    + destruct (update_in resp ["status"; "state"] (PStr "error"))
        as [r|] eqn:Hu; cbn [rbind]; [|discriminate].
      intros H; inversion H; subst. repeat split.
      * intros k ks default Hk.
        eapply update_in_other_head; [|eassumption]; congruence.
      * intros k ks default Hk1 Hk2.
        eapply update_in_sibling_get; [|eassumption]; congruence.
      * eapply (update_in_sibling_get "status" "error" "state" []);
          [|eassumption]; discriminate.
      * eapply update_in_has_path; [discriminate|exact Hu].
    + destruct (update_in resp ["status"; "state"] (PStr "completed"))
        as [r|] eqn:Hu; cbn [rbind]; [|discriminate].
      intros H; inversion H; subst. repeat split.
      * intros k ks default Hk.
        eapply update_in_other_head; [|eassumption]; congruence.
      * intros k ks default Hk1 Hk2.
        eapply update_in_sibling_get; [|eassumption]; congruence.
      * eapply (update_in_sibling_get "status" "error" "state" []);
          [|eassumption]; discriminate.
      * eapply update_in_has_path; [discriminate|exact Hu].
Qed.

(** The updates for the store agree with the payload that is returned. *)
Lemma normalize_updates resp err stamp u1 r1 :
  normalize resp err [("status.last_update", stamp)] = Ok (u1, r1) ->
  dict_get "status.last_update" u1 = Some stamp
  /\ dict_get "status.state" u1 = Some (get_in r1 ["status"; "state"] PNone)
  /\ dict_get "status.error" u1
     = (if in_error r1 && truthy (get_in r1 ["status"; "error"] PNone)
        then Some (get_in r1 ["status"; "error"] PNone) else None).
Proof.
  intros H. pose proof (normalize_result _ _ _ _ _ H) as Hres.
  unfold normalize in H.
  destruct (negb _ && negb (truthy err)) eqn:Hc.
  - destruct (update_in resp _ _) as [r|] eqn:Hu; cbn [rbind] in H;
      [|discriminate].
    inversion H; subst. clear H.
    apply update_in_has_path in Hu; [|discriminate].
    unfold in_error.
    rewrite (has_path_get_in r1 ["status"; "state"] (PStr "completed") PNone)
      by (discriminate || exact Hu).
    repeat split.
  - destruct (update_in resp _ _) as [r|] eqn:Hu; cbn [rbind] in H;
      [|discriminate].
    assert (Hst : has_path r1 ["status"; "state"] (PStr "error")).
    { destruct Hres as [[Hf Hp]|[Hp _]]; [|exact Hp].
      destruct (truthy err); [discriminate|].
      cbn [rbind] in H. inversion H; subst.
      eapply update_in_has_path; [discriminate|exact Hu]. }
    unfold in_error.
    rewrite (has_path_get_in r1 ["status"; "state"] (PStr "error") PNone)
      by (discriminate || exact Hst).
    cbn [eq_str String.eqb andb].
    assert (Hu1 : exists r', (if truthy err
                              then update_in r ["status"; "error"] err
                              else Ok r) = Ok r'
                             /\ r1 = r'
                             /\ u1 = (if truthy
                                           (get_in r' ["status"; "error"] PNone)
                                      then dict_set "status.error"
                                             (get_in r' ["status"; "error"]
                                                PNone)
                                             (dict_set "status.state"
                                                (PStr "error")
                                                [("status.last_update",
                                                  stamp)])
                                      else dict_set "status.state"
                                             (PStr "error")
                                             [("status.last_update", stamp)])).
    { destruct (if truthy err then update_in r ["status"; "error"] err
                else Ok r) as [r'|]; cbn [rbind] in H; [|discriminate].
      inversion H; subst. exists r1. auto. }
    destruct Hu1 as (r' & _ & <- & ->).
    destruct (truthy (get_in r1 ["status"; "error"] PNone)); repeat split.
Qed.

Section PostRunEffects.

Context (E : Env).

(** [_post_run] on a payload that is given touches nothing but the
    state and the error of its status: a local error always wins (state
    error, and the message replaces any the payload held); without one,
    a payload in state error stays in error and any other state becomes
    completed, the payload's own error message being kept either way. *)
Theorem _post_run_outcome resp task err w r w' :
  is_None resp = false ->
  _post_run E resp task err w = (Ok r, w') ->
  (forall k ks default, k <> "status" ->
     get_in r (k :: ks) default = get_in resp (k :: ks) default)
  /\ (forall k ks default, k <> "state" -> k <> "error" ->
        get_in r ("status" :: k :: ks) default
        = get_in resp ("status" :: k :: ks) default)
  /\ (if truthy err then
        has_path r ["status"; "state"] (PStr "error")
        /\ has_path r ["status"; "error"] err
      else
        get_in r ["status"; "error"] PNone
        = get_in resp ["status"; "error"] PNone
        /\ has_path r ["status"; "state"]
             (if eq_str (get_in resp ["status"; "state"] (PStr "")) "error"
              then PStr "error" else PStr "completed")).
Proof.
  intros Hn. rewrite (_post_run_given E _ _ _ _ Hn).
  destruct (is_dict resp); [|discriminate].
  destruct (normalize resp err _) as [[u r1]|e] eqn:Hnorm; [|discriminate].
  intros H. inversion H; subst. eapply normalize_outcome; exact Hnorm.
Qed.

(** What [_post_run] does to the store for a payload that is given: the
    runtime is untouched; without a connection nothing is recorded; with
    one, exactly one update is sent, after the payload is normalized,
    carrying the time, the state of the returned payload, and its error
    message when (and only when) that state is error and the message is
    not empty.  When it raises, nothing was sent. *)
Theorem _post_run_store_update resp task err w :
  is_None resp = false ->
  match _post_run E resp task err w with
  | (Ok r, w') =>
      self w' = self w
      /\ if _db_conn (self w) then
           exists updates,
             trace w' = trace w ++ [post_run_update E updates r]
             /\ dict_get "status.last_update" updates
                = Some (PStr (now E (trace w)))
             /\ dict_get "status.state" updates
                = Some (get_in r ["status"; "state"] PNone)
             /\ dict_get "status.error" updates
                = (if in_error r
                      && truthy (get_in r ["status"; "error"] PNone)
                   then Some (get_in r ["status"; "error"] PNone) else None)
         else w' = w
  | (Raise _, w') => w' = w
  end.
Proof.
  intros Hn. rewrite (_post_run_given E _ _ _ _ Hn).
  destruct (is_dict resp); [|reflexivity].
  destruct (normalize resp err _) as [[u r1]|e] eqn:Hnorm; [|reflexivity].
  destruct (normalize_updates _ _ _ _ _ Hnorm) as (H1 & H2 & H3).
  destruct (_db_conn (self w)); [|auto].
  split; [reflexivity|]. exists u. auto.
Qed.

End PostRunEffects.

Lemma _post_run_outcome_witness :
  let resp :=
    PDict [("status", PDict [("state", PStr "completed");
                             ("error", PStr "old message");
                             ("outputs", PDict [("accuracy", PInt 1)])])] in
  let r :=
    PDict [("status", PDict [("state", PStr "error");
                             ("error", PExc "boom");
                             ("outputs", PDict [("accuracy", PInt 1)])])] in
  _post_run demo_env resp None (PExc "boom") (demo_world "" "" false)
  = (Ok r, demo_world "" "" false)
  /\ has_path r ["status"; "state"] (PStr "error")
  /\ has_path r ["status"; "error"] (PExc "boom")
  /\ get_in r ["status"; "outputs"; "accuracy"] PNone = PInt 1.
Proof.
  cbv zeta.
  assert (Hrun : _post_run demo_env
                   (PDict [("status", PDict [("state", PStr "completed");
                                             ("error", PStr "old message");
                                             ("outputs",
                                              PDict [("accuracy", PInt 1)])])])
                   None (PExc "boom") (demo_world "" "" false)
                 = (Ok (PDict [("status", PDict [("state", PStr "error");
                                                 ("error", PExc "boom");
                                                 ("outputs",
                                                  PDict [("accuracy",
                                                          PInt 1)])])]),
                    demo_world "" "" false))
    by (vm_compute; reflexivity).
  split; [exact Hrun|].
  match type of Hrun with
  | _post_run _ ?resp _ _ _ = _ =>
      destruct (_post_run_outcome demo_env resp None (PExc "boom")
                  (demo_world "" "" false) _ _ eq_refl Hrun)
        as (_ & Hrest & Hst & Herr)
  end.
  split; [exact Hst|]. split; [exact Herr|].
  apply (Hrest "outputs" ["accuracy"] PNone); discriminate.
Defined.

Lemma _post_run_store_update_witness :
  let w := demo_world "" "http://mlrun-db" true in
  let resp := task_payload 2 "running" [] in
  match _post_run demo_env resp None PNone w with
  | (Ok r, w') =>
      self w' = self w
      /\ exists updates,
           trace w' = trace w ++ [post_run_update demo_env updates r]
           /\ dict_get "status.last_update" updates
              = Some (PStr (now demo_env (trace w)))
           /\ dict_get "status.state" updates
              = Some (get_in r ["status"; "state"] PNone)
           /\ dict_get "status.error" updates
              = (if in_error r
                    && truthy (get_in r ["status"; "error"] PNone)
                 then Some (get_in r ["status"; "error"] PNone) else None)
  | (Raise _, w') => w' = w
  end.
Proof.
  exact (_post_run_store_update demo_env (task_payload 2 "running" []) None
           PNone (demo_world "" "http://mlrun-db" true) eq_refl).
Defined.

(** ** Code metadata and the labels of a run *)

Lemma set_if_none_other struct key value k :
  k <> key -> dict_get k (set_if_none struct key value) = dict_get k struct.
Proof.
  intros Hne. unfold set_if_none.
  destruct (dict_get key struct) as [v|]; [destruct (truthy v)|];
    try reflexivity; apply dict_get_set_ne; congruence.
Qed.

Lemma set_if_none_get struct key value :
  dict_get key (set_if_none struct key value)
  = match dict_get key struct with
    | Some v => Some (if truthy v then v else value)
    | None => Some value
    end.
Proof.
  unfold set_if_none.
  destruct (dict_get key struct) as [v|] eqn:Hg; [destruct (truthy v)|];
    try apply dict_get_set_eq. exact Hg.
Qed.

(** Setting the same default twice is setting it once. *)
Lemma set_if_none_again struct key value :
  set_if_none (set_if_none struct key value) key value
  = set_if_none struct key value.
Proof.
  unfold set_if_none at 1. rewrite set_if_none_get.
  destruct (dict_get key struct) as [v|] eqn:Hg.
  - destruct (truthy v) eqn:Hv; [now rewrite Hv|].
    destruct (truthy value); [reflexivity|].
    apply dict_set_same. rewrite set_if_none_get, Hg, Hv. reflexivity.
  - destruct (truthy value); [reflexivity|].
    apply dict_set_same. rewrite set_if_none_get, Hg. reflexivity.
Qed.

(** A default that is already in place is not set again. *)
Lemma set_if_none_settled struct key value :
  dict_get key struct = Some value -> set_if_none struct key value = struct.
Proof.
  intros Hg. unfold set_if_none. rewrite Hg.
  destruct (truthy value); [reflexivity|]. apply dict_set_same. exact Hg.
Qed.

Section CodeMetadata.

Context (E : Env).

Lemma add_code_metadata_other labels k :
  k <> "repo" -> k <> "commit" ->
  dict_get k (fst (add_code_metadata E labels)) = dict_get k labels.
Proof.
  intros Hr Hc. unfold add_code_metadata.
  destruct (git_remotes E) as [[|url urls]| |e]; try reflexivity.
  destruct (git_commit E); cbn [fst];
    rewrite ?set_if_none_other by assumption; reflexivity.
Qed.

Lemma add_code_metadata_repo labels :
  dict_get "repo" (fst (add_code_metadata E labels))
  = match git_remotes E, dict_get "repo" labels with
    | GitOk (url :: _), Some v => Some (if truthy v then v else PStr url)
    | GitOk (url :: _), None => Some (PStr url)
    | _, old => old
    end.
Proof.
  unfold add_code_metadata.
  destruct (git_remotes E) as [[|url urls]| |e]; try reflexivity.
  destruct (git_commit E); cbn [fst];
    rewrite ?(set_if_none_other _ "commit") by discriminate;
    apply set_if_none_get.
Qed.

Lemma add_code_metadata_commit labels :
  dict_get "commit" (fst (add_code_metadata E labels))
  = match git_remotes E, git_commit E, dict_get "commit" labels with
    | GitOk (_ :: _), GitOk hexsha, Some v =>
        Some (if truthy v then v else PStr hexsha)
    | GitOk (_ :: _), GitOk hexsha, None => Some (PStr hexsha)
    | _, _, old => old
    end.
Proof.
  unfold add_code_metadata.
  destruct (git_remotes E) as [[|url urls]| |e];
    try (destruct (git_commit E); reflexivity).
  destruct (git_commit E); cbn [fst].
  - rewrite set_if_none_get, set_if_none_other by discriminate. reflexivity.
  - rewrite set_if_none_other by discriminate. reflexivity.
  - rewrite set_if_none_other by discriminate. reflexivity.
Qed.

Lemma add_code_metadata_keeps labels k v :
  dict_get k labels = Some v -> truthy v = true ->
  dict_get k (fst (add_code_metadata E labels)) = Some v.
Proof.
  intros Hg Hv.
  destruct (String.eqb_spec k "repo") as [->|Hr].
  { rewrite add_code_metadata_repo, Hg, Hv.
    destruct (git_remotes E) as [[|url urls]| |e]; reflexivity. }
  destruct (String.eqb_spec k "commit") as [->|Hc].
  { rewrite add_code_metadata_commit, Hg, Hv.
    destruct (git_remotes E) as [[|url urls]| |e];
      destruct (git_commit E); reflexivity. }
  rewrite add_code_metadata_other by assumption. exact Hg.
Qed.

(** Of a label that was filled, the value it was filled with. *)
Lemma set_if_none_filled struct key value :
  exists v, dict_get key (set_if_none struct key value) = Some v
            /\ (truthy v = true \/ v = value).
Proof.
  rewrite set_if_none_get. destruct (dict_get key struct) as [v|].
  - destruct (truthy v) eqn:Hv; eauto.
  - eauto.
Qed.

Lemma set_if_none_stable struct key value :
  set_if_none (set_if_none struct key value) key value
  = set_if_none struct key value.
Proof. apply set_if_none_again. Qed.

(** Filling one label and then another, and then the first again,
    changes nothing more. *)
Lemma set_if_none_twice struct k1 v1 k2 v2 :
  k1 <> k2 ->
  set_if_none (set_if_none (set_if_none struct k1 v1) k2 v2) k1 v1
  = set_if_none (set_if_none struct k1 v1) k2 v2.
Proof.
  intros Hne. set (l1 := set_if_none struct k1 v1).
  set (l2 := set_if_none l1 k2 v2).
  destruct (set_if_none_filled struct k1 v1) as (v & Hg & Hv).
  assert (Hg2 : dict_get k1 l2 = Some v).
  { unfold l2. rewrite set_if_none_other by exact Hne. exact Hg. }
  unfold set_if_none at 1. rewrite Hg2.
  destruct (truthy v) eqn:Ht; [reflexivity|].
  destruct Hv as [Hv| ->]; [discriminate|].
  apply dict_set_same. exact Hg2.
Qed.

(** [add_code_metadata] only fills in what is missing, and may stop
    half way.  Every label but repo and commit is left as it was and a
    label that is set (and not empty) is kept, also when it raises.  A
    repo label that is missing or empty is filled with the first remote
    as soon as there is one; a commit label that is missing or empty is
    filled only if the head commit could be read.  It raises what git
    raises and it does not catch: when that is for the head commit, the
    repo label was already filled.  Labelling twice is labelling once. *)
Theorem add_code_metadata_fills_missing labels :
  let labels' := fst (add_code_metadata E labels) in
  (forall k, k <> "repo" -> k <> "commit" ->
     dict_get k labels' = dict_get k labels)
  /\ (forall k v, dict_get k labels = Some v -> truthy v = true ->
        dict_get k labels' = Some v)
  /\ dict_get "repo" labels'
     = match git_remotes E, dict_get "repo" labels with
       | GitOk (url :: _), Some v => Some (if truthy v then v else PStr url)
       | GitOk (url :: _), None => Some (PStr url)
       | _, old => old
       end
  /\ dict_get "commit" labels'
     = match git_remotes E, git_commit E, dict_get "commit" labels with
       | GitOk (_ :: _), GitOk hexsha, Some v =>
           Some (if truthy v then v else PStr hexsha)
       | GitOk (_ :: _), GitOk hexsha, None => Some (PStr hexsha)
       | _, _, old => old
       end
  /\ snd (add_code_metadata E labels)
     = match git_remotes E, git_commit E with
       | GitRaises e, _ => Raise e
       | GitOk (_ :: _), GitRaises e => Raise e
       | _, _ => Ok tt
       end
  /\ fst (add_code_metadata E labels') = labels'.
Proof.
  cbv zeta. split; [apply add_code_metadata_other|].
  split; [apply add_code_metadata_keeps|].
  split; [apply add_code_metadata_repo|].
  split; [apply add_code_metadata_commit|].
  unfold add_code_metadata.
  destruct (git_remotes E) as [[|url urls]| |e];
    try (split; [destruct (git_commit E)|]; reflexivity).
  destruct (git_commit E) as [hexsha| |e]; cbn [fst snd];
    (split; [reflexivity|]).
  - rewrite set_if_none_twice by discriminate.
    apply set_if_none_twice. discriminate.
  - apply set_if_none_again.
  - apply set_if_none_again.
Qed.

End CodeMetadata.

(** ** The execution context of a run *)

Lemma to_dict_labels t :
  get_in (to_dict t) ["metadata"; "labels"] PNone
  = PDict (labels (metadata t)).
Proof.
  unfold to_dict.
  change (get_in (PDict ?d) ["metadata"; "labels"] PNone)
    with (get_in (struct_dict
                    [("name", name (metadata t)); ("uid", uid (metadata t));
                     ("project", project (metadata t));
                     ("iteration", iteration (metadata t));
                     ("labels", PDict (labels (metadata t)))])
            ["labels"] PNone).
  rewrite get_in_struct_dict by nodup_keys. reflexivity.
Qed.

Section ContextOnce.

Context (E : Env).

Local Notation "'no_context'" := (fun e => negb (context_call e)).
Local Notation "'settled'" :=
  (confined (fun _ : RunRuntime => True) no_context).

Ltac settled_step :=
  first
    [ apply confined_get_self; intros ? _
    | apply confined_modify_self; auto
    | confined_step ].

Ltac settled_tac := intros; cbv zeta; repeat settled_step.

Lemma settled_store_run t c : settled (store_run E t c).
Proof. unfold store_run. settled_tac. Qed.

Lemma settled__get_db_run t : settled (_get_db_run E t).
Proof. unfold _get_db_run. settled_tac. Qed.

Lemma settled__post_run resp t err : settled (_post_run E resp t err).
Proof.
  unfold _post_run. apply confined_bind.
  { destruct (is_None resp); [|apply confined_ret].
    destruct t; [apply settled__get_db_run|apply confined_ret]. }
  settled_tac.
Qed.

Lemma settled_run_task t : settled (run_task E t).
Proof.
  unfold run_task. apply confined_try.
  - apply confined_bind; [apply settled_store_run|]. intros _.
    apply confined_bind; [apply confined_lift|]. intros resp.
    apply settled__post_run.
  - intros err. apply settled__post_run.
Qed.

Lemma settled__run_many_loop tasks : forall acc,
  settled (_run_many_loop E tasks acc).
Proof.
  induction tasks as [|t tasks IH]; intros acc; cbn [_run_many_loop].
  - apply confined_ret.
  - apply confined_bind; [apply settled_run_task|]. intro. apply IH.
Qed.

Lemma settled_results_loop runspec todo : forall iter failed done,
  settled (results_loop E runspec todo iter failed done).
Proof.
  induction todo as [|t todo IH]; intros iter failed done;
    cbn [results_loop].
  - apply confined_ret.
  - cbv zeta. apply confined_bind.
    { destruct (eq_str _ "error"); [|apply confined_ret].
      apply confined_bind; [apply confined_emit; reflexivity|].
      intros; apply confined_ret. }
    intros f. apply confined_bind; [apply settled__post_run|].
    intro. apply IH.
Qed.

Lemma settled__results_to_iter results runspec :
  settled (_results_to_iter E results runspec).
Proof.
  unfold _results_to_iter. destruct results as [|r results].
  - apply confined_emit. reflexivity.
  - apply confined_bind; [apply settled_results_loop|].
    intros [[iter failed] done].
    destruct (iteration_table E iter) as [summary csv].
    pose proof (selector_logs done (selector_criteria (spec runspec))) as H.
    destruct (selector done (selector_criteria (spec runspec)))
      as [logged sel].
    apply confined_bind.
    { apply confined_emits. simpl in H.
      eapply forallb_impl; [|exact H]. intros [] He; try discriminate.
      reflexivity. }
    intros _. apply confined_bind; [apply confined_lift|].
    intros [item id]. settled_tac.
Qed.

Lemma settled_show resp : settled (show resp).
Proof. unfold show. settled_tac. Qed.

(** What comes before the creation of the context. *)
Lemma creates_context_after {A B} (m : M A) (k : A -> M B) Q :
  appends m (fun _ es => forallb no_context es = true) ->
  (forall a, creates_context (k a) Q) ->
  creates_context (bind m k) Q.
Proof.
  intros Hm Hk w. destruct (Hm w) as (a & w1 & es & H1 & Ht1 & Hes).
  destruct (Hk a w1) as (pre & struct & post & Ht & Hq & HQ).
  exists (es ++ pre), struct, post. unfold bind. rewrite H1.
  split; [|split; [|exact HQ]].
  - rewrite Ht, Ht1, <- !app_assoc. reflexivity.
  - rewrite <- app_assoc, forallb_app, Hes, Hq. reflexivity.
Qed.

(** The creation itself, and what comes after it. *)
Lemma creates_context_here {B} struct (k : unit -> M B) (Q : pyval -> Prop) :
  Q struct -> (forall a, settled (k a)) ->
  creates_context (bind (emit (NewContext struct)) k) Q.
Proof.
  intros HQ Hk w. unfold bind, emit.
  destruct (Hk tt (mkWorld (self w) (trace w ++ [NewContext struct])) I)
    as (_ & es & Ht & Hes).
  exists [], struct, es. split; [|split; [exact Hes|exact HQ]].
  rewrite Ht. cbn [trace app]. rewrite <- app_assoc. reflexivity.
Qed.

Ltac before_context :=
  apply creates_context_after;
  [ first [ apply appends_ret; reflexivity
          | apply appends_emit; reflexivity
          | apply appends_modify_self; reflexivity
          | apply appends_get_trace; intros; reflexivity
          | apply appends_get_self; intros; reflexivity
          | idtac ]
  | intro ].

Ltac settled_kfp :=
  destruct (_ && _);
  [apply confined__write_kfpmeta; reflexivity|apply confined_ret].

Ltac settled_batch :=
  unfold _run_many;
  apply confined_bind; [apply settled__run_many_loop|]; intros ?;
  apply confined_bind; [apply settled__results_to_iter|]; intros _;
  apply confined_bind; [apply confined_get_trace|]; intros ?;
  apply confined_bind; [settled_kfp|]; intros _;
  apply settled_show.

(** The labels of the descriptor the context is created from. *)
Lemma stamped_labels rt labels0 lbls :
  lbls
  = fst (add_code_metadata E
           (dict_set "owner"
              match dict_get "owner"
                      (dict_set "kind" (PStr (kind rt)) labels0) with
              | Some o => o
              | None => PStr (getuser E)
              end (dict_set "kind" (PStr (kind rt)) labels0))) ->
  dict_get "kind" lbls = Some (PStr (kind rt))
  /\ dict_get "owner" lbls
     = Some match dict_get "owner" labels0 with
            | Some o => o
            | None => PStr (getuser E)
            end
  /\ (forall k, k <> "kind" -> k <> "owner" -> k <> "repo" -> k <> "commit" ->
        dict_get k lbls = dict_get k labels0)
  /\ (forall k v, k <> "kind" -> dict_get k labels0 = Some v ->
        truthy v = true -> dict_get k lbls = Some v).
Proof.
  intros ->. rewrite (dict_get_set_ne "kind" "owner") by discriminate.
  split; [|split; [|split]].
  - rewrite add_code_metadata_other by discriminate.
    rewrite dict_get_set_ne by discriminate. apply dict_get_set_eq.
  - rewrite add_code_metadata_other by discriminate.
    apply dict_get_set_eq.
  - intros k Hk Ho Hr Hc. rewrite add_code_metadata_other by assumption.
    rewrite !dict_get_set_ne by congruence. reflexivity.
  - intros k v Hk Hg Hv. apply add_code_metadata_keeps; [|exact Hv].
    destruct (String.eqb_spec k "owner") as [->|Ho].
    + rewrite dict_get_set_eq, Hg. reflexivity.
    + rewrite !dict_get_set_ne by congruence. exact Hg.
Qed.

(** A step that raises makes no call. *)
Lemma settled_raised {A B} e (k : A -> M B) :
  settled (bind (lift (Raise e)) k).
Proof.
  intros w _. split; [exact I|]. exists []. cbn. now rewrite app_nil_r.
Qed.


End ContextOnce.


(** ** The command line of a task *)

Section CommandLine.

Context (E : Env) (to_json : RunObject -> result string).

(** The words [_get_cmd_args] puts before the handler and the
    arguments of the runtime. *)
Lemma _get_cmd_args_value runobj with_mlrun w config :
  to_json runobj = Ok config ->
  _get_cmd_args to_json runobj with_mlrun w
  = (Ok (if with_mlrun then "mlrun" else spec_command (rt_spec (self w)),
         (if with_mlrun then
            if nonempty (bld_inline_code (rt_build (self w)))
            then [PStr "run"; PStr "--from-env"]
            else [PStr "run"; PStr "--from-env"; PStr "mlrun"]
          else [])
         ++ (if truthy (handler (spec runobj))
             then [PStr "--handler"; handler (spec runobj)] else [])
         ++ map PStr (spec_args (rt_spec (self w)))), w).
Proof.
  intros Hj. unfold _get_cmd_args, bind, lift, get_self, ret.
  rewrite Hj. cbv zeta.
  destruct (nonempty (bld_inline_code _)), with_mlrun,
    (truthy (handler (spec runobj))),
    (spec_args (rt_spec (self w))); cbn [app map];
    rewrite ?app_nil_r; reflexivity.
Qed.

(** [_get_cmd_args] reads the runtime and changes nothing.  It raises
    what the serializer of the descriptor raises, although the
    serialized descriptor is not part of the result.  Otherwise the
    arguments are: the words that make mlrun run the task, if asked
    for; then the handler of the task, if it has one; then the arguments
    of the runtime.  With mlrun the command is mlrun and the command the
    runtime was configured with is not on the command line: without
    inline code the word after --from-env is mlrun itself. *)
Theorem _get_cmd_args_command_line runobj with_mlrun w :
  match to_json runobj with
  | Raise e => _get_cmd_args to_json runobj with_mlrun w = (Raise e, w)
  | Ok _ =>
      _get_cmd_args to_json runobj with_mlrun w
      = (Ok (if with_mlrun then "mlrun" else spec_command (rt_spec (self w)),
             (if with_mlrun then
                if nonempty (bld_inline_code (rt_build (self w)))
                then [PStr "run"; PStr "--from-env"]
                else [PStr "run"; PStr "--from-env"; PStr "mlrun"]
              else [])
             ++ (if truthy (handler (spec runobj))
                 then [PStr "--handler"; handler (spec runobj)] else [])
             ++ map PStr (spec_args (rt_spec (self w)))), w)
  end.
Proof.
  destruct (to_json runobj) as [config|e] eqn:Hj.
  - apply (_get_cmd_args_value _ _ _ config Hj).
  - unfold _get_cmd_args, bind, lift. rewrite Hj. reflexivity.
Qed.

(** In mode noctx or args the parameters of a run reach the command
    line: from the runtime as [run] leaves it, whether it returned or
    raised, the arguments end with those the runtime had before the run
    followed by [--name value] for every parameter, in order. *)
Theorem run_params_on_command_line runspec handler_ name_ project_ params
    inputs_ w d runobj with_mlrun config :
  spec_mode (rt_spec (self w)) = "noctx"
  \/ spec_mode (rt_spec (self w)) = "args" ->
  py_or (py_or params (parameters (spec runspec))) (PDict []) = PDict d ->
  to_json runobj = Ok config ->
  let w' := snd (run E runspec handler_ name_ project_ params inputs_ w) in
  exists command lead,
    _get_cmd_args to_json runobj with_mlrun w'
    = (Ok (command,
           lead ++ map PStr (spec_args (rt_spec (self w)))
           ++ map PStr (param_args E d)), w').
Proof.
  intros Hmode Hd Hj w'.
  rewrite (_get_cmd_args_value _ _ _ config Hj).
  unfold w'. rewrite (run_args_once E _ _ _ _ _ _ _ d Hmode Hd).
  eexists _, (_ ++ _). rewrite map_app, <- app_assoc. reflexivity.
Qed.

End CommandLine.

Lemma run_params_on_command_line_witness :
  let w := mkWorld
             (mkRunRuntime "base"
                (mkFunctionSpec "train.py" ["--verbose"] "" "args" "")
                (mkImageBuilder "" "" [] "" "" "" "") false false PNone false)
             [] in
  let w' := snd (run demo_env (demo_task "run1" PNone PNone) PNone PNone
                   PNone (PDict [("x", PInt 1)]) PNone w) in
  exists command lead,
    _get_cmd_args (fun _ => Ok "{}") (demo_task "run1" PNone PNone) true w'
    = (Ok (command,
           lead ++ [PStr "--verbose"] ++ [PStr "--x"; PStr "1"]), w').
Proof.
  exact (run_params_on_command_line demo_env (fun _ => Ok "{}")
           (demo_task "run1" PNone PNone) PNone PNone PNone
           (PDict [("x", PInt 1)]) PNone
           (mkWorld
              (mkRunRuntime "base"
                 (mkFunctionSpec "train.py" ["--verbose"] "" "args" "")
                 (mkImageBuilder "" "" [] "" "" "" "") false false PNone
                 false) [])
           [("x", PInt 1)] (demo_task "run1" PNone PNone) true "{}"
           (or_intror eq_refl) eq_refl eq_refl).
Defined.

(** ** Pipeline outputs *)

(** A string that starts with [old] is rewritten from its first
    character. *)
Lemma replace_prefix old new s :
  old <> "" -> prefix old s = true ->
  exists rest, replace s old new = (new ++ rest)%string.
Proof.
  intros Hold Hp. destruct s as [|c s].
  - destruct old; [congruence|discriminate].
  - unfold replace. cbn [replace_from]. rewrite Hp. eexists. reflexivity.
Qed.

Lemma rewritten_target target :
  prefix "v3io:///"
    (if prefix "v3io:///" target
     then replace target "v3io:///" "http://v3io-webapi:8081/"
     else target) = false.
Proof.
  destruct (prefix "v3io:///" target) eqn:Hp; [|exact Hp].
  destruct (replace_prefix "v3io:///" "http://v3io-webapi:8081/" target
              ltac:(discriminate) Hp) as [rest ->].
  reflexivity.
Qed.

(** The loop over [a ++ b] is the loop over [a], then over [b]. *)
Lemma get_kfp_outputs_loop_app a b : forall outputs files,
  get_kfp_outputs_loop (a ++ b) outputs files
  = match get_kfp_outputs_loop a outputs files with
    | (files', inr outputs') => get_kfp_outputs_loop b outputs' files'
    | raised => raised
    end.
Proof.
  induction a as [|o a IH]; intros outputs files; [reflexivity|].
  cbn [app get_kfp_outputs_loop].
  destruct o; try reflexivity.
  destruct (dict_get "key" d); [|reflexivity]. cbv zeta.
  destruct (dict_get_default "inline" _ d); try reflexivity.
  apply IH.
Qed.

(** What the loop adds, it adds at the end; one file and at most one
    entry for every artifact. *)
Lemma get_kfp_outputs_loop_adds a : forall outputs files files' outputs',
  get_kfp_outputs_loop a outputs files = (files', inr outputs') ->
  exists new written,
    outputs' = outputs ++ new /\ files' = files ++ written
    /\ (List.length new <= List.length a)%nat
    /\ List.length written = List.length a
    /\ Forall kfp_entry new.
Proof.
  induction a as [|o a IH]; intros outputs files files' outputs' H.
  - inversion H; subst. exists [], []. rewrite !app_nil_r.
    repeat split; auto.
  - cbn [get_kfp_outputs_loop] in H.
    destruct o; try discriminate.
    destruct (dict_get "key" d) as [key|]; [|discriminate].
    cbv zeta in H.
    destruct (dict_get_default "inline" _ d) as [| | | | |target| | |] eqn:Ht;
      try discriminate.
    pose proof (rewritten_target target) as Hsrc.
    set (source := if prefix "v3io:///" target
                   then replace target "v3io:///" "http://v3io-webapi:8081/"
                   else target) in *.
    destruct (eq_str _ "web-app" || eq_str _ "chart").
    { destruct (IH _ _ _ _ H) as (new & written & -> & -> & Hl & Hw & Hf).
      eexists (_ :: new), (_ :: written). rewrite <- !app_assoc.
      split; [reflexivity|]. split; [reflexivity|]. cbn [List.length].
      split; [lia|]. split; [lia|]. constructor; [|exact Hf].
      exists source. repeat split; auto. }
    assert (Hskip : forall H' : get_kfp_outputs_loop a outputs
                                  (files ++ [(key, PStr target)])
                                = (files', inr outputs'),
               exists new written,
                 outputs' = outputs ++ new /\ files' = files ++ written
                 /\ (List.length new <= List.length (PDict d :: a))%nat
                 /\ List.length written = List.length (PDict d :: a)
                 /\ Forall kfp_entry new).
    { intros H'.
      destruct (IH _ _ _ _ H') as (new & written & -> & -> & Hl & Hw & Hf).
      exists new, ((key, PStr target) :: written). rewrite <- !app_assoc.
      split; [reflexivity|]. split; [reflexivity|]. cbn [List.length].
      split; [lia|]. split; [lia|]. exact Hf. }
    destruct (eq_str _ "table"); [|exact (Hskip H)].
    destruct (truthy (dict_get_default "header" PNone d)) eqn:Hh;
      [|exact (Hskip H)].
    destruct (endswith source ".csv") eqn:Hcsv; [|exact (Hskip H)].
    cbn [andb] in H.
    destruct (IH _ _ _ _ H) as (new & written & -> & -> & Hl & Hw & Hf).
    eexists (_ :: new), (_ :: written). rewrite <- !app_assoc.
    split; [reflexivity|]. split; [reflexivity|]. cbn [List.length].
    split; [lia|]. split; [lia|]. constructor; [|exact Hf].
    exists source. split; [reflexivity|]. split; [exact Hsrc|].
    right. repeat split; auto.
Qed.

(** When [get_kfp_outputs] returns, it has attempted one write for
    every artifact, whatever its viewer, and it returns at most one
    entry for each: every entry is a web-app, or a csv table with a
    header and a source that ends in .csv, and no source starts with
    the v3io scheme (it was rewritten to the web API). *)
Theorem get_kfp_outputs_entries artifacts files outputs :
  get_kfp_outputs artifacts = (files, inr outputs) ->
  (List.length outputs <= List.length artifacts)%nat
  /\ List.length files = List.length artifacts
  /\ Forall kfp_entry outputs.
Proof.
  intros H. unfold get_kfp_outputs in H.
  destruct (get_kfp_outputs_loop_adds _ _ _ _ _ H)
    as (new & written & -> & -> & Hl & Hw & Hf).
  auto.
Qed.

(** One artifact is enough to lose every output: after artifacts that
    were handled, an artifact that is not a dictionary raises TypeError;
    a dictionary without a key raises KeyError, before any write; and
    one whose content (its inline body if it has one, else its target
    path) is not a string raises AttributeError, after the write was
    attempted.  The viewer of the artifact plays no part, nor do the
    artifacts after it. *)
Theorem get_kfp_outputs_raises before bad rest files outputs :
  get_kfp_outputs before = (files, inr outputs) ->
  match bad with
  | PDict output =>
      match dict_get "key" output, kfp_target output with
      | None, _ =>
          get_kfp_outputs (before ++ bad :: rest)
          = (files, inl (KeyError "key"))
      | Some key, PStr _ => True
      | Some key, target =>
          get_kfp_outputs (before ++ bad :: rest)
          = (files ++ [(key, target)], inl AttributeError)
      end
  | _ =>
      get_kfp_outputs (before ++ bad :: rest)
      = (files, inl TypeError)
  end.
Proof.
  intros H. unfold get_kfp_outputs in *.
  rewrite get_kfp_outputs_loop_app, H. cbn [get_kfp_outputs_loop].
  destruct bad; try reflexivity.
  destruct (dict_get "key" d) as [key|]; [|reflexivity].
  unfold kfp_target. cbv zeta.
  destruct (dict_get_default "inline" _ d); auto.
Qed.

Lemma get_kfp_outputs_entries_witness :
  let artifacts :=
    [PDict [("key", PStr "model"); ("viewer", PStr "chart");
            ("target_path", PStr "v3io:///users/admin/model.html")];
     PDict [("key", PStr "log")];
     PDict [("key", PStr "results"); ("viewer", PStr "table");
            ("header", PStr "x,y");
            ("target_path", PStr "/data/results.csv")]] in
  get_kfp_outputs artifacts
  = ([(PStr "model", PStr "v3io:///users/admin/model.html");
      (PStr "log", PStr "");
      (PStr "results", PStr "/data/results.csv")],
     inr [PDict [("type", PStr "web-app");
                 ("source",
                  PStr "http://v3io-webapi:8081/users/admin/model.html")];
          PDict [("type", PStr "table"); ("format", PStr "csv");
                 ("header", PStr "x,y");
                 ("source", PStr "/data/results.csv")]])
  /\ Forall kfp_entry
       [PDict [("type", PStr "web-app");
               ("source",
                PStr "http://v3io-webapi:8081/users/admin/model.html")];
        PDict [("type", PStr "table"); ("format", PStr "csv");
               ("header", PStr "x,y");
               ("source", PStr "/data/results.csv")]].
Proof.
  cbv zeta. split; [reflexivity|].
  apply (get_kfp_outputs_entries
           [PDict [("key", PStr "model"); ("viewer", PStr "chart");
                   ("target_path", PStr "v3io:///users/admin/model.html")];
            PDict [("key", PStr "log")];
            PDict [("key", PStr "results"); ("viewer", PStr "table");
                   ("header", PStr "x,y");
                   ("target_path", PStr "/data/results.csv")]]
           _ _ eq_refl).
Defined.

Lemma get_kfp_outputs_raises_witness :
  get_kfp_outputs
    [PDict [("key", PStr "model"); ("viewer", PStr "chart");
            ("target_path", PStr "/data/model.html")];
     PDict [("key", PStr "body"); ("inline", PNone);
            ("target_path", PStr "/data/body.txt")];
     PDict [("key", PStr "log"); ("viewer", PStr "web-app")]]
  = ([(PStr "model", PStr "/data/model.html"); (PStr "body", PNone)],
     inl AttributeError).
Proof.
  exact (get_kfp_outputs_raises
           [PDict [("key", PStr "model"); ("viewer", PStr "chart");
                   ("target_path", PStr "/data/model.html")]]
           (PDict [("key", PStr "body"); ("inline", PNone);
                   ("target_path", PStr "/data/body.txt")])
           [PDict [("key", PStr "log"); ("viewer", PStr "web-app")]]
           _ _ eq_refl).
Defined.

(** ** Asking for a build *)

Section BuildImage.

Context (E : Env).

(** [build_image] is the build gate, from the runtime that holds the
    request and has lost its image. *)
Lemma build_image_as_gate image base_image commands secret with_mlrun
    watch w :
  build_image E image base_image commands secret with_mlrun watch w
  = let b := rt_build (self w) in
    let requested :=
      set_spec_image
        (set_build (self w)
           (mkImageBuilder image
              (if nonempty base_image then base_image else bld_base_image b)
              (bld_commands b ++ commands)
              (bld_source b) (bld_build_pod b) (bld_inline_code b)
              (if nonempty secret then secret else bld_secret b))) "" in
    let r := _build_image E watch with_mlrun false
               (mkWorld requested (trace w)) in
    (rbind (fst r) (fun _ => Ok tt), snd r).
Proof.
  unfold build_image, bind, modify_self, ret. cbv zeta. cbn [self trace].
  destruct (_build_image E watch with_mlrun false _) as [[a|e] w'];
    reflexivity.
Qed.

(** [build_image] records the request and drops the image of the
    runtime before it goes through the build gate.  While a build pod is
    left to poll on a runtime that is not built, the builder is not
    called: the pod of the earlier build is polled.  Otherwise, with
    mode pass and neither commands nor source, the base image (the one
    given, else the one the runtime had) becomes the image and the
    runtime is built, or, without a base image, RunError is raised and
    the runtime is left without the image it had; in every other case
    the builder is called once, on the runtime without its image, even
    if the runtime was built, and its answer becomes the built flag. *)
Theorem build_image_outcomes image base_image commands secret with_mlrun
    watch w :
  let b := rt_build (self w) in
  let base := if nonempty base_image then base_image else bld_base_image b in
  let requested :=
    set_spec_image
      (set_build (self w)
         (mkImageBuilder image base (bld_commands b ++ commands)
            (bld_source b) (bld_build_pod b) (bld_inline_code b)
            (if nonempty secret then secret else bld_secret b))) "" in
  let r := build_image E image base_image commands secret with_mlrun watch w in
  if negb (_is_built (self w)) && nonempty (bld_build_pod b) then
    builder_calls (trace (snd r)) = builder_calls (trace w)
    /\ exists polled,
         trace (snd r)
         = trace w ++ GetPodStatus (bld_build_pod b) :: polled
  else if match bld_commands b ++ commands with [] => true | _ => false end
          && (spec_mode (rt_spec (self w)) =? "pass")%string
          && negb (nonempty (bld_source b))
  then
    if nonempty base then
      r = (Ok tt,
           mkWorld (set_is_built (set_spec_image requested base) true)
             (trace w))
    else
      r = (Raise (RunError "image or base_image must be specified"),
           mkWorld requested (trace w))
  else
    r = (Ok tt,
         mkWorld
           (set_is_built (fst (build_runtime E requested with_mlrun watch))
              (snd (build_runtime E requested with_mlrun watch)))
           (trace w ++ [BuildRuntime with_mlrun watch])).
Proof.
  cbv zeta. rewrite build_image_as_gate. cbv zeta.
  set (requested := set_spec_image _ "").
  assert (Hb : _is_built requested = _is_built (self w)) by reflexivity.
  assert (Hp : bld_build_pod (rt_build requested)
               = bld_build_pod (rt_build (self w))) by reflexivity.
  assert (Hc : bld_commands (rt_build requested)
               = bld_commands (rt_build (self w)) ++ commands)
    by reflexivity.
  assert (Hm : spec_mode (rt_spec requested) = spec_mode (rt_spec (self w)))
    by reflexivity.
  assert (Hs : bld_source (rt_build requested)
               = bld_source (rt_build (self w))) by reflexivity.
  assert (Hi : spec_image (rt_spec requested) = "") by reflexivity.
  assert (Hbase : bld_base_image (rt_build requested)
                  = if nonempty base_image then base_image
                    else bld_base_image (rt_build (self w)))
    by reflexivity.
  unfold _build_image. rewrite bind_get_self. cbn [self trace].
  rewrite Hb, Hp, Hc, Hm, Hs, Hi, Hbase. clearbody requested.
  destruct (negb (_is_built (self w))
            && nonempty (bld_build_pod (rt_build (self w)))).
  - unfold bind, get_trace, emit, modify_self, ret, raise.
    cbn [self trace fst snd].
    destruct (String.eqb _ "succeeded");
      [|destruct (_ || _)]; cbn [self trace fst snd rbind];
      rewrite <- ?app_assoc; rewrite ?builder_calls_app;
      (split; [simpl; lia|eexists; reflexivity]).
  - change (nonempty "") with false. cbn [negb andb].
    destruct (match bld_commands (rt_build (self w)) ++ commands with
              | [] => true | _ :: _ => false end
              && (spec_mode (rt_spec (self w)) =? "pass")%string
              && negb (nonempty (bld_source (rt_build (self w))))).
    + destruct (nonempty (if nonempty base_image then base_image
                          else bld_base_image (rt_build (self w)))) eqn:Hn.
      * cbn [negb]. unfold bind, get_self, modify_self, ret.
        cbn [self trace fst snd rbind]. rewrite Hi.
        change (nonempty "") with false. cbv iota. rewrite Hbase.
        assert (Hi' : spec_image
                        (rt_spec
                           (set_spec_image requested
                              (if nonempty base_image then base_image
                               else bld_base_image (rt_build (self w)))))
                      = if nonempty base_image then base_image
                        else bld_base_image (rt_build (self w)))
          by reflexivity.
        rewrite Hi', Hn. reflexivity.
      * reflexivity.
    + unfold bind, get_self, ret, emit, put_self.
      cbn [self trace fst snd]. rewrite Hi.
      change (nonempty "") with false. cbv iota. cbn [self trace fst snd].
      destruct (build_runtime E requested with_mlrun watch) as [rt' ready].
      reflexivity.
Qed.

End BuildImage.

(** ** The single run that succeeds *)

Section SingleRunPayload.

Context (E : Env).

Lemma returns__post_run_payload resp task :
  wf_payload resp = true ->
  returns (_post_run E resp task PNone) (settles resp).
Proof.
  intros Hwf w.
  assert (Hd : is_dict resp = true) by (destruct resp; auto; discriminate).
  rewrite _post_run_given by (destruct resp; auto; discriminate).
  rewrite Hd.
  destruct (normalize_wf resp PNone
              [("status.last_update", PStr (now E (trace w)))] Hwf)
    as (u1 & r1 & Hn).
  rewrite Hn. eexists _, _. split; [reflexivity|].
  destruct (normalize_outcome _ _ _ _ _ Hn) as (H1 & H2 & H3 & H4).
  repeat split; assumption.
Qed.

(** A single run outside a pipeline whose backend answers with a
    payload ends by the state of the task that was submitted: [run]
    raises its error if it was in state error, and returns the payload
    of the backend for the task, settled, otherwise. *)
Lemma single_run_ends runspec handler_ name_ project_ params inputs_ w :
  git_quiet E ->
  kfp (self w) = false ->
  (forall t, exists resp, _run E t = Ok resp /\ wf_payload resp = true) ->
  truthy (hyperparams (spec runspec)) = false ->
  truthy (param_file (spec runspec)) = false ->
  (exists d, py_or (py_or params (parameters (spec runspec))) (PDict [])
             = PDict d) ->
  exists t resp r,
    submitted E (self w) runspec handler_ name_ project_ params inputs_ t
    /\ _run E t = Ok resp /\ settles resp r
    /\ fst (run E runspec handler_ name_ project_ params inputs_ w)
       = if eq_str (state (status runspec)) "error"
         then Raise (RunError (py_str E (error (status runspec))))
         else Ok r.
Proof.
  intros Hgit Hkfp Hrun Hh Hp [d Hd]. unfold run. rewrite bind_get_self.
  remember (self w) as rt eqn:Hrt in *. clear Hrt. revert w.
  match goal with
  | |- forall w, exists t resp r, _ /\ _ /\ _ /\ fst (?m w) = _ =>
      change (ends m
                (fun res =>
                   exists t resp r,
                     submitted E rt runspec handler_ name_ project_ params
                       inputs_ t
                     /\ _run E t = Ok resp /\ settles resp r
                     /\ res
                        = if eq_str (state (status runspec)) "error"
                          then Raise (RunError
                                        (py_str E (error (status runspec))))
                          else Ok r))
  end.
  cbv zeta.
  apply ends_bind with (P := fun _ => True).
  { returns_if; [|apply returns_ret; auto].
    cbn [parameters]. rewrite Hd. apply returns_modify_self. auto. }
  intros _ _. apply ends_bind with (P := fun _ => True).
  { returns_if; [apply returns_modify_self|apply returns_ret]; auto. }
  intros _ _. apply ends_bind with (P := fun _ => True);
    [apply returns_get_trace; auto|]. intros h _.
  apply ends_bind with (P := fun _ => True);
    [apply returns_emit; auto|]. intros _ _.
  apply ends_bind with (P := fun _ => True).
  { returns_if; [|apply returns_ret; auto].
    apply returns_bind with (P := fun _ => True);
      [apply returns_emit; auto|]. intros _ _.
    apply returns_modify_self. auto. }
  intros _ _.
  match goal with
  | |- context [add_code_metadata E ?l] =>
      pose proof (add_code_metadata_quiet E l Hgit) as Hcode;
      destruct (add_code_metadata E l) as [lbls coded] eqn:Hlbls;
      cbn [snd] in Hcode; subst coded
  end.
  apply ends_bind with (P := fun _ => True);
    [apply returns_lift; auto|]. intros _ _.
  apply ends_bind with (P := fun _ => True);
    [apply returns_emit; auto|]. intros _ _.
  cbn [hyperparams param_file]. rewrite Hh, Hp.
  apply ends_bind
    with (P := fun r => exists t resp,
                          submitted E rt runspec handler_ name_ project_ params
                       inputs_ t
                          /\ _run E t = Ok resp /\ settles resp r).
  - apply returns_try_returned.
    apply returns_bind with (P := fun _ => True).
    { intros w0.
      match goal with
      | |- context [store_run E ?t true] =>
          destruct (store_run_returns E t true w0) as (w1 & Hw1)
      end.
      exists tt, w1. auto. }
    intros _ _.
    match goal with
    | |- context [lift (_run E ?t)] =>
        destruct (Hrun t) as (resp & Hresp & Hwf);
        assert (Hsub : submitted E rt runspec handler_ name_ project_ params
                         inputs_ t)
          by (unfold submitted; cbn [metadata spec status name project
                iteration uid labels parameters inputs handler
                selector_criteria hyperparams param_file secret_sources];
              repeat split; try reflexivity;
              [exists h; reflexivity
              |transitivity (fst (lbls, @Ok unit tt));
                 [reflexivity|rewrite <- Hlbls; reflexivity]]);
        apply returns_bind
          with (P := fun r => r = resp)
    end.
    { intros w0. unfold lift. rewrite Hresp. eauto. }
    intros ? ->.
    apply returns_bind with (P := fun _ => True).
    { rewrite Hkfp, andb_false_r. apply returns_ret. auto. }
    intros _ _.
    apply returns_bind with (P := settles resp);
      [apply returns__post_run_payload; exact Hwf|].
    intros r Hr. unfold show.
    destruct Hr as (H1 & H2 & H3 & H4).
    rewrite (has_path_truthy r ["status"; "state"] _
               ltac:(discriminate) H4).
    apply returns_bind with (P := fun _ => True);
      [apply returns_ret; auto|]. intros _ _.
    apply returns_ret. eexists _, resp. split; [exact Hsub|].
    split; [exact Hresp|]. repeat split; assumption.
  - intros r (t & resp & Hsub & Hresp & H1 & H2 & H3 & H4).
    rewrite (has_path_truthy r ["status"; "state"] _
               ltac:(discriminate) H4).
    apply ends_bind with (P := fun _ => True);
      [apply returns_emit; auto|]. intros _ _.
    cbn [status]. intros w0. exists t, resp, r.
    split; [exact Hsub|]. split; [exact Hresp|].
    split; [repeat split; assumption|].
    destruct (eq_str (state (status runspec)) "error"); reflexivity.
Qed.



End SingleRunPayload.



(** ** What the summary of a batch reports *)

Section Summary.

Context (E : Env).

(** The summary of a non-empty batch of terminal payloads, when the
    selection does not raise: after the tasks in state error are logged
    and every payload is passed through [_post_run] again, the
    iteration results are recorded once, with the iteration the
    selector elected and, if that iteration is not zero or missing, the
    payload at the index it elected (else with no payload); then the
    table of the iterations; then the state of the batch.  Nothing of
    the summary is recorded before. *)
Theorem summary_reports_selection results runspec item id w :
  results <> [] -> Forall terminal results ->
  snd (selector results (selector_criteria (spec runspec))) = Ok (item, id) ->
  exists w' es summary csv,
    _results_to_iter E results runspec w = (Ok tt, w')
    /\ trace w'
       = trace w ++ es
         ++ [LogIterationResults id summary
               (if truthy id then nth item results PNone else PNone);
             LogArtifact "iteration_results.csv" csv;
             aggregate_state (count_error results)]
    /\ forallb (fun e => negb (summary_call e)) es = true.
Proof.
  intros Hne Ht Hsel. unfold _results_to_iter.
  destruct results as [|r0 rs] eqn:Hres; [congruence|]. rewrite <- Hres in *.
  assert (Hlen : negb (Nat.eqb (List.length results) 0) = true)
    by (rewrite Hres; reflexivity).
  destruct (results_loop_terminal E runspec results Ht [] 0%nat [] w)
    as (iter' & w1 & H1 & _).
  destruct (confined_results_loop E (self w) false runspec results [] 0%nat []
              w (same_services_refl (self w))) as (_ & es1 & Hes1 & HP1).
  rewrite H1 in Hes1. cbn [snd] in Hes1.
  unfold bind at 1. rewrite H1. cbn [app Nat.add].
  destruct (iteration_table E iter') as [summary csv].
  pose proof (selector_logs results (selector_criteria (spec runspec)))
    as Hlog.
  destruct (selector results (selector_criteria (spec runspec)))
    as [logged s]. simpl in Hsel, Hlog. subst s.
  assert (Hquiet : forallb (fun e => negb (summary_call e)) (es1 ++ logged)
                   = true).
  { rewrite forallb_app. apply andb_true_intro. split.
    - eapply forallb_impl; [|exact HP1].
      intros e He. rewrite (may_call_no_summary _ _ He). reflexivity.
    - eapply forallb_impl; [|exact Hlog].
      intros [] He; try discriminate. reflexivity. }
  unfold bind, emits, lift, emit. cbn [self trace].
  rewrite Hlen, andb_true_r. unfold aggregate_state.
  destruct (0 <? count_error results)%nat; cbn [self trace];
    (eexists _, (es1 ++ logged), summary, csv;
     split; [reflexivity|]; split; [|exact Hquiet];
     cbn [trace]; rewrite Hes1; repeat rewrite <- app_assoc; reflexivity).
Qed.

End Summary.

Lemma summary_reports_selection_witness :
  let results :=
    [task_payload 1 "completed" [("accuracy", PFloat (7 # 10))];
     task_payload 2 "completed" [("accuracy", PFloat (9 # 10))];
     task_payload 3 "error" []] in
  let w := demo_world "" "" false in
  exists w' es summary csv,
    _results_to_iter demo_env results sweep_task w = (Ok tt, w')
    /\ trace w'
       = trace w ++ es
         ++ [LogIterationResults (PInt 2) summary
               (task_payload 2 "completed" [("accuracy", PFloat (9 # 10))]);
             LogArtifact "iteration_results.csv" csv;
             SetState PNone
               (PStr "1 tasks failed, check logs for db for details")]
    /\ forallb (fun e => negb (summary_call e)) es = true.
Proof.
  apply (summary_reports_selection demo_env
           [task_payload 1 "completed" [("accuracy", PFloat (7 # 10))];
            task_payload 2 "completed" [("accuracy", PFloat (9 # 10))];
            task_payload 3 "error" []]
           sweep_task 1%nat (PInt 2) (demo_world "" "" false)).
  - discriminate.
  - constructor; [left; reflexivity|].
    constructor; [left; reflexivity|].
    constructor; [right; reflexivity|]. constructor.
  - vm_compute. reflexivity.
Defined.
